(** * Messenger-Analysis: the cleaning pipeline and its aggregations

    A shallow embedding of [chat_processing/chat_features.py],
    [chat_processing/single_folder.py] and [chat_processing/all_folders.py].

    Conventions.
    - A Python [str] is the list of its Unicode code points ([list Z]).
    - A pandas cell that may be NaN is an [option]; a column that may be
      missing from a frame is a boolean flag of the frame.
    - A Python exception is a value of [exn]; code that can raise returns
      [result].
    - What the program takes from outside the repository (the tz database
      behind ['America/Toronto'], the Unicode database behind [\w], and the
      table [emoji.EMOJI_DATA]) is a [Variable] of the section that uses it. *)

From Stdlib Require Import String Ascii.
From Stdlib Require Import ZArith List Bool Lia.
From Stdlib Require Import Sorting.Sorted Permutation.
Import ListNotations.
Local Open Scope Z_scope.

(** ** Strings *)

Definition str := list Z.

(** An ASCII literal as a Python string. *)
Definition py (s : string) : str :=
  map (fun a => Z.of_N (N_of_ascii a)) (list_ascii_of_string s).

Definition str_eqb (a b : str) : bool :=
  if list_eq_dec Z.eq_dec a b then true else false.

(** [text.startswith(p)] *)
Fixpoint startswith (p text : str) : bool :=
  match p, text with
  | [], _ => true
  | _ :: _, [] => false
  | a :: p', b :: t' => (a =? b) && startswith p' t'
  end.

(** [p in text] for strings, which is also what
    [Series.str.contains(p)] computes for a pattern without
    metacharacters. *)
Fixpoint contains (p text : str) : bool :=
  startswith p text ||
  match text with
  | [] => false
  | _ :: t => contains p t
  end.

Definition http : str := py "http".

(** ** Exceptions *)

Inductive exn : Type :=
| ValueError                 (* pd.concat of an empty list *)
| KeyError (missing : list string) (* indexing a frame by missing columns *)
| UnicodeEncodeError
| UnicodeDecodeError.

Definition result (A : Type) : Type := exn + A.

Definition ret {A} (a : A) : result A := inr a.
Definition raise {A} (e : exn) : result A := inl e.

Definition bind {A B} (m : result A) (k : A -> result B) : result B :=
  match m with
  | inl e => inl e
  | inr a => k a
  end.

Notation "x <- m ;; k" := (bind m (fun x => k))
  (at level 61, m at next level, right associativity).

(** A loop over [l], or [Series.apply(f)], for an [f] that can raise: the
    first exception, in order, ends it. *)
Fixpoint apply_rows {A B} (f : A -> result B) (l : list A) : result (list B) :=
  match l with
  | [] => ret []
  | a :: l' =>
      b <- f a ;;
      bs <- apply_rows f l' ;;
      ret (b :: bs)
  end.

Definition raises {A} (m : result A) : Prop := exists e, m = inl e.

(** ** Text normalizer: [unicode_emoji_converter] *)

(** [s.encode('latin1')]: every code point must fit one byte. *)
Fixpoint encode_latin1 (s : str) : option (list Z) :=
  match s with
  | [] => Some []
  | c :: s' =>
      if (0 <=? c) && (c <=? 255)
      then option_map (cons c) (encode_latin1 s')
      else None
  end.

Definition is_cont (b : Z) : bool := (128 <=? b) && (b <=? 191).

Definition cont_bits (b : Z) : Z := Z.land b 63.

(** [bs.decode('utf8')] with the default [errors='strict']: shortest
    forms only, no surrogates, nothing above U+10FFFF. *)
Fixpoint decode_utf8 (bs : list Z) : option str :=
  match bs with
  | [] => Some []
  | b0 :: t0 =>
      if b0 <? 128 then option_map (cons b0) (decode_utf8 t0)
      else if b0 <? 194 then None
      else if b0 <? 224 then
        match t0 with
        | b1 :: t1 =>
            if is_cont b1
            then option_map
                   (cons (Z.lor (Z.shiftl (Z.land b0 31) 6) (cont_bits b1)))
                   (decode_utf8 t1)
            else None
        | _ => None
        end
      else if b0 <? 240 then
        match t0 with
        | b1 :: b2 :: t2 =>
            if is_cont b1 && is_cont b2
               && (if b0 =? 224 then 160 <=? b1 else true)
               && (if b0 =? 237 then b1 <=? 159 else true)
            then option_map
                   (cons (Z.lor (Z.shiftl (Z.land b0 15) 12)
                            (Z.lor (Z.shiftl (cont_bits b1) 6) (cont_bits b2))))
                   (decode_utf8 t2)
            else None
        | _ => None
        end
      else if b0 <? 245 then
        match t0 with
        | b1 :: b2 :: b3 :: t3 =>
            if is_cont b1 && is_cont b2 && is_cont b3
               && (if b0 =? 240 then 144 <=? b1 else true)
               && (if b0 =? 244 then b1 <=? 143 else true)
            then option_map
                   (cons (Z.lor (Z.shiftl (Z.land b0 7) 18)
                            (Z.lor (Z.shiftl (cont_bits b1) 12)
                               (Z.lor (Z.shiftl (cont_bits b2) 6) (cont_bits b3)))))
                   (decode_utf8 t3)
            else None
        | _ => None
        end
      else None
  end.

(** [unicode_str.encode('latin1').decode('utf8')] *)
Definition unicode_emoji_converter (unicode_str : str) : result str :=
  match encode_latin1 unicode_str with
  | None => raise UnicodeEncodeError
  | Some bs =>
      match decode_utf8 bs with
      | None => raise UnicodeDecodeError
      | Some converted_str => ret converted_str
      end
  end.

(** The UTF-8 bytes of a code point, used to write down what an export
    file holds for a given text: each byte of the UTF-8 form as one
    character. *)
Definition utf8_bytes (c : Z) : list Z :=
  if c <? 128 then [c]
  else if c <? 2048 then
    [Z.lor 192 (Z.shiftr c 6); Z.lor 128 (Z.land c 63)]
  else if c <? 65536 then
    [Z.lor 224 (Z.shiftr c 12); Z.lor 128 (Z.land (Z.shiftr c 6) 63);
     Z.lor 128 (Z.land c 63)]
  else
    [Z.lor 240 (Z.shiftr c 18); Z.lor 128 (Z.land (Z.shiftr c 12) 63);
     Z.lor 128 (Z.land (Z.shiftr c 6) 63); Z.lor 128 (Z.land c 63)].

Definition mojibake (s : str) : str := flat_map utf8_bytes s.

Definition hello_emoji_world : str := py "Hello " ++ [128512] ++ py " world".

(** ** Text normalizer: words *)

Definition is_upper (c : Z) : bool := (65 <=? c) && (c <=? 90).
Definition is_lower (c : Z) : bool := (97 <=? c) && (c <=? 122).

(** The character class [[A-Za-z]]. *)
Definition is_ascii_letter (c : Z) : bool := is_upper c || is_lower c.

Definition upper (c : Z) : Z := if is_lower c then c - 32 else c.
Definition lower (c : Z) : Z := if is_upper c then c + 32 else c.

Definition apostrophe : Z := 39.

(** [string.punctuation] *)
Definition is_punctuation (c : Z) : bool :=
  ((33 <=? c) && (c <=? 47)) || ((58 <=? c) && (c <=? 64))
  || ((91 <=? c) && (c <=? 96)) || ((123 <=? c) && (c <=? 126)).

(** [text.translate(str.maketrans('', '', string.punctuation))] *)
Definition words_without_punctuation (text : str) : str :=
  filter (fun c => negb (is_punctuation c)) text.

(** Python's whitespace ([str.isspace] on one character), which is both
    the class [\s] of a [str] pattern and the separator of [str.split()]. *)
Definition isspace (c : Z) : bool :=
  ((9 <=? c) && (c <=? 13)) || ((28 <=? c) && (c <=? 32))
  || (c =? 133) || (c =? 160) || (c =? 5760)
  || ((8192 <=? c) && (c <=? 8202))
  || (c =? 8232) || (c =? 8233) || (c =? 8239) || (c =? 8287) || (c =? 12288).

(** [s.split()]: the maximal runs of non-whitespace; [cur] is the run
    being read, most recent character first. *)
Fixpoint split_from (cur : str) (s : str) : list str :=
  match s with
  | [] => match cur with [] => [] | _ => [rev cur] end
  | c :: t =>
      if isspace c
      then match cur with
           | [] => split_from [] t
           | _ => rev cur :: split_from [] t
           end
      else split_from (c :: cur) t
  end.

Definition split (s : str) : list str := split_from [] s.

(** Where the scan of [[A-Za-z]+('[A-Za-z]+)?] stands: outside a match,
    in the first run of letters, or in the run after the apostrophe. *)
Inductive cap_state : Type := Outside | FirstRun | SecondRun.

(** [re.sub(r"[A-Za-z]+('[A-Za-z]+)?", lambda mo: mo.group(0)[0].upper()
    + mo.group(0)[1:].lower(), s)]: the first letter of a match is
    upper-cased and the rest of the match lower-cased; an apostrophe joins
    the match only when a letter follows it. *)
Fixpoint capitalize_from (st : cap_state) (s : str) : str :=
  match s with
  | [] => []
  | c :: t =>
      if is_ascii_letter c then
        match st with
        | Outside => upper c :: capitalize_from FirstRun t
        | FirstRun => lower c :: capitalize_from FirstRun t
        | SecondRun => lower c :: capitalize_from SecondRun t
        end
      else
        match st, t with
        | FirstRun, c' :: _ =>
            if (c =? apostrophe) && is_ascii_letter c'
            then c :: capitalize_from SecondRun t
            else c :: capitalize_from Outside t
        | _, _ => c :: capitalize_from Outside t
        end
  end.

Section Words.

(** [str.isalnum] on one character, from the Unicode database. *)
Variable isalnum : Z -> bool.

(** The class [\w] of a [str] pattern. *)
Definition is_word_char (c : Z) : bool := isalnum c || (c =? 95).

(** The characters [[^\w\d\s\']+] leaves in place ([\d] is part of
    [\w]). *)
Definition kept_by_prep (c : Z) : bool :=
  is_word_char c || isspace c || (c =? apostrophe).

Definition prep_text (s : str) (cap : bool) : list str :=
  let s := if cap then capitalize_from Outside s else s in
  let s := filter kept_by_prep s in
  split s.

Definition word_count (s : str) : Z :=
  let words_split := prep_text s false in
  Z.of_nat (length words_split).

End Words.

(** ** Text normalizer: emoji *)

(** [sorted(xs, key=len, reverse=True)]: longest first, and stable. *)
Fixpoint insert_by_len (x : str) (l : list str) : list str :=
  match l with
  | [] => [x]
  | y :: l' =>
      if (length y <=? length x)%nat then x :: y :: l'
      else y :: insert_by_len x l'
  end.

Definition sorted_by_len_desc (xs : list str) : list str :=
  fold_right insert_by_len [] xs.

(** The pattern ['(' + '|'.join(re.escape(u) for u in emojis) + ')'] as
    the ordered list of its literal alternatives. *)
Definition get_emoji_regexp (EMOJI_DATA : list str) : list str :=
  let emojis := sorted_by_len_desc EMOJI_DATA in
  emojis.

(** What an alternation of literals matches at the start of [text]: the
    first alternative, in pattern order, that is a prefix of it. *)
Definition first_match (alts : list str) (text : str) : option str :=
  find (fun a => startswith a text) alts.

(** [exp.findall(text)] for such a pattern with its one group: scan left
    to right, emit the match and resume after it, or step over one
    character when nothing matches. [skip] counts the characters still
    covered by the last match; an empty match steps over one character. *)
Fixpoint findall_from (alts : list str) (skip : nat) (text : str) : list str :=
  match text with
  | [] =>
      match skip with
      | O => match first_match alts [] with Some m => [m] | None => [] end
      | S _ => []
      end
  | _ :: t =>
      match skip with
      | S k => findall_from alts k t
      | O =>
          match first_match alts text with
          | Some m => m :: findall_from alts (Nat.pred (length m)) t
          | None => findall_from alts 0 t
          end
      end
  end.

Definition findall (alts : list str) (text : str) : list str :=
  findall_from alts 0 text.

Section Emoji.

(** The keys of [emoji.EMOJI_DATA], in the order of the dict. *)
Variable EMOJI_DATA : list str.

Definition keep_only_emojis (text : str) : list str :=
  let exp := get_emoji_regexp EMOJI_DATA in
  findall exp text.

(** Modelled from the spec: [emoji.emoji_count], which both pipelines
    apply to every message, is a function of the emoji package; it is
    not code of this repository and not under src/. The spec gives the
    emoji count of a message as the count of its emoji runes, a raw count
    of emoji characters that is not limited to the extracted tokens:
    here, the characters that are on their own a key of the table. *)
Definition emoji_count (text : str) : Z :=
  Z.of_nat (length (filter (fun c => existsb (str_eqb [c]) EMOJI_DATA) text)).

(** The specification of emoji extraction, in the words of the design:
    greedy, longest known emoji first at each position, tokens in order
    of appearance, other characters skipped. *)
Inductive maximal_munch : str -> list str -> Prop :=
| munch_end : maximal_munch [] []
| munch_skip c t r :
    (forall e, In e EMOJI_DATA -> startswith e (c :: t) = false) ->
    maximal_munch t r ->
    maximal_munch (c :: t) r
| munch_token e text r :
    In e EMOJI_DATA ->
    startswith e text = true ->
    (forall e', In e' EMOJI_DATA -> startswith e' text = true ->
                (length e' <= length e)%nat) ->
    maximal_munch (skipn (length e) text) r ->
    maximal_munch text (e :: r).

End Emoji.

(** A small excerpt of the emoji table: grinning face, thumbs up, thumbs
    up with a skin tone, man, woman, girl, and the family joined by
    U+200D. *)
Definition grinning : str := [128512].
Definition thumbs_up : str := [128077].
Definition thumbs_up_medium : str := [128077; 127997].
Definition man : str := [128104].
Definition woman : str := [128105].
Definition girl : str := [128103].
Definition family_mwg : str := [128104; 8205; 128105; 8205; 128103].

Definition emoji_excerpt : list str :=
  [grinning; thumbs_up; man; woman; girl; thumbs_up_medium; family_mwg].

(** ASCII letters and digits, and nothing else: the restriction of
    [str.isalnum] to characters below U+0080 (false above). *)
Definition ascii_isalnum (c : Z) : bool :=
  is_ascii_letter c || ((48 <=? c) && (c <=? 57)).

(** ** Data model *)

(** One entry of the [messages] list of an export file. A key is either
    absent ([None]) or carries a value. [other_fields] names the keys of
    the entry besides the four below whose value is not null (photos,
    share, reactions, ...). *)
Record RawMessage : Type := mkRaw {
  sender_name : str;
  timestamp_ms : Z;
  content : option str;
  call_duration : option Z;
  other_fields : list string
}.

(** One [*.json] file: its [title] and its [messages]. *)
Record ExportFile : Type := mkFile {
  title : str;
  messages : list RawMessage
}.

(** A row of the frame the loaders build: the message and its cell in
    the column [Title]. Only the loader of multi-conversation mode adds
    that column; [row_title] is [None] in a frame without it. *)
Record RawRow : Type := mkRawRow {
  row_title : option str;
  row_message : RawMessage
}.

(** A frame of raw rows with the name of its index, as the loader of
    single-conversation mode builds it. *)
Record RawFrame : Type := mkRawFrame {
  raw_name : option str;
  raw_body : list RawRow
}.

(** A row of the cleaned frame. [Title] is [None] where the frame has no
    such column; [Call_Duration] is [None] for NaN and in a frame without
    the column. The 1-based index of a row is its position in the frame. *)
Record CanonRow : Type := mkRow {
  Sender : str;
  Title : option str;
  Timestamp : Z;
  Date : Z;
  Time : Z;
  Message : str;
  Call_Duration : option Z;
  Word_Count : Z;
  Emoji_Count : Z
}.

Record DataFrame : Type := mkFrame {
  index_name : option str;
  has_Title : bool;
  has_Call_Duration : bool;
  rows : list CanonRow
}.

Definition set_Message (r : CanonRow) (m : str) : CanonRow :=
  mkRow (Sender r) (Title r) (Timestamp r) (Date r) (Time r) m
        (Call_Duration r) (Word_Count r) (Emoji_Count r).

Definition set_Word_Count (r : CanonRow) (n : Z) : CanonRow :=
  mkRow (Sender r) (Title r) (Timestamp r) (Date r) (Time r) (Message r)
        (Call_Duration r) n (Emoji_Count r).

Definition set_Emoji_Count (r : CanonRow) (n : Z) : CanonRow :=
  mkRow (Sender r) (Title r) (Timestamp r) (Date r) (Time r) (Message r)
        (Call_Duration r) (Word_Count r) n.

(** What the program reads from its environment. [tz_offset t] is the
    offset from UTC, in milliseconds, that ['America/Toronto'] has at the
    instant [t] (milliseconds since the epoch). *)
Record External : Type := mkExternal {
  tz_offset : Z -> Z;
  isalnum : Z -> bool;
  EMOJI_DATA : list str
}.

Definition ms_per_day : Z := 86400000.

(** [.dt.date] and [.dt.time] of a timestamp converted to the zone: the
    local day number and the local time of day. *)
Definition local_date (ext : External) (t : Z) : Z :=
  (t + tz_offset ext t) / ms_per_day.

Definition local_time (ext : External) (t : Z) : Z :=
  (t + tz_offset ext t) mod ms_per_day.

(** ** Frame operations shared by the two pipelines *)

(** [df.sort_values(...)], ascending, for the order [leb]. Rows with
    equal keys keep their order here; pandas does not promise an order
    among them. *)
Fixpoint insert_sorted {A} (leb : A -> A -> bool) (x : A) (l : list A) : list A :=
  match l with
  | [] => [x]
  | y :: l' => if leb x y then x :: l else y :: insert_sorted leb x l'
  end.

Definition sort_values {A} (leb : A -> A -> bool) (l : list A) : list A :=
  fold_right (insert_sorted leb) [] l.

(** [pd.concat(dfs)]: refuses an empty list. *)
Definition concat_frames {A} (dfs : list (list A)) : result (list A) :=
  match dfs with
  | [] => raise ValueError
  | _ => ret (List.concat dfs)
  end.

(** A column exists in the concatenated frame when some message of some
    file has the key. *)
Definition column_content (df : list RawRow) : bool :=
  existsb (fun r => match content (row_message r) with
                    | Some _ => true | None => false end) df.

Definition column_call_duration (df : list RawRow) : bool :=
  existsb (fun r => match call_duration (row_message r) with
                    | Some _ => true | None => false end) df.

(** [df[df[purge_columns].isna().all(axis=1)]] *)
Definition all_purge_columns_nan (r : RawRow) : bool :=
  match other_fields (row_message r) with
  | [] => true
  | _ :: _ => false
  end.

(** [df.dropna(subset=["Message"])], giving each surviving row its
    renamed and derived columns. *)
Definition dropna_Message (ext : External) (with_title : bool)
    (df : list RawRow) : list CanonRow :=
  flat_map (fun r =>
    let m := row_message r in
    match content m with
    | None => []
    | Some text =>
        [mkRow (sender_name m)
               (if with_title then row_title r else None)
               (timestamp_ms m)
               (local_date ext (timestamp_ms m))
               (local_time ext (timestamp_ms m))
               text (call_duration m) 0 0]
    end) df.

(** [df['Message'] = df['Message'].apply(unicode_emoji_converter)] *)
Definition convert_Message (r : CanonRow) : result CanonRow :=
  m <- unicode_emoji_converter (Message r) ;;
  ret (set_Message r m).

(** [df["Word Count"] = df["Message"].map(word_count)] *)
Definition add_Word_Count (ext : External) (r : CanonRow) : CanonRow :=
  set_Word_Count r (word_count (isalnum ext) (Message r)).

(** [df[df["Call Duration (Sec)"] != 0]]: NaN differs from 0. *)
Definition nonzero_call (r : CanonRow) : bool :=
  match Call_Duration r with
  | Some d => negb (d =? 0)
  | None => true
  end.

(** The mask [df["Call Duration (Sec)"] >= 0]: false on NaN. *)
Definition mask_call_duration (r : CanonRow) : bool :=
  match Call_Duration r with
  | Some d => 0 <=? d
  | None => false
  end.

(** The mask [df['Message'].str.contains('http')] *)
Definition mask_url (r : CanonRow) : bool := contains http (Message r).

(** [df.loc[mask, "Word Count"] = 0] *)
Definition zero_Word_Count (mask : CanonRow -> bool) (r : CanonRow) : CanonRow :=
  if mask r then set_Word_Count r 0 else r.

(** [df['Emoji Count'] = df['Message'].apply(emoji.emoji_count)] *)
Definition add_Emoji_Count (ext : External) (r : CanonRow) : CanonRow :=
  set_Emoji_Count r (emoji_count (EMOJI_DATA ext) (Message r)).

Definition name_eqb (a b : option str) : bool :=
  match a, b with
  | Some x, Some y => str_eqb x y
  | None, None => true
  | _, _ => false
  end.

(** The index name of a concatenation: the common name of the parts, if
    they agree. *)
Definition unanimous_name (names : list (option str)) : option str :=
  match names with
  | [] => None
  | n :: rest => if forallb (name_eqb n) rest then n else None
  end.

(** ** [single_folder.py]: one conversation *)

Module single_folder.

(** [chat_db(json_file)]. A file without messages gives a frame without
    columns, and [chat_logs['timestamp_ms']] raises. The title of the
    file becomes the name of the index; no column is added. *)
Definition chat_db (json_file : ExportFile) : result RawFrame :=
  let chat_name := title json_file in
  match messages json_file with
  | [] => raise (KeyError ["timestamp_ms"%string])
  | chat_logs =>
      (* chat_logs.index.name = chat_name *)
      ret (mkRawFrame (Some chat_name) (map (mkRawRow None) chat_logs))
  end.

(** [pd.concat(dfs)] of frames with a named index: the rows one frame
    after the other, and the name the indexes agree on, if any. *)
Definition concat_named (dfs : list RawFrame) : result RawFrame :=
  body <- concat_frames (map raw_body dfs) ;;
  ret (mkRawFrame (unanimous_name (map raw_name dfs)) body).

(** [all_messages(directory)]; [directory] is the list of the files
    that [glob] finds. *)
Definition all_messages (directory : list ExportFile) : result RawFrame :=
  dfs <- apply_rows chat_db directory ;;
  concat_named dfs.

Definition by_timestamp (a b : CanonRow) : bool := Timestamp a <=? Timestamp b.

Definition clean_messages (ext : External) (directory : list ExportFile)
  : result DataFrame :=
  cleaned_df <- all_messages directory ;;
  (* chat_name = cleaned_df.index.name *)
  let chat_name := raw_name cleaned_df in
  let cleaned_df := raw_body cleaned_df in
  let has_content := column_content cleaned_df in
  let has_call_duration := column_call_duration cleaned_df in
  let cleaned_df := filter all_purge_columns_nan cleaned_df in
  (* cleaned_df[column_order] *)
  if negb has_content then raise (KeyError ["Message"%string]) else
  let cleaned_df := dropna_Message ext false cleaned_df in
  let cleaned_df := sort_values by_timestamp cleaned_df in
  cleaned_df <- apply_rows convert_Message cleaned_df ;;
  let cleaned_df := map (add_Word_Count ext) cleaned_df in
  let cleaned_df :=
    if has_call_duration
    then map (zero_Word_Count mask_call_duration)
             (filter nonzero_call cleaned_df)
    else cleaned_df in
  let cleaned_df := map (zero_Word_Count mask_url) cleaned_df in
  let cleaned_df := map (add_Emoji_Count ext) cleaned_df in
  ret (mkFrame chat_name false has_call_duration cleaned_df).

End single_folder.

(** ** [all_folders.py]: every conversation under a root *)

(** An entry of the root directory: a stray file, or a folder with the
    [*.json] files in it. *)
Inductive DirEntry : Type :=
| StrayFile
| Folder (files : list ExportFile).

Module all_folders.

(** [chat_db(json_file)] of this module adds the title of the file as
    the column [Title]. *)
Definition chat_db (json_file : ExportFile) : result (list RawRow) :=
  let chat_name := title json_file in
  match messages json_file with
  | [] => raise (KeyError ["timestamp_ms"%string])
  | chat_logs =>
      (* chat_logs["Title"] = chat_name *)
      ret (map (mkRawRow (Some chat_name)) chat_logs)
  end.

Definition all_messages (directory : list ExportFile) : result (list RawRow) :=
  dfs <- apply_rows chat_db directory ;;
  concat_frames dfs.

(** The folders that pass [os.path.isdir]. *)
Definition subdirectories (directory : list DirEntry) : list (list ExportFile) :=
  flat_map (fun e => match e with
                     | Folder files => [files]
                     | StrayFile => []
                     end) directory.

Definition all_folder (directory : list DirEntry) : result (list RawRow) :=
  df_list <- apply_rows all_messages (subdirectories directory) ;;
  concat_frames df_list.

(** The order of [sort_values(by=["Date", "Time"])]. *)
Definition by_date_time (a b : CanonRow) : bool :=
  (Date a <? Date b) || ((Date a =? Date b) && (Time a <=? Time b)).

Definition missing_columns (has_content has_call_duration : bool) : list string :=
  (if has_content then [] else ["Message"%string])
  ++ (if has_call_duration then [] else ["Call Duration (Sec)"%string]).

Definition clean_messages (ext : External) (directory : list DirEntry)
  : result DataFrame :=
  cleaned_df <- all_folder directory ;;
  let has_content := column_content cleaned_df in
  let has_call_duration := column_call_duration cleaned_df in
  let cleaned_df := filter all_purge_columns_nan cleaned_df in
  (* cleaned_df[column_order] *)
  match missing_columns has_content has_call_duration with
  | (_ :: _) as missing => raise (KeyError missing)
  | [] =>
      let cleaned_df := dropna_Message ext true cleaned_df in
      let cleaned_df := sort_values by_date_time cleaned_df in
      cleaned_df <- apply_rows convert_Message cleaned_df ;;
      let cleaned_df := map (add_Word_Count ext) cleaned_df in
      let cleaned_df := filter nonzero_call cleaned_df in
      let cleaned_df := map (zero_Word_Count mask_call_duration) cleaned_df in
      let cleaned_df := map (zero_Word_Count mask_url) cleaned_df in
      let cleaned_df := map (add_Emoji_Count ext) cleaned_df in
      ret (mkFrame None true true cleaned_df)
  end.

End all_folders.

(** ** A concrete environment *)

(** ['America/Toronto'] around the end of daylight time in 2023: UTC-4
    until 2023-11-05 06:00 UTC (02:00 local), UTC-5 from then on. It is
    the zone's offset for every instant of 2023 after 12 March. *)
Definition fall_back_2023 : Z := 1699164000000.

Definition toronto_2023 (t : Z) : Z :=
  if t <? fall_back_2023 then -4 * 3600000 else -5 * 3600000.

Definition ext0 : External := mkExternal toronto_2023 ascii_isalnum emoji_excerpt.

Definition text_message (who : str) (t : Z) (text : str) : RawMessage :=
  mkRaw who t (Some text) None [].

Definition alice : str := py "Alice".
Definition bob : str := py "Bob".

(** ** Aggregations of [chat_features.py] *)

(** Python's order on [str]: by code point, a proper prefix first. *)
Fixpoint str_ltb (a b : str) : bool :=
  match a, b with
  | _, [] => false
  | [], _ :: _ => true
  | x :: a', y :: b' => (x <? y) || ((x =? y) && str_ltb a' b')
  end.

(** The group keys of [df.groupby("Sender")]: each sender once, sorted. *)
Fixpoint insert_key (k : str) (keys : list str) : list str :=
  match keys with
  | [] => [k]
  | k' :: rest =>
      if str_eqb k k' then keys
      else if str_ltb k k' then k :: keys
      else k' :: insert_key k rest
  end.

Definition group_keys (df : list CanonRow) : list str :=
  fold_right insert_key [] (map Sender df).

Definition group (k : str) (df : list CanonRow) : list CanonRow :=
  filter (fun r => str_eqb (Sender r) k) df.

Definition sumZ (l : list Z) : Z := fold_right Z.add 0 l.

(** A pandas [sum] over cells: NaN is skipped. *)
Definition nansum (l : list (option Z)) : Z :=
  sumZ (map (fun c => match c with Some v => v | None => 0 end) l).

(** [' '.join(words)] *)
Fixpoint join_space (words : list str) : str :=
  match words with
  | [] => []
  | [w] => w
  | w :: rest => w ++ 32 :: join_space rest
  end.

(** A row of the statistics frame: its index label, the columns
    [Message] (a count) and [Word Count] (a sum), and the column
    [Call Duration (Sec)], [None] where it is missing or NaN. *)
Record StatRow : Type := mkStat {
  stat_label : str;
  stat_Message : Z;
  stat_Word_Count : Z;
  stat_Call_Duration : option Z
}.

(** [df.groupby("Sender").agg({"Call Duration (Sec)": "sum"})] *)
Definition agg_call_sum (df : list CanonRow) : list (str * Z) :=
  map (fun k => (k, nansum (map Call_Duration (group k df)))) (group_keys df).

(** [df.groupby("Sender").agg({"Message": "count", "Word Count": "sum"})] *)
Definition agg_count_sum (df : list CanonRow) : list StatRow :=
  map (fun k =>
         mkStat k (Z.of_nat (length (group k df)))
                (sumZ (map Word_Count (group k df))) None)
      (group_keys df).

Definition lookup_label (k : str) (s : list (str * Z)) : option Z :=
  option_map snd (find (fun p => str_eqb (fst p) k) s).

(** [stats_df["Call Duration (Sec)"] = call_sum["Call Duration (Sec)"]]:
    the assignment aligns on the index of [stats_df]; a label that
    [call_sum] lacks gets NaN, a label that only [call_sum] has is
    left out. *)
Definition assign_call_sum (stats_df : list StatRow) (call_sum : list (str * Z))
  : list StatRow :=
  map (fun s => mkStat (stat_label s) (stat_Message s) (stat_Word_Count s)
                       (lookup_label (stat_label s) call_sum)) stats_df.

(** The mask [df['Call Duration (Sec)'] > 0]: false on NaN. *)
Definition positive_call (r : CanonRow) : bool :=
  match Call_Duration r with
  | Some d => 0 <? d
  | None => false
  end.

Definition Total : str := py "Total".

(** [stats_df.agg(["sum"])] renamed to [Total]. *)
Definition total_row (with_call : bool) (stats_df : list StatRow) : StatRow :=
  mkStat Total
         (sumZ (map stat_Message stats_df))
         (sumZ (map stat_Word_Count stats_df))
         (if with_call then Some (nansum (map stat_Call_Duration stats_df))
          else None).

Section Aggregator.

Variable ext : External.

(** The frame [stats_df] of [message_stats] before the total row is
    concatenated to it. *)
Definition sender_stats (df_m_s : DataFrame) : list StatRow :=
  let df := filter (fun r => negb (mask_url r)) (rows df_m_s) in
  let df := map (fun r => set_Message r
                   (join_space (prep_text (isalnum ext) (Message r) false))) df in
  if has_Call_Duration df_m_s then
    let call_sum := agg_call_sum df in
    let df := filter (fun r => negb (positive_call r)) df in
    let rest_agg := agg_count_sum df in
    assign_call_sum rest_agg call_sum
  else
    agg_count_sum df.

Definition message_stats (df_m_s : DataFrame) : result (list StatRow) :=
  let stats_df := sender_stats df_m_s in
  let total_row := total_row (has_Call_Duration df_m_s) stats_df in
  ret (stats_df ++ [total_row]).

End Aggregator.

(** [word.title()] on the ASCII range: a letter is upper-cased after a
    character that is not a letter and lower-cased after a letter. *)
Fixpoint title_from (after_letter : bool) (s : str) : str :=
  match s with
  | [] => []
  | c :: t =>
      if is_ascii_letter c
      then (if after_letter then lower c else upper c) :: title_from true t
      else c :: title_from false t
  end.

Definition title_case (word : str) : str := title_from false word.

Definition stop_words_lower : list string :=
  ["i"; "me"; "my"; "myself"; "we"; "our"; "ours"; "ourselves"; "you";
   "your"; "yours"; "yourself"; "yourselves"; "he"; "him"; "his";
   "himself"; "she"; "her"; "hers"; "herself"; "it"; "its"; "itself";
   "they"; "them"; "their"; "theirs"; "themselves"; "what"; "which";
   "who"; "whom"; "this"; "that"; "these"; "those"; "am"; "is"; "are";
   "was"; "were"; "be"; "been"; "being"; "have"; "has"; "had"; "having";
   "do"; "does"; "did"; "doing"; "a"; "an"; "the"; "and"; "but"; "if";
   "or"; "because"; "as"; "until"; "while"; "of"; "at"; "by"; "for";
   "with"; "about"; "against"; "between"; "into"; "through"; "during";
   "before"; "after"; "above"; "below"; "to"; "from"; "up"; "down"; "in";
   "out"; "on"; "off"; "over"; "under"; "again"; "further"; "then";
   "once"; "here"; "there"; "when"; "where"; "why"; "how"; "all"; "any";
   "both"; "each"; "few"; "more"; "most"; "other"; "some"; "such"; "no";
   "nor"; "not"; "only"; "own"; "same"; "so"; "than"; "too"; "very"; "s";
   "t"; "can"; "will"; "just"; "don"; "should"; "now"; "d"; "ll"; "m";
   "o"; "re"; "ve"; "y"; "ain"; "aren"; "couldn"; "didn"; "doesn"; "hadn";
   "hasn"; "haven"; "isn"; "ma"; "mightn"; "mustn"; "needn"; "shan";
   "shouldn"; "wasn"; "weren"; "won"; "wouldn"; "ur"; "u"; "r"; "c"; "k";
   "b"; "n"; "ppl"; "btw"; "cuz"; "bc"; "dm"; "kk"; "wat"; "ok"; "yeah";
   "im"; "like"]%string.

(** [[word.title() for word in stop_words]] *)
Definition stop_words : list str :=
  map (fun word => title_case (py word)) stop_words_lower.

(** A [collections.Counter]: keys in the order of their first update. *)
Definition Counter := list (str * Z).

Fixpoint counter_add (w : str) (c : Counter) : Counter :=
  match c with
  | [] => [(w, 1)]
  | (k, n) :: rest =>
      if str_eqb k w then (k, n + 1) :: rest else (k, n) :: counter_add w rest
  end.

(** [c.update(words)] *)
Definition counter_update (c : Counter) (words : list str) : Counter :=
  fold_left (fun c w => counter_add w c) words c.

(** [c.pop(key, None)] *)
Definition counter_pop (key : str) (c : Counter) : Counter :=
  filter (fun p => negb (str_eqb (fst p) key)) c.

(** [df["Sender"].unique()]: in order of first appearance. *)
Fixpoint unique (l : list str) : list str :=
  match l with
  | [] => []
  | x :: rest => x :: filter (fun y => negb (str_eqb x y)) (unique rest)
  end.

(** A row of a ranking: a word or an emoji, its sender, its count. *)
Record TopRow : Type := mkTop {
  top_item : str;
  top_Sender : str;
  top_Count : Z
}.

(** The counters a loop over the frame fills, one per sender. [tokens]
    holds, row by row, the sender and the list in the [Message] cell. *)
Definition count_per_sender (tokens : list (str * list str)) : list (str * Counter) :=
  map (fun s =>
         (s, fold_left
               (fun c row => if str_eqb (fst row) s
                             then counter_update c (snd row) else c)
               tokens []))
      (unique (map fst tokens)).

(** [pd.DataFrame(counters).reset_index()], [pd.melt], [dropna] on the
    count and [sort_values(by="Count", ascending=False)]: one row per
    sender and key of that sender's counter, highest count first. pandas
    does not promise an order among equal counts; here they stay in
    sender order and then key order. *)
Definition melt_sorted (counters : list (str * Counter)) : list TopRow :=
  let melted :=
    flat_map (fun sc => map (fun kn => mkTop (fst kn) (fst sc) (snd kn)) (snd sc))
             counters in
  sort_values (fun a b => top_Count b <=? top_Count a) melted.

Section Rankings.

Variable ext : External.

Definition top_words (df_t_w : DataFrame) : result (list TopRow) :=
  let df := filter (fun r => negb (mask_url r)) (rows df_t_w) in
  (* df_t_w['Call Duration (Sec)'] *)
  if negb (has_Call_Duration df_t_w)
  then raise (KeyError ["Call Duration (Sec)"%string]) else
  let df := filter (fun r => negb (positive_call r)) df in
  let tokens :=
    map (fun r => (Sender r,
                   prep_text (isalnum ext)
                             (words_without_punctuation (Message r)) true)) df in
  let most_words := count_per_sender tokens in
  let most_words :=
    map (fun sc => (fst sc, fold_left (fun v stop => counter_pop stop v)
                                      stop_words (snd sc))) most_words in
  ret (melt_sorted most_words).

Definition top_emojis (df_t_e : DataFrame) : result (list TopRow) :=
  let df := filter (fun r => 0 <? Emoji_Count r) (rows df_t_e) in
  let tokens :=
    map (fun r => (Sender r, keep_only_emojis (EMOJI_DATA ext) (Message r))) df in
  let most_emojis := count_per_sender tokens in
  ret (melt_sorted most_emojis).

End Rankings.

(** ** Stages of the pipelines, orders on rows and sample inputs *)

(** The order of the alternatives of the emoji pattern. *)
Definition longer_first (a b : str) : Prop := (length b <= length a)%nat.

(** Two rows that differ at most in [Message], [Word Count] and
    [Emoji Count]. *)
Definition same_keys (a b : CanonRow) : Prop :=
  Sender a = Sender b /\ Title a = Title b /\ Timestamp a = Timestamp b /\
  Date a = Date b /\ Time a = Time b /\ Call_Duration a = Call_Duration b.

(** The steps after the repair of [Message], in single-conversation
    mode. *)
Definition finish_single (ext : External) (has_call_duration : bool)
    (repaired : list CanonRow) : list CanonRow :=
  let counted := map (add_Word_Count ext) repaired in
  map (add_Emoji_Count ext)
    (map (zero_Word_Count mask_url)
       (if has_call_duration
        then map (zero_Word_Count mask_call_duration) (filter nonzero_call counted)
        else counted)).

(** The same steps in multi-conversation mode. *)
Definition finish_all (ext : External) (repaired : list CanonRow) : list CanonRow :=
  map (add_Emoji_Count ext)
    (map (zero_Word_Count mask_url)
       (map (zero_Word_Count mask_call_duration)
          (filter nonzero_call (map (add_Word_Count ext) repaired)))).

Definition sorted_single (ext : External) (df : list RawRow) : list CanonRow :=
  sort_values single_folder.by_timestamp
    (dropna_Message ext false (filter all_purge_columns_nan df)).

Definition sorted_all (ext : External) (df : list RawRow) : list CanonRow :=
  sort_values all_folders.by_date_time
    (dropna_Message ext true (filter all_purge_columns_nan df)).

(** Case analysis on the masks of the zeroing steps. *)
Ltac case_masks :=
  unfold same_keys, zero_Word_Count;
  repeat match goal with
         | |- context [if ?b then _ else _] => destruct b
         end;
  simpl; repeat split.

Definition url_message : str := py "check http://x.com now".

Definition call_T : Z := 1700000000000.

Definition call_dir : list ExportFile :=
  [mkFile (py "Chat")
     [mkRaw alice call_T (Some (py "You called Bob.")) (Some 60) [];
      text_message bob (call_T + 5000) url_message]].

Definition call_frame : DataFrame :=
  Eval vm_compute in
    match single_folder.clean_messages ext0 call_dir with
    | inr out => out
    | inl _ => mkFrame None false false []
    end.

(** [(Date a, Time a) <= (Date b, Time b)] *)
Definition date_time_le (a b : CanonRow) : Prop :=
  Date a < Date b \/ (Date a = Date b /\ Time a <= Time b).

Definition timestamp_le (a b : CanonRow) : Prop := Timestamp a <= Timestamp b.

(** Local time that never steps back as the instant advances. *)
Definition local_time_monotone (ext : External) : Prop :=
  forall s t, s <= t -> s + tz_offset ext s <= t + tz_offset ext t.

(** Local time that never steps back over the rows of a frame. *)
Definition local_time_monotone_on (ext : External) (df : DataFrame) : Prop :=
  forall r s, In r (rows df) -> In s (rows df) ->
    Timestamp r <= Timestamp s ->
    Timestamp r + tz_offset ext (Timestamp r)
    <= Timestamp s + tz_offset ext (Timestamp s).

(** Two messages either side of the end of daylight time in 2023: 01:30
    EDT (05:30 UTC) and, forty minutes later, 01:10 EST (06:10 UTC). *)
Definition fall_back_dir : list ExportFile :=
  [mkFile (py "Chat")
     [text_message alice 1699162200000 (py "before");
      text_message bob 1699164600000 (py "after")]].

Definition fall_back_frame : DataFrame :=
  Eval vm_compute in
    match single_folder.clean_messages ext0 fall_back_dir with
    | inr out => out
    | inl _ => mkFrame None false false []
    end.

Definition two_chats : list DirEntry :=
  [Folder call_dir;
   StrayFile;
   Folder [mkFile (py "Other")
             [mkRaw bob (call_T - 7000) (Some (py "see you")) None []]]].

Definition two_chats_frame : DataFrame :=
  Eval vm_compute in
    match all_folders.clean_messages ext0 two_chats with
    | inr out => out
    | inl _ => mkFrame None false false []
    end.

(** The zone on standard time throughout. *)
Definition ext_standard : External :=
  mkExternal (fun _ => -5 * 3600000) ascii_isalnum emoji_excerpt.

Definition call_frame_standard : DataFrame :=
  Eval vm_compute in
    match single_folder.clean_messages ext_standard call_dir with
    | inr out => out
    | inl _ => mkFrame None false false []
    end.

(** A text typed with a Latin-1 e-acute that was never mangled: its byte
    is not valid UTF-8. *)
Definition cafe : str := py "caf" ++ [233].

Definition bad_file : ExportFile :=
  mkFile (py "Chat")
    [text_message alice call_T (py "ok");
     text_message bob (call_T + 1000) cafe;
     mkRaw alice (call_T + 2000) (Some (py "You called Bob.")) (Some 60) []].

Definition bad_dir : list ExportFile := [bad_file].

(** A conversation that holds a photo with a caption and a call without
    text: every row is filtered out. *)
Definition media_only : list ExportFile :=
  [mkFile (py "Chat")
     [mkRaw alice call_T (Some (py "look")) None ["photos"%string];
      mkRaw bob (call_T + 1000) None (Some 5) []]].

(** Two files with different titles in one folder. *)
Definition mixed_dir : list ExportFile :=
  [mkFile (py "Chat") [text_message alice call_T (py "hi there")];
   mkFile (py "Other") [text_message bob (call_T + 1000) (py "hello")]].

(** A conversation whose only record is a missed call, a call of
    duration 0 with its text: the zero-duration drop leaves nothing. *)
Definition missed_call_dir : list ExportFile :=
  [mkFile (py "Chat")
     [mkRaw alice call_T (Some (py "You missed a call.")) (Some 0) []]].

Definition media_only_raw : list RawRow :=
  Eval vm_compute in
    match single_folder.all_messages media_only with
    | inr df => raw_body df
    | inl _ => []
    end.

(** What every emoji table satisfies: no key is empty and none begins
    with an ASCII letter or with a space. *)
Definition starts_outside_text (e : str) : Prop :=
  match e with
  | [] => False
  | c :: _ => is_ascii_letter c = false /\ c <> 32
  end.

Definition plain (c : Z) : Prop := is_ascii_letter c = true \/ c = 32.

(** The two records of the scenario: a text message of Alice at [t] and
    a call record without text one second later. *)
Definition hello_dir (chat : str) (t : Z) (text : str) : list ExportFile :=
  [mkFile chat
     [mkRaw alice t (Some text) None [];
      mkRaw alice (t + 1000) None (Some 5) []]].

Definition hello_row (ext : External) (chat : option str) (t : Z) : CanonRow :=
  mkRow alice chat t (local_date ext t) (local_time ext t)
        hello_emoji_world None 2 1.

(** A conversation without call records. *)
Definition no_call_records (directory : list ExportFile) : Prop :=
  forall f m, In f directory -> In m (messages f) -> call_duration m = None.

Definition no_call_dir : list ExportFile :=
  [mkFile (py "Chat")
     [text_message alice call_T (py "hi there");
      text_message bob (call_T + 1000) (py "hello")]].

Definition no_call_frame : DataFrame :=
  Eval vm_compute in
    match single_folder.clean_messages ext0 no_call_dir with
    | inr out => out
    | inl _ => mkFrame None false true []
    end.

Definition str_lt (a b : str) : Prop := str_ltb a b = true.

(** The rows [message_stats] works on: no URL, [Message] rebuilt from its
    words. *)
Definition stats_rows (ext : External) (df : DataFrame) : list CanonRow :=
  map (fun r => set_Message r
                  (join_space (prep_text (isalnum ext) (Message r) false)))
      (filter (fun r => negb (mask_url r)) (rows df)).

(** A frame whose call durations sit in a column it has. *)
Definition well_formed (df : DataFrame) : Prop :=
  forall r d, In r (rows df) -> Call_Duration r = Some d ->
              has_Call_Duration df = true.

(** A row that [message_stats] counts as a message: no URL in it and,
    where the frame has the column, no positive call duration. *)
Definition counted_as_message (df : DataFrame) (r : CanonRow) : bool :=
  negb (mask_url r) && negb (has_Call_Duration df && positive_call r).

(** Alice writes, Bob only calls. *)
Definition only_calls_dir : list ExportFile :=
  [mkFile (py "Chat")
     [text_message alice call_T (py "hi there");
      mkRaw bob (call_T + 1000) (Some (py "You called Alice.")) (Some 60) []]].

Definition only_calls_frame : DataFrame :=
  Eval vm_compute in
    match single_folder.clean_messages ext0 only_calls_dir with
    | inr out => out
    | inl _ => mkFrame None false false []
    end.

(** ** Further definitions: text *)

(** A Unicode scalar value: a code point that is not a surrogate. *)
Definition is_scalar (c : Z) : Prop :=
  (0 <= c < 55296) \/ (57344 <= c <= 1114111).

Definition is_latin1 (c : Z) : Prop := 0 <= c <= 255.

Definition is_ascii (c : Z) : Prop := 0 <= c < 128.

(** Linear arithmetic with division and remainder by constants. *)
Ltac arith := Z.div_mod_to_equations; lia.

(** The well-formed sequence at the head of a byte string. *)
Inductive utf8_head : list Z -> list Z -> Prop :=
| head_1 b0 t : b0 < 128 -> utf8_head (b0 :: t) t
| head_2 b0 b1 t :
    194 <= b0 < 224 -> 128 <= b1 < 192 -> utf8_head (b0 :: b1 :: t) t
| head_3 b0 b1 b2 t :
    224 <= b0 < 240 -> 128 <= b1 < 192 -> 128 <= b2 < 192 ->
    (b0 = 224 -> 160 <= b1) -> (b0 = 237 -> b1 <= 159) ->
    utf8_head (b0 :: b1 :: b2 :: t) t
| head_4 b0 b1 b2 b3 t :
    240 <= b0 < 245 -> 128 <= b1 < 192 -> 128 <= b2 < 192 -> 128 <= b3 < 192 ->
    (b0 = 240 -> 144 <= b1) -> (b0 = 244 -> b1 <= 143) ->
    utf8_head (b0 :: b1 :: b2 :: b3 :: t) t.

(** Case analysis on the comparisons in [H]. *)
Ltac split_tests H :=
  repeat match type of H with
         | context [Z.ltb ?a ?b] => destruct (Z.ltb_spec a b)
         | context [Z.leb ?a ?b] => destruct (Z.leb_spec a b)
         | context [Z.eqb ?a ?b] => destruct (Z.eqb_spec a b)
         end; cbn [andb] in H; try discriminate H.

(** ** Further definitions: loading *)

(** The messages of the files of one conversation, file after file, each
    with the title of its file: the rows as multi-conversation mode loads
    them. *)
Definition raw_rows (files : list ExportFile) : list RawRow :=
  flat_map (fun f => map (mkRawRow (Some (title f))) (messages f)) files.

(** A row without its cell in [Title]. *)
Definition untitled (r : RawRow) : RawRow := mkRawRow None (row_message r).

(** The frame of one conversation as single-conversation mode loads it:
    the same rows without the column [Title], under the title the files
    agree on, if they do. *)
Definition single_frame (files : list ExportFile) : RawFrame :=
  mkRawFrame (unanimous_name (map (fun f => Some (title f)) files))
             (map untitled (raw_rows files)).

(** A conversation folder that can be loaded: it has a file, and every
    file of it has a message. *)
Definition loadable (files : list ExportFile) : Prop :=
  files <> [] /\ Forall (fun f => messages f <> []) files.

(** ** Further definitions: the cleaned rows *)

(** A raw row that the cleaning keeps: no other field, a content, and a
    call duration that is not 0. *)
Definition eligible (r : RawRow) : bool :=
  all_purge_columns_nan r
  && match content (row_message r) with Some _ => true | None => false end
  && match call_duration (row_message r) with
     | Some d => negb (d =? 0)
     | None => true
     end.

(** What the steps after the repair make of one repaired row. *)
Definition final_row (ext : External) (has_call : bool) (r : CanonRow) : CanonRow :=
  add_Emoji_Count ext
    (zero_Word_Count mask_url
       (if has_call
        then zero_Word_Count mask_call_duration (add_Word_Count ext r)
        else add_Word_Count ext r)).

(** The row that [dropna], the derivation of [Date] and [Time] and the
    repair make of a raw row whose repaired text is [text]. *)
Definition repaired_row (ext : External) (with_title : bool) (raw : RawRow)
    (text : str) : CanonRow :=
  let m := row_message raw in
  mkRow (sender_name m) (if with_title then row_title raw else None)
        (timestamp_ms m) (local_date ext (timestamp_ms m))
        (local_time ext (timestamp_ms m)) text (call_duration m) 0 0.

(** The fields of a cleaned row that are derived from the others. *)
Definition derived_fields (ext : External) (row : CanonRow) : Prop :=
  Word_Count row
  = (if mask_call_duration row || mask_url row then 0
     else word_count (isalnum ext) (Message row)) /\
  Date row * ms_per_day + Time row
  = Timestamp row + tz_offset ext (Timestamp row) /\
  0 <= Time row < ms_per_day /\
  Call_Duration row <> Some 0.

(** A cleaned row [row] stands for the raw row [raw]. *)
Definition stands_for (with_title : bool) (row : CanonRow) (raw : RawRow) : Prop :=
  Sender row = sender_name (row_message raw) /\
  Timestamp row = timestamp_ms (row_message raw) /\
  Call_Duration row = call_duration (row_message raw) /\
  Title row = (if with_title then row_title raw else None) /\
  exists text, content (row_message raw) = Some text /\
               unicode_emoji_converter text = inr (Message row).

(** ** Further definitions: rankings *)

(** The count a counter holds for a key, 0 for a key it lacks. *)
Definition count_of (c : Counter) (w : str) : Z :=
  match find (fun p => str_eqb (fst p) w) c with
  | Some p => snd p
  | None => 0
  end.

(** How often [w] occurs in a list of tokens. *)
Definition occurrences (w : str) (tokens : list str) : Z :=
  Z.of_nat (count_occ (list_eq_dec Z.eq_dec) tokens w).

(** A counter as [Counter.update] leaves it: each key once, each count
    positive. *)
Definition counter_ok (c : Counter) : Prop :=
  NoDup (map fst c) /\ Forall (fun p => 0 < snd p) c.

(** The tokens of the rows of one sender, row after row. *)
Definition tokens_of (s : str) (tokens : list (str * list str)) : list str :=
  flat_map (fun row => if str_eqb (fst row) s then snd row else []) tokens.

(** The order of a ranking: highest count first. *)
Definition count_ge (a b : TopRow) : Prop := top_Count b <= top_Count a.

(** The emoji tokens [top_emojis] counts, sender and tokens row by row. *)
Definition emoji_tokens (ext : External) (df : DataFrame) : list (str * list str) :=
  map (fun r => (Sender r, keep_only_emojis (EMOJI_DATA ext) (Message r)))
      (filter (fun r => 0 <? Emoji_Count r) (rows df)).

(** The word tokens [top_words] counts. *)
Definition word_tokens (ext : External) (df : DataFrame) : list (str * list str) :=
  map (fun r => (Sender r,
                 prep_text (isalnum ext) (words_without_punctuation (Message r)) true))
      (filter (fun r => negb (positive_call r))
              (filter (fun r => negb (mask_url r)) (rows df))).

(** A frame whose messages hold punctuation, a stop word and a call. *)
Definition words_frame : DataFrame :=
  mkFrame None false true
    [mkRow alice None 1 0 1 (py "Don't stop, the_music now!") None 4 0;
     mkRow bob None 2 0 2 (py "music? MUSIC.") None 2 0;
     mkRow bob None 3 0 3 (py "You called Alice.") (Some 60) 0 0].

(** A frame with one message that holds an emoji. *)
Definition emoji_frame : DataFrame :=
  mkFrame None false false [hello_row ext0 None 1700000000000].

(** [l[:n]] for a Python slice bound [n]: the first [n] items, or all
    but the last [-n] when [n] is negative. *)
Definition slice_to {A} (n : Z) (l : list A) : list A :=
  if 0 <=? n then firstn (Z.to_nat n) l
  else firstn (length l - Z.to_nat (- n)) l.

(** The loop of [plot_top] over the senders of a ranking:
    [df_top[df_top['Sender'] == name].iloc[:top_num]] for each name of
    [df_top['Sender'].unique()]. *)
Definition top_slices (top_num : Z) (df_top : list TopRow) : list (list TopRow) :=
  map (fun name =>
         slice_to top_num (filter (fun r => str_eqb (top_Sender r) name) df_top))
      (unique (map top_Sender df_top)).

Section PlotTop.

Variable ext : External.

(** [plot_top(df_top, top_type, top_num)]; it returns its frame, the
    name notwithstanding. *)
Definition plot_top (df_top : DataFrame) (top_type : string) (top_num : Z)
  : result (list TopRow) :=
  holder <-
    (if String.eqb top_type "emojis" then
       ranked <- top_emojis ext df_top ;;
       ret (top_slices top_num ranked)
     else if String.eqb top_type "words" then
       ranked <- top_words ext df_top ;;
       ret (top_slices top_num ranked)
     else ret []) ;;
  result_df <- concat_frames holder ;;
  ret (sort_values (fun a b => top_Count b <=? top_Count a) result_df).

End PlotTop.

Definition words_top1 : list TopRow :=
  Eval vm_compute in
    match plot_top ext0 words_frame "words" 1 with
    | inr out => out
    | inl _ => []
    end.

(** ** Further definitions: statistics *)

(** The rows of sender [s] that satisfy [p]. *)
Definition rows_of (df : DataFrame) (p : CanonRow -> bool) (s : str) : list CanonRow :=
  filter (fun r => p r && str_eqb (Sender r) s) (rows df).




(** ** Further definitions: the charts of [chat_features.py] *)

(** What [plot_message_distribution] draws: the message count of each
    sender, in the order of the group keys, and [total_messages], after
    the rows with a positive call duration are left out. The drawing
    itself is not modelled. *)
Definition plot_message_distribution (df_m_d : DataFrame)
  : result (list (str * Z) * Z) :=
  (* df_m_d['Call Duration (Sec)'] *)
  if negb (has_Call_Duration df_m_d)
  then raise (KeyError ["Call Duration (Sec)"%string]) else
  let df := filter (fun r => negb (positive_call r)) (rows df_m_d) in
  let message_count :=
    map (fun k => (k, Z.of_nat (length (group k df)))) (group_keys df) in
  let sizes := map snd message_count in
  let total_messages := sumZ sizes in
  ret (message_count, total_messages).

(** [x.strftime('%A')] of a date, as the place of the day name in
    [desired_order] (Monday is 0): day 0 of the epoch was a Thursday. *)
Definition weekday (r : CanonRow) : Z := (Date r + 3) mod 7.

(** [x.strftime('%H')] of a time of day, as a number. *)
Definition hour (r : CanonRow) : Z := Time r / 3600000.

(** The keys of [groupby(["Day", "Hour"])], each once. *)
Fixpoint distinct_pairs (l : list (Z * Z)) : list (Z * Z) :=
  match l with
  | [] => []
  | p :: rest =>
      p :: filter (fun q => negb ((fst p =? fst q) && (snd p =? snd q)))
             (distinct_pairs rest)
  end.

(** The hours of the pivot table's columns, ascending and each once. *)
Fixpoint insert_hour (h : Z) (hours : list Z) : list Z :=
  match hours with
  | [] => [h]
  | h' :: rest =>
      if h =? h' then hours
      else if h <? h' then h :: hours
      else h' :: insert_hour h rest
  end.

Definition desired_order : list Z := [0; 1; 2; 3; 4; 5; 6].

(** The table [total_message_frequency] gives to the heat map: its
    columns (the hours that occur) and, for Monday to Sunday, the row of
    counts of that day, or [None] for the row of NaN that [reindex] makes
    for a day without messages. The drawing itself is not modelled. *)
Definition total_message_frequency (df_t_m_f : DataFrame)
  : result (list Z * list (option (list Z))) :=
  if negb (has_Call_Duration df_t_m_f)
  then raise (KeyError ["Call Duration (Sec)"%string]) else
  let df := filter (fun r => negb (positive_call r)) (rows df_t_m_f) in
  (* groupby(["Day", "Hour"])["Message"].count() *)
  let message_count_df :=
    map (fun k => (k, Z.of_nat (length
                                  (filter (fun r => (weekday r =? fst k)
                                                    && (hour r =? snd k)) df))))
        (distinct_pairs (map (fun r => (weekday r, hour r)) df)) in
  (* pivot_table(values='Count', index='Day', columns='Hour', fill_value=0) *)
  let columns := fold_right insert_hour [] (map (fun kc => snd (fst kc)) message_count_df) in
  let cell (d h : Z) :=
    match find (fun kc => (fst (fst kc) =? d) && (snd (fst kc) =? h)) message_count_df with
    | Some kc => snd kc
    | None => 0
    end in
  (* reindex(desired_order) *)
  let pivot_table :=
    map (fun d =>
           if existsb (fun kc => fst (fst kc) =? d) message_count_df
           then Some (map (cell d) columns)
           else None)
        desired_order in
  ret (columns, pivot_table).

(** The number of rows of a frame without positive call duration that
    fall on weekday [d] and in hour [h]. *)
Definition messages_at (df : DataFrame) (d h : Z) : Z :=
  Z.of_nat (length (filter (fun r => negb (positive_call r)
                                     && ((weekday r =? d) && (hour r =? h)))
                           (rows df))).

(** The sum of the counts of a heat-map table. *)
Definition table_total (table : list (option (list Z))) : Z :=
  sumZ (map (fun row => match row with Some cells => sumZ cells | None => 0 end)
            table).

(** ** Further definitions: [rename_folders] of [chat_analysis.py] *)

(** [re.split("\_", item)]: the parts of [item] between its underscores. *)
Fixpoint split_underscore (item : str) : list str :=
  match item with
  | [] => [[]]
  | c :: rest =>
      if c =? 95 then [] :: split_underscore rest
      else match split_underscore rest with
           | part :: parts => (c :: part) :: parts
           | [] => [[c]]
           end
  end.

(** The loop of [rename_folders] over the listing of the directory: the
    calls [os.rename(item, new)] it makes, in order, as pairs
    [(item, new)]. The file system is not modelled: this is the sequence
    of calls as long as none of them raises. *)
Fixpoint rename_loop (previous_name : str) (all_items : list str)
  : list (str * str) :=
  match all_items with
  | [] => []
  | item :: rest =>
      match split_underscore item with
      | [base_name; _] =>
          if negb (str_eqb previous_name base_name)
          then (item, base_name) :: rename_loop base_name rest
          else
            let new_name := base_name ++ py "-" in
            (item, new_name) :: rename_loop new_name rest
      | _ => rename_loop previous_name rest
      end
  end.

Definition rename_folders (all_items : list str) : list (str * str) :=
  rename_loop [] all_items.

(** No two neighbours of a list are equal. *)
Fixpoint neighbours_differ (l : list str) : Prop :=
  match l with
  | a :: (b :: _) as rest => a <> b /\ neighbours_differ rest
  | _ => True
  end.

(** * Properties *)

(** ** Evaluations *)

Lemma str_eqb_eq (a b : str) : str_eqb a b = true <-> a = b.
Proof.
  unfold str_eqb. destruct (list_eq_dec Z.eq_dec a b); split; congruence.
Qed.

Lemma str_eqb_refl (a : str) : str_eqb a a = true.
Proof. now apply str_eqb_eq. Qed.

Example converter_repairs_hello :
  unicode_emoji_converter (mojibake hello_emoji_world) = inr hello_emoji_world.
Proof. vm_compute. reflexivity. Qed.

Example converter_rejects_emoji :
  unicode_emoji_converter hello_emoji_world = inl UnicodeEncodeError.
Proof. vm_compute. reflexivity. Qed.

Example converter_rejects_lone_e_acute :
  unicode_emoji_converter (py "caf" ++ [233]) = inl UnicodeDecodeError.
Proof. vm_compute. reflexivity. Qed.

Example family_is_one_token :
  keep_only_emojis emoji_excerpt (py "a" ++ family_mwg ++ py "b" ++ man)
  = [family_mwg; man].
Proof. vm_compute. reflexivity. Qed.

Example word_count_hello :
  word_count ascii_isalnum hello_emoji_world = 2.
Proof. vm_compute. reflexivity. Qed.

Example word_count_url :
  word_count ascii_isalnum (py "check http://x.com now") = 3.
Proof. vm_compute. reflexivity. Qed.

Example prep_text_cap :
  prep_text ascii_isalnum (py "don't STOP a'b'c  me") true
  = [py "Don't"; py "Stop"; py "A'b'C"; py "Me"].
Proof. vm_compute. reflexivity. Qed.

Example stop_words_titled :
  firstn 3 stop_words = [py "I"; py "Me"; py "My"].
Proof. vm_compute. reflexivity. Qed.

(** ** The result monad *)

Lemma bind_inr {A B} (m : result A) (k : A -> result B) (b : B) :
  bind m k = inr b -> exists a, m = inr a /\ k a = inr b.
Proof.
  destruct m as [e | a]; simpl; intros H; [discriminate | eauto].
Qed.

Lemma apply_rows_inr {A B} (f : A -> result B) (l : list A) (bs : list B) :
  apply_rows f l = inr bs -> Forall2 (fun a b => f a = inr b) l bs.
Proof.
  revert bs. induction l as [| a l IH]; simpl; intros bs H.
  - injection H as <-. constructor.
  - apply bind_inr in H as (b & Hb & H).
    apply bind_inr in H as (bs' & Hbs & H).
    injection H as <-. constructor; auto.
Qed.

Lemma apply_rows_raises {A B} (f : A -> result B) (l : list A) (a : A) :
  In a l -> raises (f a) -> raises (apply_rows f l).
Proof.
  intros Hin [e He]. induction l as [| x l IH]; simpl in *; [easy |].
  destruct (f x) as [e' | b] eqn:Hx; simpl; [now exists e' |].
  destruct Hin as [-> | Hin]; [congruence |].
  destruct (IH Hin) as [e' ->]. now exists e'.
Qed.

(** ** Emoji extraction *)

Lemma startswith_firstn (p text : str) :
  startswith p text = true <-> firstn (length p) text = p.
Proof.
  revert text. induction p as [| a p IH]; intros [| b t]; simpl;
    try (split; (reflexivity || discriminate)).
  rewrite andb_true_iff, Z.eqb_eq, IH. split.
  - intros [-> ->]. reflexivity.
  - intros H. injection H as -> H. auto.
Qed.

Lemma startswith_length (p text : str) :
  startswith p text = true -> (length p <= length text)%nat.
Proof.
  intros H. apply startswith_firstn in H.
  rewrite <- H at 1. rewrite length_firstn. lia.
Qed.

Lemma startswith_same_length (a b text : str) :
  startswith a text = true -> startswith b text = true ->
  length a = length b -> a = b.
Proof.
  intros Ha Hb Hl. apply startswith_firstn in Ha, Hb. congruence.
Qed.

Lemma startswith_refl (e : str) : startswith e e = true.
Proof. apply startswith_firstn, firstn_all. Qed.

Lemma insert_by_len_In (x y : str) (l : list str) :
  In y (insert_by_len x l) <-> y = x \/ In y l.
Proof.
  induction l as [| z l IH]; simpl.
  - intuition congruence.
  - destruct (length z <=? length x)%nat; simpl; rewrite ?IH; intuition congruence.
Qed.

Lemma sorted_by_len_desc_In (y : str) (l : list str) :
  In y (sorted_by_len_desc l) <-> In y l.
Proof.
  induction l as [| x l IH]; simpl; [tauto |].
  rewrite insert_by_len_In, IH. intuition congruence.
Qed.

Lemma insert_by_len_sorted (x : str) (l : list str) :
  StronglySorted longer_first l -> StronglySorted longer_first (insert_by_len x l).
Proof.
  induction 1 as [| z l Hs IH Hz]; simpl.
  - repeat constructor.
  - destruct (length z <=? length x)%nat eqn:E.
    + apply Nat.leb_le in E. constructor; [now constructor |].
      constructor; [exact E |].
      eapply Forall_impl; [| exact Hz]. unfold longer_first. intros; lia.
    + apply Nat.leb_gt in E. constructor; [exact IH |].
      apply Forall_forall. intros y Hy. apply insert_by_len_In in Hy as [-> | Hy].
      * unfold longer_first. lia.
      * rewrite Forall_forall in Hz. auto.
Qed.

Lemma sorted_by_len_desc_sorted (l : list str) :
  StronglySorted longer_first (sorted_by_len_desc l).
Proof.
  induction l; simpl; [constructor | now apply insert_by_len_sorted].
Qed.

(** The first alternative that matches is the longest one that does. *)
Lemma first_match_longest (E : list str) (text m : str) :
  first_match (get_emoji_regexp E) text = Some m ->
  In m E /\ startswith m text = true /\
  forall e, In e E -> startswith e text = true -> (length e <= length m)%nat.
Proof.
  unfold first_match, get_emoji_regexp. intros H.
  pose proof (find_some _ _ H) as [Hin Hm].
  split; [now apply sorted_by_len_desc_In | split; [exact Hm |]].
  intros e He Hs. apply sorted_by_len_desc_In in He.
  pose proof (sorted_by_len_desc_sorted E) as Hsorted.
  induction Hsorted as [| z l Hsl IH Hz]; simpl in *; [easy |].
  destruct (startswith z text) eqn:Ez.
  - injection H as <-. destruct He as [<- | He]; [lia |].
    rewrite Forall_forall in Hz. now apply Hz.
  - destruct He as [<- | He]; [congruence |].
    apply IH; auto. now apply find_some in H.
Qed.

Lemma first_match_none (E : list str) (text e : str) :
  first_match (get_emoji_regexp E) text = None ->
  In e E -> startswith e text = false.
Proof.
  unfold first_match, get_emoji_regexp. intros H He.
  apply sorted_by_len_desc_In in He. exact (find_none _ _ H e He).
Qed.

Lemma findall_from_skip (alts : list str) (k : nat) (text : str) :
  (k <= length text)%nat ->
  findall_from alts k text = findall_from alts 0 (skipn k text).
Proof.
  revert k. induction text as [| c t IH]; intros [| k] Hk; simpl in *;
    try reflexivity; try lia.
  apply IH. lia.
Qed.

Section MaximalMunch.

Variable E : list str.
Hypothesis E_nonempty : Forall (fun e => e <> []) E.

Lemma first_match_end : first_match (get_emoji_regexp E) [] = None.
Proof.
  destruct (first_match (get_emoji_regexp E) []) as [m |] eqn:H; [| reflexivity].
  apply first_match_longest in H as (Hin & Hs & _).
  rewrite Forall_forall in E_nonempty.
  destruct m; [now apply E_nonempty in Hin | discriminate].
Qed.

Lemma first_match_cons (text m : str) :
  first_match (get_emoji_regexp E) text = Some m ->
  exists k, length m = S k /\ (S k <= length text)%nat.
Proof.
  intros H. apply first_match_longest in H as (Hin & Hs & _).
  rewrite Forall_forall in E_nonempty. apply E_nonempty in Hin.
  apply startswith_length in Hs.
  destruct m as [| a m]; [congruence |]. simpl in *. eauto.
Qed.

Lemma findall_token (c : Z) (t m : str) :
  first_match (get_emoji_regexp E) (c :: t) = Some m ->
  findall (get_emoji_regexp E) (c :: t) = m :: findall (get_emoji_regexp E) (skipn (length m) (c :: t)).
Proof.
  intros H. unfold findall. simpl. rewrite H.
  apply first_match_cons in H as (k & Hk & Hle). rewrite Hk. simpl in *.
  rewrite findall_from_skip by lia. reflexivity.
Qed.

Lemma findall_skip (c : Z) (t : str) :
  first_match (get_emoji_regexp E) (c :: t) = None ->
  findall (get_emoji_regexp E) (c :: t) = findall (get_emoji_regexp E) t.
Proof. intros H. unfold findall. simpl. now rewrite H. Qed.

Lemma findall_munch_bounded (n : nat) (text : str) :
  (length text <= n)%nat -> maximal_munch E text (findall (get_emoji_regexp E) text).
Proof.
  revert text. induction n as [| n IH]; intros [| c t] Hn; simpl in Hn;
    try lia.
  - unfold findall. simpl. rewrite first_match_end. constructor.
  - unfold findall. simpl. rewrite first_match_end. constructor.
  - destruct (first_match (get_emoji_regexp E) (c :: t)) as [m |] eqn:H.
    + rewrite (findall_token _ _ _ H).
      pose proof (first_match_cons _ _ H) as (k & Hk & Hle).
      apply first_match_longest in H as (Hin & Hs & Hmax).
      apply munch_token; auto.
      apply IH. rewrite Hk. simpl. rewrite length_skipn. lia.
    + rewrite (findall_skip _ _ H). apply munch_skip.
      * intros e He. now apply (first_match_none E).
      * apply IH. lia.
Qed.

Lemma findall_munch (text : str) : maximal_munch E text (findall (get_emoji_regexp E) text).
Proof. now apply (findall_munch_bounded (length text)). Qed.

(** The specification has one solution: what the scan returns. *)
Lemma munch_unique (text : str) (r : list str) :
  maximal_munch E text r -> r = findall (get_emoji_regexp E) text.
Proof.
  induction 1 as [| c t r Hno _ IH | e text r Hin Hs Hmax _ IH].
  - unfold findall. simpl. now rewrite first_match_end.
  - rewrite findall_skip; [exact IH |].
    destruct (first_match (get_emoji_regexp E) (c :: t)) as [m |] eqn:H; [| reflexivity].
    apply first_match_longest in H as (Hm & Hsm & _).
    rewrite (Hno m Hm) in Hsm. discriminate.
  - destruct text as [| c t].
    { rewrite Forall_forall in E_nonempty. apply E_nonempty in Hin.
      destruct e; [congruence | discriminate]. }
    destruct (first_match (get_emoji_regexp E) (c :: t)) as [m |] eqn:H.
    + pose proof (first_match_longest _ _ _ H) as (Hm & Hsm & Hmmax).
      assert (m = e) as ->.
      { apply (startswith_same_length _ _ (c :: t)); auto.
        apply Nat.le_antisymm; auto. }
      rewrite (findall_token _ _ _ H). now f_equal.
    + rewrite (first_match_none E _ e H Hin) in Hs. discriminate.
Qed.

Lemma findall_single (e : str) : In e E -> findall (get_emoji_regexp E) e = [e].
Proof.
  intros Hin. apply eq_sym, munch_unique.
  apply munch_token; auto using startswith_refl.
  - intros e' _ Hs. now apply startswith_length.
  - rewrite skipn_all. constructor.
Qed.

End MaximalMunch.

(** C6. For every input string, [keep_only_emojis] is a maximal-munch
    scan: the alternatives of its pattern are the emoji of the table,
    longest first; left to right, at each position the longest emoji of
    the table that starts there becomes one token, a character where none
    starts is skipped, and the tokens come in order of appearance; so an
    emoji of several code points is one token and is not split into the
    shorter emoji it contains. (The table holds no empty string.) *)
Theorem C6_keep_only_emojis_maximal_munch (E : list str) :
  Forall (fun e => e <> []) E ->
  StronglySorted longer_first (get_emoji_regexp E) /\
  (forall e, In e (get_emoji_regexp E) <-> In e E) /\
  (forall text, maximal_munch E text (keep_only_emojis E text)) /\
  (forall text r, maximal_munch E text r -> r = keep_only_emojis E text) /\
  (forall e, In e E -> keep_only_emojis E e = [e]).
Proof.
  intros HE. unfold keep_only_emojis.
  split; [apply sorted_by_len_desc_sorted |].
  split; [intros e; apply sorted_by_len_desc_In |].
  split; [| split].
  - intros text. now apply findall_munch.
  - intros text r. now apply munch_unique.
  - intros e. now apply findall_single.
Qed.

Lemma emoji_excerpt_nonempty : Forall (fun e : str => e <> []) emoji_excerpt.
Proof. repeat constructor; discriminate. Qed.

Lemma C6_witness :
  maximal_munch emoji_excerpt (py "ok" ++ family_mwg ++ thumbs_up_medium)
                [family_mwg; thumbs_up_medium] /\
  keep_only_emojis emoji_excerpt family_mwg = [family_mwg].
Proof.
  destruct (C6_keep_only_emojis_maximal_munch emoji_excerpt
              emoji_excerpt_nonempty) as (_ & _ & Hmunch & _ & Hone).
  split.
  - exact (Hmunch (py "ok" ++ family_mwg ++ thumbs_up_medium)).
  - apply Hone. vm_compute. tauto.
Defined.

(** ** Sorting *)

Section SortValues.

Context {A : Type} (leb : A -> A -> bool).
Hypothesis leb_total : forall a b, leb a b = false -> leb b a = true.
Hypothesis leb_trans :
  forall a b c, leb a b = true -> leb b c = true -> leb a c = true.

Lemma insert_sorted_In (x y : A) (l : list A) :
  In y (insert_sorted leb x l) <-> y = x \/ In y l.
Proof.
  induction l as [| z l IH]; simpl.
  - intuition congruence.
  - destruct (leb x z); simpl; rewrite ?IH; intuition congruence.
Qed.

Lemma sort_values_In (y : A) (l : list A) :
  In y (sort_values leb l) <-> In y l.
Proof.
  induction l as [| x l IH]; simpl; [tauto |].
  rewrite insert_sorted_In, IH. intuition congruence.
Qed.

Lemma insert_sorted_sorted (x : A) (l : list A) :
  StronglySorted (fun a b => leb a b = true) l -> StronglySorted (fun a b => leb a b = true) (insert_sorted leb x l).
Proof.
  induction 1 as [| z l Hs IH Hz]; simpl.
  - repeat constructor.
  - destruct (leb x z) eqn:E.
    + constructor; [now constructor |]. constructor; [exact E |].
      eapply Forall_impl; [| exact Hz]. intros b Hb. exact (leb_trans _ _ _ E Hb).
    + constructor; [exact IH |]. apply Forall_forall. intros y Hy.
      apply insert_sorted_In in Hy as [-> | Hy].
      * now apply leb_total.
      * rewrite Forall_forall in Hz. now apply Hz.
Qed.

Lemma sort_values_sorted (l : list A) : StronglySorted (fun a b => leb a b = true) (sort_values leb l).
Proof.
  induction l; simpl; [constructor | now apply insert_sorted_sorted].
Qed.

End SortValues.

Section SortedTransport.

Context {A B : Type} (R : A -> A -> Prop) (R' : B -> B -> Prop)
        (Q : A -> B -> Prop).
Hypothesis transport :
  forall a b a' b', Q a a' -> Q b b' -> R a b -> R' a' b'.

(** Row-wise updates that respect the sort key keep a frame sorted. *)
Lemma StronglySorted_Forall2 (l : list A) (l' : list B) :
  Forall2 Q l l' -> StronglySorted R l -> StronglySorted R' l'.
Proof.
  induction 1 as [| a a' l l' Ha Hl IH]; intros Hs; [constructor |].
  inversion Hs as [| ? ? Hs' Hall]; subst. constructor; [auto |].
  clear IH Hs Hs'. induction Hl as [| b b' l l' Hb Hl IH]; [constructor |].
  inversion Hall; subst. constructor; eauto.
Qed.

End SortedTransport.

Lemma StronglySorted_map {A} (R : A -> A -> Prop) (f : A -> A) (l : list A) :
  (forall a b, R a b -> R (f a) (f b)) ->
  StronglySorted R l -> StronglySorted R (map f l).
Proof.
  intros Hf. apply (StronglySorted_Forall2 R R (fun a b => b = f a)).
  - intros a b ? ? -> ->. apply Hf.
  - induction l; simpl; constructor; auto.
Qed.

Lemma StronglySorted_impl {A} (R R' : A -> A -> Prop) (l : list A) :
  (forall a b, R a b -> R' a b) -> StronglySorted R l -> StronglySorted R' l.
Proof.
  intros HR. induction 1 as [| a l _ IH Ha]; constructor; [exact IH |].
  eapply Forall_impl; [| exact Ha]. intros b. apply HR.
Qed.

(** Dropping rows keeps a frame sorted. *)
Lemma StronglySorted_filter {A} (R : A -> A -> Prop) (p : A -> bool) (l : list A) :
  StronglySorted R l -> StronglySorted R (filter p l).
Proof.
  induction 1 as [| a l Hs IH Ha]; simpl; [constructor |].
  destruct (p a); [| exact IH]. constructor; [exact IH |].
  apply Forall_forall. intros b Hb. apply filter_In in Hb as [Hb _].
  rewrite Forall_forall in Ha. now apply Ha.
Qed.

(** A sorted frame, read as the property of its adjacent rows. *)
Lemma StronglySorted_adjacent {A} (R : A -> A -> Prop) (l : list A) :
  StronglySorted R l ->
  forall i a b, nth_error l i = Some a -> nth_error l (S i) = Some b -> R a b.
Proof.
  induction 1 as [| x l Hs IH Hx]; intros i a b Ha Hb.
  - destruct i; discriminate.
  - destruct i as [| i].
    + injection Ha as <-. rewrite Forall_forall in Hx.
      apply Hx. apply (nth_error_In l 0). exact Hb.
    + exact (IH i a b Ha Hb).
Qed.

(** ** The stages of the pipelines *)

Lemma same_keys_refl (a : CanonRow) : same_keys a a.
Proof. repeat split. Qed.

Lemma same_keys_trans (a b c : CanonRow) :
  same_keys a b -> same_keys b c -> same_keys a c.
Proof.
  unfold same_keys. intros (?&?&?&?&?&?) (?&?&?&?&?&?).
  repeat split; congruence.
Qed.

Lemma convert_Message_inr (r r' : CanonRow) :
  convert_Message r = inr r' ->
  same_keys r r' /\ unicode_emoji_converter (Message r) = inr (Message r').
Proof.
  unfold convert_Message. intros H. apply bind_inr in H as (m & Hm & H).
  injection H as <-. split; [repeat split | exact Hm].
Qed.

Lemma add_Word_Count_keys (ext : External) (r : CanonRow) :
  same_keys r (add_Word_Count ext r) /\ Message (add_Word_Count ext r) = Message r.
Proof. repeat split. Qed.

Lemma zero_Word_Count_keys (mask : CanonRow -> bool) (r : CanonRow) :
  same_keys r (zero_Word_Count mask r) /\
  Message (zero_Word_Count mask r) = Message r.
Proof. unfold zero_Word_Count. destruct (mask r); repeat split. Qed.

Lemma add_Emoji_Count_keys (ext : External) (r : CanonRow) :
  same_keys r (add_Emoji_Count ext r) /\
  Message (add_Emoji_Count ext r) = Message r /\
  Word_Count (add_Emoji_Count ext r) = Word_Count r.
Proof. repeat split. Qed.

Lemma zero_Word_Count_masked (mask : CanonRow -> bool) (r : CanonRow) :
  mask r = true -> Word_Count (zero_Word_Count mask r) = 0.
Proof. unfold zero_Word_Count. now intros ->. Qed.

Lemma zero_Word_Count_stays_zero (mask : CanonRow -> bool) (r : CanonRow) :
  Word_Count r = 0 -> Word_Count (zero_Word_Count mask r) = 0.
Proof. unfold zero_Word_Count. now destruct (mask r). Qed.

Lemma single_clean_messages_inr ext directory out :
  single_folder.clean_messages ext directory = inr out ->
  exists name df repaired,
    single_folder.all_messages directory = inr (mkRawFrame name df) /\
    column_content df = true /\
    apply_rows convert_Message (sorted_single ext df) = inr repaired /\
    out = mkFrame name false
                  (column_call_duration df)
                  (finish_single ext (column_call_duration df) repaired).
Proof.
  unfold single_folder.clean_messages. intros H.
  apply bind_inr in H as ([name df] & Hdf & H). exists name, df.
  cbn [raw_name raw_body] in H.
  destruct (column_content df); simpl in H; [| discriminate].
  apply bind_inr in H as (repaired & Hr & H). exists repaired.
  injection H as <-. repeat split; auto.
Qed.

Lemma single_clean_messages_eq ext directory name df repaired :
  single_folder.all_messages directory = inr (mkRawFrame name df) ->
  column_content df = true ->
  apply_rows convert_Message (sorted_single ext df) = inr repaired ->
  single_folder.clean_messages ext directory
  = inr (mkFrame name false
                 (column_call_duration df)
                 (finish_single ext (column_call_duration df) repaired)).
Proof.
  unfold single_folder.clean_messages, sorted_single. intros -> Hc Hr. simpl.
  rewrite Hc. simpl. rewrite Hr. reflexivity.
Qed.

Lemma all_clean_messages_inr ext directory out :
  all_folders.clean_messages ext directory = inr out ->
  exists df repaired,
    all_folders.all_folder directory = inr df /\
    column_content df = true /\
    column_call_duration df = true /\
    apply_rows convert_Message (sorted_all ext df) = inr repaired /\
    out = mkFrame None true true (finish_all ext repaired).
Proof.
  unfold all_folders.clean_messages. intros H.
  apply bind_inr in H as (df & Hdf & H). exists df.
  destruct (column_content df), (column_call_duration df); simpl in H;
    try discriminate.
  apply bind_inr in H as (repaired & Hr & H). exists repaired.
  injection H as <-. repeat split; auto.
Qed.

Lemma all_clean_messages_eq ext directory df repaired :
  all_folders.all_folder directory = inr df ->
  column_content df = true ->
  column_call_duration df = true ->
  apply_rows convert_Message (sorted_all ext df) = inr repaired ->
  all_folders.clean_messages ext directory
  = inr (mkFrame None true true (finish_all ext repaired)).
Proof.
  unfold all_folders.clean_messages, sorted_all. intros -> Hc Hd Hr. simpl.
  rewrite Hc, Hd. simpl. rewrite Hr. reflexivity.
Qed.

Lemma Forall2_In_right {A B} (Q : A -> B -> Prop) (l : list A) (l' : list B) (b : B) :
  Forall2 Q l l' -> In b l' -> exists a, In a l /\ Q a b.
Proof.
  induction 1 as [| x y l l' Hxy _ IH]; simpl; [easy |].
  intros [<- | Hin]; [eauto |]. destruct (IH Hin) as (a & Ha & Hq). eauto.
Qed.

Lemma Forall2_In_left {A B} (Q : A -> B -> Prop) (l : list A) (l' : list B) (a : A) :
  Forall2 Q l l' -> In a l -> exists b, In b l' /\ Q a b.
Proof.
  induction 1 as [| x y l l' Hxy _ IH]; simpl; [easy |].
  intros [<- | Hin]; [eauto |]. destruct (IH Hin) as (b & Hb & Hq). eauto.
Qed.

(** Where a row of the cleaned frame comes from. *)
Lemma finish_single_In ext has_call repaired r :
  In r (finish_single ext has_call repaired) ->
  exists r0, In r0 repaired /\ same_keys r0 r /\ Message r = Message r0 /\
    (mask_url r = true -> Word_Count r = 0) /\
    (has_call = true ->
       nonzero_call r0 = true /\
       (mask_call_duration r0 = true -> Word_Count r = 0)).
Proof.
  unfold finish_single. intros H.
  apply in_map_iff in H as (r2 & <- & H).
  apply in_map_iff in H as (r1 & <- & H).
  assert (Hurl : mask_url (add_Emoji_Count ext (zero_Word_Count mask_url r1)) = true ->
                 Word_Count (add_Emoji_Count ext (zero_Word_Count mask_url r1)) = 0).
  { unfold mask_url at 1. simpl.
    rewrite (proj2 (zero_Word_Count_keys mask_url r1)).
    exact (zero_Word_Count_masked mask_url r1). }
  destruct has_call.
  - apply in_map_iff in H as (rc & <- & H).
    apply filter_In in H as [H Hnz].
    apply in_map_iff in H as (r0 & <- & H).
    exists r0. split; [exact H |]. split; [| split; [| split; [exact Hurl |]]].
    + case_masks.
    + case_masks.
    + intros _. split; [exact Hnz |]. intros Hm. simpl.
      apply zero_Word_Count_stays_zero. now apply zero_Word_Count_masked.
  - apply in_map_iff in H as (r0 & <- & H).
    exists r0. split; [exact H |]. split; [| split; [| split; [exact Hurl |]]].
    + case_masks.
    + case_masks.
    + discriminate.
Qed.

Lemma finish_all_eq ext repaired :
  finish_all ext repaired = finish_single ext true repaired.
Proof. reflexivity. Qed.

Lemma dropna_Message_In ext with_title df r :
  In r (dropna_Message ext with_title df) ->
  exists raw text,
    In raw df /\ content (row_message raw) = Some text /\
    r = mkRow (sender_name (row_message raw))
              (if with_title then row_title raw else None)
              (timestamp_ms (row_message raw))
              (local_date ext (timestamp_ms (row_message raw)))
              (local_time ext (timestamp_ms (row_message raw)))
              text (call_duration (row_message raw)) 0 0.
Proof.
  unfold dropna_Message. intros H. apply in_flat_map in H as (raw & Hraw & H).
  destruct (content (row_message raw)) as [text |] eqn:E; [| easy].
  destruct H as [<- | []]. eauto.
Qed.

Lemma column_call_duration_false df raw :
  column_call_duration df = false -> In raw df ->
  call_duration (row_message raw) = None.
Proof.
  unfold column_call_duration. intros H Hin.
  destruct (call_duration (row_message raw)) eqn:E; [| reflexivity].
  assert (existsb (fun r => match call_duration (row_message r) with
                            | Some _ => true | None => false end) df = true)
    as Hex by (apply existsb_exists; exists raw; now rewrite E).
  congruence.
Qed.

(** Without the call column every cell of [Call_Duration] is NaN. *)
Lemma single_no_call_column ext df repaired r0 :
  column_call_duration df = false ->
  apply_rows convert_Message (sorted_single ext df) = inr repaired ->
  In r0 repaired -> Call_Duration r0 = None.
Proof.
  intros Hc Hr Hin. apply apply_rows_inr in Hr.
  destruct (Forall2_In_right _ _ _ _ Hr Hin) as (a & Ha & Hq).
  apply convert_Message_inr in Hq as [(_&_&_&_&_&<-) _].
  apply sort_values_In in Ha. apply dropna_Message_In in Ha as (raw & text & Hraw & _ & ->).
  simpl. apply filter_In in Hraw as [Hraw _].
  now apply (column_call_duration_false df).
Qed.

Lemma zeroing_of_row r r0 :
  same_keys r0 r ->
  (mask_url r = true -> Word_Count r = 0) ->
  (mask_call_duration r0 = true -> Word_Count r = 0) ->
  (forall d, Call_Duration r = Some d -> 0 <= d -> Word_Count r = 0) /\
  (contains http (Message r) = true -> Word_Count r = 0).
Proof.
  intros (_&_&_&_&_&Hcd) Hurl Hcall. split; [| exact Hurl].
  intros d Hd Hpos. apply Hcall. unfold mask_call_duration.
  rewrite Hcd, Hd. now apply Z.leb_le.
Qed.

(** C2. In every row of a frame that [clean_messages] returns, in either
    mode, a call duration that is not NaN and is at least 0 comes with a
    word count of 0, and so does a message that contains [http]; the
    message [check http://x.com now], of three tokens, gets the word
    count 0. *)
Theorem C2_word_count_zeroing (ext : External) :
  (forall directory out r,
      single_folder.clean_messages ext directory = inr out ->
      In r (rows out) ->
      (forall d, Call_Duration r = Some d -> 0 <= d -> Word_Count r = 0) /\
      (contains http (Message r) = true -> Word_Count r = 0)) /\
  (forall directory out r,
      all_folders.clean_messages ext directory = inr out ->
      In r (rows out) ->
      (forall d, Call_Duration r = Some d -> 0 <= d -> Word_Count r = 0) /\
      (contains http (Message r) = true -> Word_Count r = 0)) /\
  (forall chat who t, exists r,
      single_folder.clean_messages ext [mkFile chat [text_message who t url_message]]
      = inr (mkFrame (Some chat) false false [r]) /\
      Message r = url_message /\ Word_Count r = 0) /\
  length (split url_message) = 3%nat.
Proof.
  split; [| split; [| split]].
  - intros directory out r H H0.
    apply single_clean_messages_inr in H as (name & df & repaired & _ & _ & Hr & ->).
    simpl in H0. apply finish_single_In in H0 as (r0 & Hin & Hk & _ & Hurl & Hcall).
    destruct (column_call_duration df) eqn:Hc.
    + destruct (Hcall eq_refl) as [_ Hz].
      apply (zeroing_of_row r r0 Hk Hurl Hz).
    + split; [| exact Hurl]. intros d Hd _.
      pose proof (single_no_call_column ext df repaired r0 Hc Hr Hin) as Hn.
      destruct Hk as (_&_&_&_&_&Hcd). congruence.
  - intros directory out r H H0.
    apply all_clean_messages_inr in H as (df & repaired & _ & _ & _ & _ & ->).
    simpl in H0. rewrite finish_all_eq in H0.
    apply finish_single_In in H0 as (r0 & Hin & Hk & _ & Hurl & Hcall).
    destruct (Hcall eq_refl) as [_ Hz].
    apply (zeroing_of_row r r0 Hk Hurl Hz).
  - intros chat who t.
    exists (mkRow who None t (local_date ext t) (local_time ext t) url_message
                  None 0 (emoji_count (EMOJI_DATA ext) url_message)).
    split; [| split; reflexivity].
    reflexivity.
  - reflexivity.
Qed.

Lemma C2_witness :
  single_folder.clean_messages ext0 call_dir = inr call_frame /\
  forall r, In r (rows call_frame) ->
    (forall d, Call_Duration r = Some d -> 0 <= d -> Word_Count r = 0) /\
    (contains http (Message r) = true -> Word_Count r = 0).
Proof.
  split; [vm_compute; reflexivity |].
  intros r Hr.
  apply (proj1 (C2_word_count_zeroing ext0) call_dir call_frame r);
    [vm_compute; reflexivity | exact Hr].
Defined.

(** ** The sort invariant *)

Lemma by_date_time_le (a b : CanonRow) :
  all_folders.by_date_time a b = true <-> date_time_le a b.
Proof.
  unfold all_folders.by_date_time, date_time_le.
  rewrite orb_true_iff, andb_true_iff, Z.ltb_lt, Z.eqb_eq, Z.leb_le. tauto.
Qed.

Lemma by_date_time_total (a b : CanonRow) :
  all_folders.by_date_time a b = false -> all_folders.by_date_time b a = true.
Proof.
  intros H. apply by_date_time_le.
  assert (~ date_time_le a b) as Hn by (rewrite <- by_date_time_le; congruence).
  unfold date_time_le in *. lia.
Qed.

Lemma by_date_time_trans (a b c : CanonRow) :
  all_folders.by_date_time a b = true -> all_folders.by_date_time b c = true ->
  all_folders.by_date_time a c = true.
Proof. rewrite !by_date_time_le. unfold date_time_le. lia. Qed.

Lemma by_timestamp_total (a b : CanonRow) :
  single_folder.by_timestamp a b = false -> single_folder.by_timestamp b a = true.
Proof. unfold single_folder.by_timestamp. rewrite Z.leb_gt, Z.leb_le. lia. Qed.

Lemma by_timestamp_trans (a b c : CanonRow) :
  single_folder.by_timestamp a b = true -> single_folder.by_timestamp b c = true ->
  single_folder.by_timestamp a c = true.
Proof. unfold single_folder.by_timestamp. rewrite !Z.leb_le. lia. Qed.

Section KeyedOrder.

(** An order on rows that looks at the key columns only. *)
Variable R : CanonRow -> CanonRow -> Prop.
Hypothesis R_keys :
  forall a b a' b', same_keys a a' -> same_keys b b' -> R a b -> R a' b'.

Lemma repaired_sorted (l repaired : list CanonRow) :
  apply_rows convert_Message l = inr repaired ->
  StronglySorted R l -> StronglySorted R repaired.
Proof.
  intros H. apply apply_rows_inr in H.
  apply (StronglySorted_Forall2 R R (fun a b => convert_Message a = inr b));
    [| exact H].
  intros a b a' b' Ha Hb. apply R_keys; now apply convert_Message_inr.
Qed.

Lemma finish_single_sorted ext has_call (repaired : list CanonRow) :
  StronglySorted R repaired ->
  StronglySorted R (finish_single ext has_call repaired).
Proof.
  intros H. unfold finish_single.
  assert (Hwc : StronglySorted R (map (add_Word_Count ext) repaired)).
  { apply StronglySorted_map; [| exact H].
    intros a b. apply R_keys; apply add_Word_Count_keys. }
  assert (Hzero : forall mask l,
             StronglySorted R l -> StronglySorted R (map (zero_Word_Count mask) l)).
  { intros mask l. apply StronglySorted_map.
    intros a b. apply R_keys; apply zero_Word_Count_keys. }
  apply StronglySorted_map.
  { intros a b. apply R_keys; apply add_Emoji_Count_keys. }
  apply Hzero. destruct has_call; [| exact Hwc].
  apply Hzero. now apply StronglySorted_filter.
Qed.

End KeyedOrder.

Lemma date_time_le_keys a b a' b' :
  same_keys a a' -> same_keys b b' -> date_time_le a b -> date_time_le a' b'.
Proof.
  unfold same_keys, date_time_le. intros (_&_&_&->&->&_) (_&_&_&->&->&_). tauto.
Qed.

Lemma timestamp_le_keys a b a' b' :
  same_keys a a' -> same_keys b b' -> timestamp_le a b -> timestamp_le a' b'.
Proof.
  unfold same_keys, timestamp_le. intros (_&_&->&_) (_&_&->&_). tauto.
Qed.

Lemma single_rows_sorted ext directory out :
  single_folder.clean_messages ext directory = inr out ->
  StronglySorted timestamp_le (rows out).
Proof.
  intros H. apply single_clean_messages_inr in H as (name & df & repaired & _ & _ & Hr & ->).
  simpl. apply (finish_single_sorted _ timestamp_le_keys).
  apply (repaired_sorted _ timestamp_le_keys _ _ Hr).
  unfold sorted_single.
  eapply StronglySorted_impl;
    [| apply (sort_values_sorted single_folder.by_timestamp
                by_timestamp_total by_timestamp_trans)].
  intros a b. unfold single_folder.by_timestamp, timestamp_le. apply Z.leb_le.
Qed.

Lemma all_rows_sorted ext directory out :
  all_folders.clean_messages ext directory = inr out ->
  StronglySorted date_time_le (rows out).
Proof.
  intros H.
  apply all_clean_messages_inr in H as (df & repaired & _ & _ & _ & Hr & ->).
  simpl. rewrite finish_all_eq. apply (finish_single_sorted _ date_time_le_keys).
  apply (repaired_sorted _ date_time_le_keys _ _ Hr).
  unfold sorted_all.
  eapply StronglySorted_impl;
    [| apply (sort_values_sorted all_folders.by_date_time
                by_date_time_total by_date_time_trans)].
  intros a b. apply by_date_time_le.
Qed.

(** [Date] and [Time] of a cleaned row are the local day and the local
    time of day of its timestamp. *)
Lemma single_rows_derived ext directory out r :
  single_folder.clean_messages ext directory = inr out ->
  In r (rows out) ->
  Date r = local_date ext (Timestamp r) /\ Time r = local_time ext (Timestamp r).
Proof.
  intros H Hin.
  apply single_clean_messages_inr in H as (name & df & repaired & _ & _ & Hr & ->).
  simpl in Hin. apply finish_single_In in Hin as (r0 & Hin & Hk & _).
  apply apply_rows_inr in Hr.
  destruct (Forall2_In_right _ _ _ _ Hr Hin) as (a & Ha & Hq).
  apply convert_Message_inr in Hq as [Hk' _].
  pose proof (same_keys_trans _ _ _ Hk' Hk) as (_&_&<-&<-&<-&_).
  apply sort_values_In in Ha.
  apply dropna_Message_In in Ha as (raw & text & _ & _ & ->). split; reflexivity.
Qed.

Lemma local_order (x y : Z) :
  x <= y ->
  x / ms_per_day < y / ms_per_day \/
  (x / ms_per_day = y / ms_per_day /\ x mod ms_per_day <= y mod ms_per_day).
Proof.
  intros Hxy. unfold ms_per_day.
  pose proof (Z.div_le_mono x y 86400000 ltac:(lia) Hxy) as Hq.
  pose proof (Z.div_mod x 86400000 ltac:(lia)) as Hx.
  pose proof (Z.div_mod y 86400000 ltac:(lia)) as Hy.
  destruct (Z.eq_dec (x / 86400000) (y / 86400000)) as [E | E]; [right | left; lia].
  split; [exact E |]. rewrite E in Hx. lia.
Qed.

(** C5 (as the code has it). In multi-conversation mode the rows of the
    cleaned frame are sorted ascending by [(Date, Time)], every adjacent
    pair included, after the zero-duration drop and the zeroing of word
    counts. In single-conversation mode the frame is sorted by
    [timestamp_ms], the instant, and the later steps keep that order; its
    adjacent rows are in [(Date, Time)] order whenever the local time of
    the zone does not step back over the rows of the frame. *)
Theorem C5_rows_sorted (ext : External) :
  (forall directory out i a b,
      all_folders.clean_messages ext directory = inr out ->
      nth_error (rows out) i = Some a -> nth_error (rows out) (S i) = Some b ->
      date_time_le a b) /\
  (forall directory out i a b,
      single_folder.clean_messages ext directory = inr out ->
      nth_error (rows out) i = Some a -> nth_error (rows out) (S i) = Some b ->
      Timestamp a <= Timestamp b) /\
  (forall directory out i a b,
      single_folder.clean_messages ext directory = inr out ->
      local_time_monotone_on ext out ->
      nth_error (rows out) i = Some a -> nth_error (rows out) (S i) = Some b ->
      date_time_le a b).
Proof.
  split; [| split].
  - intros directory out i a b H.
    apply (StronglySorted_adjacent date_time_le).
    now apply (all_rows_sorted ext directory).
  - intros directory out i a b H.
    apply (StronglySorted_adjacent timestamp_le).
    now apply (single_rows_sorted ext directory).
  - intros directory out i a b H Hmono Ha Hb.
    pose proof (StronglySorted_adjacent timestamp_le _
                  (single_rows_sorted ext directory out H) i a b Ha Hb) as Hle.
    destruct (single_rows_derived ext directory out a H (nth_error_In _ _ Ha))
      as [Hda Hta].
    destruct (single_rows_derived ext directory out b H (nth_error_In _ _ Hb))
      as [Hdb Htb].
    unfold date_time_le. rewrite Hda, Hta, Hdb, Htb.
    apply local_order.
    exact (Hmono a b (nth_error_In _ _ Ha) (nth_error_In _ _ Hb) Hle).
Qed.

(** In single-conversation mode the second row can have an earlier
    [(Date, Time)] than the first. *)
Lemma C5_counterexample :
  exists a b,
    single_folder.clean_messages ext0 fall_back_dir = inr fall_back_frame /\
    nth_error (rows fall_back_frame) 0 = Some a /\
    nth_error (rows fall_back_frame) 1 = Some b /\
    Date a = Date b /\ Time b < Time a /\ ~ date_time_le a b.
Proof.
  eexists. eexists.
  split; [vm_compute; reflexivity |].
  split; [reflexivity |]. split; [reflexivity |].
  split; [reflexivity |]. split; [reflexivity |].
  unfold date_time_le. simpl. lia.
Qed.

Lemma toronto_2023_monotone_fails : ~ local_time_monotone ext0.
Proof.
  intros H.
  assert (X := H (fall_back_2023 - 1) fall_back_2023
                 ltac:(unfold fall_back_2023; lia)).
  vm_compute in X. now apply X.
Qed.

Lemma ext_standard_monotone : local_time_monotone ext_standard.
Proof. intros s t Hst. simpl. lia. Qed.

(** Where local time never steps back, it does not over any frame. *)
Lemma monotone_on_every_frame (ext : External) (df : DataFrame) :
  local_time_monotone ext -> local_time_monotone_on ext df.
Proof. intros H r s _ _. apply H. Qed.

(** The rows of [call_frame] are all after the end of daylight time. *)
Lemma call_frame_monotone : local_time_monotone_on ext0 call_frame.
Proof.
  intros r s Hr Hs.
  assert (Hoff : forall x, In x (rows call_frame) ->
            tz_offset ext0 (Timestamp x) = -5 * 3600000).
  { intros x [<- | [<- | []]]; reflexivity. }
  rewrite (Hoff r Hr), (Hoff s Hs). lia.
Qed.

Lemma C5_witness :
  (forall a b, nth_error (rows two_chats_frame) 0 = Some a ->
               nth_error (rows two_chats_frame) 1 = Some b -> date_time_le a b) /\
  (forall a b, nth_error (rows call_frame) 0 = Some a ->
               nth_error (rows call_frame) 1 = Some b ->
               Timestamp a <= Timestamp b) /\
  (forall a b, nth_error (rows call_frame) 0 = Some a ->
               nth_error (rows call_frame) 1 = Some b ->
               date_time_le a b).
Proof.
  destruct (C5_rows_sorted ext0) as (Hall & Hsingle & Hlocal).
  split; [| split].
  - intros a b. apply (Hall two_chats two_chats_frame 0%nat a b).
    vm_compute. reflexivity.
  - intros a b. apply (Hsingle call_dir call_frame 0%nat a b).
    vm_compute. reflexivity.
  - intros a b. apply (Hlocal call_dir call_frame 0%nat a b).
    + vm_compute. reflexivity.
    + exact call_frame_monotone.
Defined.

(** ** Loading *)

Lemma concat_frames_inr {A} (dfs : list (list A)) (df : list A) :
  concat_frames dfs = inr df -> df = List.concat dfs /\ dfs <> [].
Proof.
  destruct dfs; simpl; [discriminate |]. intros H. injection H as <-.
  split; [reflexivity | discriminate].
Qed.

Lemma apply_rows_function {A B} (f : A -> result B) (g : A -> B) (P : A -> Prop)
    (l : list A) (bs : list B) :
  (forall a b, f a = inr b -> P a /\ b = g a) ->
  apply_rows f l = inr bs -> Forall P l /\ bs = map g l.
Proof.
  intros Hf H. apply apply_rows_inr in H.
  induction H as [| a b l bs Hab _ [IH1 IH2]]; [split; constructor |].
  destruct (Hf a b Hab) as [Ha ->]. split; [now constructor | now rewrite IH2].
Qed.

Lemma apply_rows_all_ok {A B} (f : A -> result B) (g : A -> B) (l : list A) :
  Forall (fun a => f a = inr (g a)) l -> apply_rows f l = inr (map g l).
Proof.
  induction 1 as [| a l Ha _ IH]; [reflexivity |]. simpl.
  rewrite Ha. simpl. now rewrite IH.
Qed.

(** A loop whose only exception is [e] ends in [e] as soon as one item
    raises. *)
Lemma apply_rows_one_error {A B} (f : A -> result B) (e : exn) (l : list A) :
  (forall a, f a = inl e \/ exists b, f a = inr b) ->
  Exists (fun a => f a = inl e) l -> apply_rows f l = inl e.
Proof.
  intros Hf. induction 1 as [a l Ha | a l _ IH]; simpl.
  - now rewrite Ha.
  - destruct (Hf a) as [Ha | [b Ha]]; rewrite Ha; [reflexivity |].
    simpl. now rewrite IH.
Qed.

Lemma all_empty_or_not (files : list ExportFile) :
  Forall (fun f => messages f <> []) files \/
  Exists (fun f => messages f = []) files.
Proof.
  induction files as [| f files [IH | IH]]; [left; constructor | |].
  - destruct (messages f) eqn:E; [right; now left | left].
    constructor; [congruence | exact IH].
  - right. now right.
Qed.

Lemma raw_rows_In (files : list ExportFile) (raw : RawRow) :
  In raw (raw_rows files) <->
  exists f m, In f files /\ In m (messages f) /\ raw = mkRawRow (Some (title f)) m.
Proof.
  unfold raw_rows. rewrite in_flat_map. split.
  - intros (f & Hf & Hin). apply in_map_iff in Hin as (m & <- & Hm). eauto.
  - intros (f & m & Hf & Hm & ->). exists f. split; [exact Hf |]. now apply in_map.
Qed.

(** The loader of multi-conversation mode, file by file. *)
Lemma multi_chat_db_spec (f : ExportFile) :
  (messages f = [] /\ all_folders.chat_db f = inl (KeyError ["timestamp_ms"%string]))
  \/ (messages f <> [] /\
      all_folders.chat_db f = inr (map (mkRawRow (Some (title f))) (messages f))).
Proof.
  unfold all_folders.chat_db. destruct (messages f) eqn:E.
  - left. split; reflexivity.
  - right. split; [discriminate | reflexivity].
Qed.

Lemma multi_all_messages_empty_file (directory : list ExportFile) :
  Exists (fun f => messages f = []) directory ->
  all_folders.all_messages directory = inl (KeyError ["timestamp_ms"%string]).
Proof.
  intros H. unfold all_folders.all_messages.
  rewrite (apply_rows_one_error all_folders.chat_db (KeyError ["timestamp_ms"%string])).
  - reflexivity.
  - intros f. destruct (multi_chat_db_spec f) as [[_ E] | [_ E]]; eauto.
  - eapply Exists_impl; [| exact H]. intros f Hf.
    destruct (multi_chat_db_spec f) as [[_ E] | [Hne _]]; [exact E | contradiction].
Qed.

Lemma multi_all_messages_loadable (directory : list ExportFile) :
  loadable directory ->
  all_folders.all_messages directory = inr (raw_rows directory).
Proof.
  intros [Hne Hall]. unfold all_folders.all_messages.
  rewrite (apply_rows_all_ok _ (fun f => map (mkRawRow (Some (title f))) (messages f))).
  - simpl. destruct directory as [| f files]; [congruence |].
    unfold raw_rows. now rewrite flat_map_concat_map.
  - eapply Forall_impl; [| exact Hall]. intros f Hf.
    destruct (multi_chat_db_spec f) as [[E _] | [_ E]]; [contradiction | exact E].
Qed.

Lemma loaded_is_loadable {A} (directory : list ExportFile) (m : result A) (df : A) :
  (directory = [] -> m = inl ValueError) ->
  (Exists (fun f => messages f = []) directory ->
   m = inl (KeyError ["timestamp_ms"%string])) ->
  m = inr df -> loadable directory.
Proof.
  intros Hnil Hex H. destruct (all_empty_or_not directory) as [Hall | He].
  - split; [| exact Hall]. intros E. rewrite (Hnil E) in H. discriminate.
  - rewrite (Hex He) in H. discriminate.
Qed.

Lemma multi_all_messages_inr (directory : list ExportFile) (df : list RawRow) :
  all_folders.all_messages directory = inr df ->
  loadable directory /\ df = raw_rows directory.
Proof.
  intros H.
  assert (Hl : loadable directory).
  { apply (loaded_is_loadable directory (all_folders.all_messages directory) df);
      [| | exact H].
    - now intros ->.
    - apply multi_all_messages_empty_file. }
  split; [exact Hl |]. rewrite (multi_all_messages_loadable _ Hl) in H.
  now injection H.
Qed.

Lemma concat_frames_ok {A} (dfs : list (list A)) :
  dfs <> [] -> concat_frames dfs = inr (List.concat dfs).
Proof. destruct dfs; [congruence | reflexivity]. Qed.

Lemma untitled_raw_rows (files : list ExportFile) :
  List.concat (map (fun f => map (mkRawRow None) (messages f)) files)
  = map untitled (raw_rows files).
Proof.
  unfold raw_rows. induction files as [| f files IH]; [reflexivity |].
  cbn [map List.concat flat_map]. rewrite map_app, map_map, IH. reflexivity.
Qed.

(** The loader of single-conversation mode, file by file. *)
Lemma chat_db_spec (f : ExportFile) :
  (messages f = [] /\ single_folder.chat_db f = inl (KeyError ["timestamp_ms"%string]))
  \/ (messages f <> [] /\
      single_folder.chat_db f
      = inr (mkRawFrame (Some (title f)) (map (mkRawRow None) (messages f)))).
Proof.
  unfold single_folder.chat_db. destruct (messages f) eqn:E.
  - left. split; reflexivity.
  - right. split; [discriminate | reflexivity].
Qed.

Lemma all_messages_empty_file (directory : list ExportFile) :
  Exists (fun f => messages f = []) directory ->
  single_folder.all_messages directory = inl (KeyError ["timestamp_ms"%string]).
Proof.
  intros H. unfold single_folder.all_messages.
  rewrite (apply_rows_one_error single_folder.chat_db
             (KeyError ["timestamp_ms"%string])).
  - reflexivity.
  - intros f. destruct (chat_db_spec f) as [[_ E] | [_ E]]; eauto.
  - eapply Exists_impl; [| exact H]. intros f Hf.
    destruct (chat_db_spec f) as [[_ E] | [Hne _]]; [exact E | contradiction].
Qed.

Lemma all_messages_loadable (directory : list ExportFile) :
  loadable directory ->
  single_folder.all_messages directory = inr (single_frame directory).
Proof.
  intros [Hne Hall]. unfold single_folder.all_messages.
  rewrite (apply_rows_all_ok _
             (fun f => mkRawFrame (Some (title f)) (map (mkRawRow None) (messages f)))).
  - cbn [bind]. unfold single_folder.concat_named.
    rewrite concat_frames_ok by (destruct directory; [congruence | discriminate]).
    cbn [bind]. unfold ret, single_frame. rewrite !map_map. cbn [raw_name raw_body].
    now rewrite untitled_raw_rows.
  - eapply Forall_impl; [| exact Hall]. intros f Hf.
    destruct (chat_db_spec f) as [[E _] | [_ E]]; [contradiction | exact E].
Qed.

Lemma all_messages_inr (directory : list ExportFile) (df : RawFrame) :
  single_folder.all_messages directory = inr df ->
  loadable directory /\ df = single_frame directory.
Proof.
  intros H.
  assert (Hl : loadable directory).
  { apply (loaded_is_loadable directory (single_folder.all_messages directory) df);
      [| | exact H].
    - now intros ->.
    - apply all_messages_empty_file. }
  split; [exact Hl |]. rewrite (all_messages_loadable _ Hl) in H.
  now injection H.
Qed.

Lemma all_messages_In (directory : list ExportFile) name df f m :
  single_folder.all_messages directory = inr (mkRawFrame name df) ->
  In f directory -> In m (messages f) -> In (mkRawRow None m) df.
Proof.
  intros H Hf Hm. apply all_messages_inr in H as [_ H].
  injection H as _ ->.
  apply (in_map untitled _ (mkRawRow (Some (title f)) m)).
  apply raw_rows_In. eauto.
Qed.

Lemma subdirectories_In (root : list DirEntry) (files : list ExportFile) :
  In (Folder files) root -> In files (all_folders.subdirectories root).
Proof.
  intros H. unfold all_folders.subdirectories. apply in_flat_map.
  exists (Folder files). simpl. auto.
Qed.

Lemma all_folder_inr (root : list DirEntry) (df : list RawRow) :
  all_folders.all_folder root = inr df <->
  all_folders.subdirectories root <> [] /\
  Forall loadable (all_folders.subdirectories root) /\
  df = flat_map raw_rows (all_folders.subdirectories root).
Proof.
  unfold all_folders.all_folder. split.
  - intros H. apply bind_inr in H as (dfs & Hdfs & H).
    apply concat_frames_inr in H as [-> Hne].
    apply (apply_rows_function _ raw_rows loadable) in Hdfs as [Hall ->].
    + split; [| split; [exact Hall | now rewrite flat_map_concat_map]].
      intros E. rewrite E in Hne. now apply Hne.
    + intros files d Hd. now apply multi_all_messages_inr.
  - intros (Hne & Hall & ->).
    rewrite (apply_rows_all_ok _ raw_rows).
    + simpl. destruct (all_folders.subdirectories root); [congruence |].
      now rewrite flat_map_concat_map.
    + eapply Forall_impl; [| exact Hall]. intros files Hl.
      now apply multi_all_messages_loadable.
Qed.

Lemma all_folder_In (root : list DirEntry) df files f m :
  all_folders.all_folder root = inr df ->
  In (Folder files) root -> In f files -> In m (messages f) ->
  In (mkRawRow (Some (title f)) m) df.
Proof.
  intros H Hfiles Hf Hm. apply all_folder_inr in H as (_ & _ & ->).
  apply in_flat_map. exists files. split; [now apply subdirectories_In |].
  apply raw_rows_In. eauto.
Qed.

Lemma column_content_true df raw text :
  In raw df -> content (row_message raw) = Some text -> column_content df = true.
Proof.
  intros Hin Hc. unfold column_content. apply existsb_exists.
  exists raw. now rewrite Hc.
Qed.

(** ** Encoding repair inside the pipelines *)

Lemma convert_Message_raises (r : CanonRow) :
  raises (unicode_emoji_converter (Message r)) -> raises (convert_Message r).
Proof. intros [e He]. exists e. unfold convert_Message. now rewrite He. Qed.

(** A row that reaches the repair step with a text that cannot be
    repaired ends the loop over the rows. *)
Lemma repair_raises ext with_title leb (df : list RawRow) raw text :
  In raw df -> other_fields (row_message raw) = [] ->
  content (row_message raw) = Some text ->
  raises (unicode_emoji_converter text) ->
  raises (apply_rows convert_Message
            (sort_values leb
               (dropna_Message ext with_title (filter all_purge_columns_nan df)))).
Proof.
  intros Hin Ho Hc Hbad.
  set (m := row_message raw) in *.
  apply apply_rows_raises with
    (a := mkRow (sender_name m) (if with_title then row_title raw else None)
                (timestamp_ms m) (local_date ext (timestamp_ms m))
                (local_time ext (timestamp_ms m)) text (call_duration m) 0 0).
  - apply sort_values_In. unfold dropna_Message. apply in_flat_map.
    exists raw. split.
    + apply filter_In. split; [exact Hin |].
      unfold all_purge_columns_nan. fold m. now rewrite Ho.
    + fold m. rewrite Hc. now left.
  - now apply convert_Message_raises.
Qed.

Lemma bind_raises {A B} (m : result A) (k : A -> result B) :
  raises m -> raises (bind m k).
Proof. intros [e ->]. now exists e. Qed.

Lemma bind_inl {A B} (m : result A) (k : A -> result B) (e : exn) :
  m = inl e -> bind m k = inl e.
Proof. now intros ->. Qed.

(** The exception of a loop is the exception of one of its items. *)
Lemma apply_rows_inl {A B} (f : A -> result B) (l : list A) (e : exn) :
  apply_rows f l = inl e -> exists a, In a l /\ f a = inl e.
Proof.
  induction l as [| a l IH]; simpl; [discriminate |]. intros H.
  destruct (f a) as [e0 | b] eqn:Ha; simpl in H.
  - injection H as ->. exists a. split; [now left | exact Ha].
  - destruct (apply_rows f l) as [e1 | bs]; simpl in H; [| discriminate].
    injection H as ->. destruct (IH eq_refl) as (a' & Hin & Ha').
    exists a'. split; [now right | exact Ha'].
Qed.

(** The repair raises nothing but the errors of its two codecs. *)
Lemma converter_error_kinds (s : str) (e : exn) :
  unicode_emoji_converter s = inl e ->
  e = UnicodeEncodeError \/ e = UnicodeDecodeError.
Proof.
  unfold unicode_emoji_converter.
  destruct (encode_latin1 s) as [bs |]; [destruct (decode_utf8 bs) |];
    intros H; inversion H; auto.
Qed.

Lemma repair_error ext with_title leb (df : list RawRow) raw text :
  In raw df -> other_fields (row_message raw) = [] ->
  content (row_message raw) = Some text ->
  raises (unicode_emoji_converter text) ->
  exists e,
    apply_rows convert_Message
      (sort_values leb
         (dropna_Message ext with_title (filter all_purge_columns_nan df)))
    = inl e /\
    (e = UnicodeEncodeError \/ e = UnicodeDecodeError).
Proof.
  intros Hin Ho Hc Hbad.
  destruct (repair_raises ext with_title leb df raw text Hin Ho Hc Hbad) as [e He].
  exists e. split; [exact He |].
  apply apply_rows_inl in He as (a & _ & Ha). unfold convert_Message in Ha.
  destruct (unicode_emoji_converter (Message a)) as [e0 | t] eqn:E;
    simpl in Ha; [| discriminate].
  injection Ha as ->. exact (converter_error_kinds _ _ E).
Qed.

(** C1 (as the code has it). There is no fallback to the unrepaired
    text. When the load succeeds (and, in multi-conversation mode, the
    frame has the column [call_duration], which that mode asks for
    before the repair) and [unicode_emoji_converter] fails on the text
    of a message that reaches the repair step (its content is present
    and no other field of it is), [clean_messages] ends in the
    [UnicodeEncodeError] or [UnicodeDecodeError] of the repair, in either
    mode, and no frame is returned. *)
Theorem C1_repair_failure_aborts (ext : External) :
  (forall directory df f m text,
      single_folder.all_messages directory = inr df ->
      In f directory -> In m (messages f) ->
      other_fields m = [] -> content m = Some text ->
      raises (unicode_emoji_converter text) ->
      exists e,
        single_folder.clean_messages ext directory = inl e /\
        (e = UnicodeEncodeError \/ e = UnicodeDecodeError)) /\
  (forall root df files f m text,
      all_folders.all_folder root = inr df ->
      column_call_duration df = true ->
      In (Folder files) root -> In f files -> In m (messages f) ->
      other_fields m = [] -> content m = Some text ->
      raises (unicode_emoji_converter text) ->
      exists e,
        all_folders.clean_messages ext root = inl e /\
        (e = UnicodeEncodeError \/ e = UnicodeDecodeError)).
Proof.
  split.
  - intros directory [name df] f m text Hdf Hf Hm Ho Hc Hbad.
    pose proof (all_messages_In _ _ _ _ _ Hdf Hf Hm) as Hin.
    destruct (repair_error ext false single_folder.by_timestamp df
                (mkRawRow None m) text Hin Ho Hc Hbad) as (e & He & Hkind).
    exists e. split; [| exact Hkind].
    unfold single_folder.clean_messages. rewrite Hdf. cbn [bind raw_name raw_body].
    rewrite (column_content_true df _ text Hin Hc). cbn [negb].
    apply bind_inl. exact He.
  - intros root df files f m text Hdf Hcall Hfiles Hf Hm Ho Hc Hbad.
    pose proof (all_folder_In _ _ _ _ _ Hdf Hfiles Hf Hm) as Hin.
    destruct (repair_error ext true all_folders.by_date_time df
                (mkRawRow (Some (title f)) m) text Hin Ho Hc Hbad)
      as (e & He & Hkind).
    exists e. split; [| exact Hkind].
    unfold all_folders.clean_messages. rewrite Hdf. cbn [bind].
    rewrite (column_content_true df _ text Hin Hc), Hcall.
    cbn [all_folders.missing_columns app]. apply bind_inl. exact He.
Qed.

(** One row whose repair fails makes the whole run fail, in both modes. *)
Lemma C1_counterexample :
  unicode_emoji_converter cafe = inl UnicodeDecodeError /\
  single_folder.clean_messages ext0 bad_dir = inl UnicodeDecodeError /\
  all_folders.clean_messages ext0 [Folder bad_dir] = inl UnicodeDecodeError /\
  ~ (exists out, single_folder.clean_messages ext0 bad_dir = inr out /\
                 exists r, In r (rows out) /\ Message r = cafe).
Proof.
  split; [vm_compute; reflexivity |].
  split; [vm_compute; reflexivity |].
  split; [vm_compute; reflexivity |].
  intros (out & H & _). vm_compute in H. discriminate.
Qed.

Lemma C1_witness :
  (exists e,
      single_folder.clean_messages ext0 bad_dir = inl e /\
      (e = UnicodeEncodeError \/ e = UnicodeDecodeError)) /\
  (exists e,
      all_folders.clean_messages ext0 [StrayFile; Folder bad_dir] = inl e /\
      (e = UnicodeEncodeError \/ e = UnicodeDecodeError)).
Proof.
  assert (Hbad : raises (unicode_emoji_converter cafe))
    by (exists UnicodeDecodeError; vm_compute; reflexivity).
  destruct (C1_repair_failure_aborts ext0) as [Hsingle Hall].
  split.
  - apply (Hsingle bad_dir (single_frame bad_dir) bad_file
                   (text_message bob (call_T + 1000) cafe) cafe);
      simpl; auto.
  - apply (Hall [StrayFile; Folder bad_dir] (raw_rows bad_dir) bad_dir bad_file
                (text_message bob (call_T + 1000) cafe) cafe);
      simpl; auto.
Defined.

(** ** The scenario of one text message and one call record *)

Section PlainText.

Variable E : list str.
Hypothesis E_outside : Forall starts_outside_text E.

Lemma E_outside_nonempty : Forall (fun e => e <> []) E.
Proof.
  eapply Forall_impl; [| exact E_outside]. intros [| c e] H; [easy | discriminate].
Qed.

Lemma first_match_plain (c : Z) (t : str) :
  plain c -> first_match (get_emoji_regexp E) (c :: t) = None.
Proof.
  intros Hc. destruct (first_match (get_emoji_regexp E) (c :: t)) as [m |] eqn:H; [| reflexivity].
  apply first_match_longest in H as (Hin & Hs & _).
  rewrite Forall_forall in E_outside. apply E_outside in Hin.
  destruct m as [| a m]; [easy |]. simpl in *.
  apply andb_true_iff in Hs as [Ha _]. apply Z.eqb_eq in Ha. subst a.
  destruct Hin as [Hl Hsp], Hc as [Hc | Hc]; congruence.
Qed.

Lemma findall_plain (t : str) : Forall plain t -> findall (get_emoji_regexp E) t = [].
Proof.
  induction 1 as [| c t Hc _ IH].
  - unfold findall. simpl. now rewrite (first_match_end E E_outside_nonempty).
  - rewrite (findall_skip E); [exact IH | now apply first_match_plain].
Qed.

Lemma Forall_plain_skipn (n : nat) (t : str) :
  Forall plain t -> Forall plain (skipn n t).
Proof.
  revert t. induction n as [| n IH]; intros t H; [exact H |].
  destruct H; simpl; [constructor | now apply IH].
Qed.

(** One emoji between plain words is one token, whatever else the
    table holds. *)
Lemma findall_one_emoji (before after e : str) :
  In e E -> Forall plain before -> Forall plain after ->
  length (findall (get_emoji_regexp E) (before ++ e ++ after)) = 1%nat.
Proof.
  intros He Hb Ha. induction Hb as [| c t Hc _ IH]; simpl.
  - destruct e as [| c e'] eqn:Ee.
    { pose proof E_outside_nonempty as Hn. rewrite Forall_forall in Hn.
      now apply Hn in He. }
    simpl. destruct (first_match (get_emoji_regexp E) (c :: e' ++ after)) as [m |] eqn:H.
    + rewrite (findall_token E E_outside_nonempty _ _ _ H).
      pose proof (first_match_cons E E_outside_nonempty _ _ H) as (k & Hk & _).
      pose proof (first_match_longest _ _ _ H) as (_ & _ & Hmax).
      assert (Hlen : (length (c :: e') <= length m)%nat).
      { apply Hmax; [exact He |]. apply startswith_firstn.
        change (c :: e' ++ after) with ((c :: e') ++ after).
        now rewrite firstn_app, firstn_all, Nat.sub_diag, firstn_O, app_nil_r. }
      rewrite findall_plain; [reflexivity |].
      change (c :: e' ++ after) with ((c :: e') ++ after).
      rewrite skipn_app. rewrite (skipn_all2 (c :: e')) by exact Hlen.
      simpl app. now apply Forall_plain_skipn.
    + assert (startswith (c :: e') (c :: e' ++ after) = true) as Hs.
      { apply startswith_firstn.
        change (c :: e' ++ after) with ((c :: e') ++ after).
        now rewrite firstn_app, firstn_all, Nat.sub_diag, firstn_O, app_nil_r. }
      rewrite (first_match_none E _ _ H He) in Hs. discriminate.
  - rewrite (findall_skip E); [exact IH | now apply first_match_plain].
Qed.

End PlainText.

Lemma Forall_plain_py_Hello : Forall plain (py "Hello ").
Proof. repeat constructor; (now left) || (now right). Qed.

Lemma Forall_plain_py_world : Forall plain (py " world").
Proof. repeat constructor; (now left) || (now right). Qed.

Lemma filter_none {A} (p : A -> bool) (l : list A) :
  (forall x, In x l -> p x = false) -> filter p l = [].
Proof.
  induction l as [| x l IH]; intros H; [reflexivity |]. simpl.
  rewrite (H x) by now left. apply IH. intros; apply H; now right.
Qed.

(** A letter or a space is no key of the table. *)
Lemma plain_not_emoji (E : list str) (c : Z) :
  Forall starts_outside_text E -> plain c -> existsb (str_eqb [c]) E = false.
Proof.
  intros HE Hc. destruct (existsb (str_eqb [c]) E) eqn:Hex; [| reflexivity].
  apply existsb_exists in Hex as (e & He & Heq). apply str_eqb_eq in Heq. subst e.
  rewrite Forall_forall in HE. destruct (HE [c] He) as [Hl Hs].
  destruct Hc as [Hc | Hc]; congruence.
Qed.

Lemma emoji_count_hello (E : list str) :
  Forall starts_outside_text E -> In grinning E ->
  emoji_count E hello_emoji_world = 1.
Proof.
  intros HE Hin. unfold emoji_count.
  change hello_emoji_world with (py "Hello " ++ grinning ++ py " world").
  assert (Hplain : forall l, Forall plain l ->
            filter (fun c => existsb (str_eqb [c]) E) l = []).
  { intros l Hl. apply filter_none. intros c Hc.
    apply plain_not_emoji; [exact HE |]. now apply (proj1 (Forall_forall _ _) Hl). }
  rewrite !filter_app, (Hplain _ Forall_plain_py_Hello),
    (Hplain _ Forall_plain_py_world).
  unfold grinning at 1. cbn [filter app].
  assert (Hg : existsb (str_eqb [128512]) E = true).
  { apply existsb_exists. exists grinning. split; [exact Hin | apply str_eqb_refl]. }
  now rewrite Hg.
Qed.

Lemma word_count_hello_general (alnum : Z -> bool) :
  (forall c, is_ascii_letter c = true -> alnum c = true) ->
  alnum 128512 = false ->
  word_count alnum hello_emoji_world = 2.
Proof.
  intros Hletters Hemoji.
  assert (Hkept : filter (kept_by_prep alnum) hello_emoji_world
                  = filter (kept_by_prep ascii_isalnum) hello_emoji_world).
  { apply filter_ext_in. intros c Hc. unfold kept_by_prep, is_word_char.
    destruct (is_ascii_letter c) eqn:Hl.
    - rewrite (Hletters c Hl). unfold ascii_isalnum. now rewrite Hl.
    - simpl in Hc.
      repeat (destruct Hc as [<- | Hc]; [try discriminate Hl |]); try easy.
      + now destruct (alnum 32).
      + now rewrite Hemoji.
      + now destruct (alnum 32). }
  unfold word_count, prep_text. rewrite Hkept. reflexivity.
Qed.

Local Opaque word_count emoji_count unicode_emoji_converter mojibake.

(** C4 (as the code has it). The export holds the text as the program
    expects it, the UTF-8 bytes of the text (U+1F600 between
    [Hello] and [world]) read as Latin-1. Then
    the two records give exactly one cleaned row, in either mode: the
    call record, whose content is null, is dropped by [dropna], and the
    surviving row has the repaired message, word count 2 and emoji
    count 1. (Letters are alphanumeric and the emoji is not; the table
    knows the emoji and no key of it begins with a letter or a space.) *)
Theorem C4_hello_scenario (ext : External) (chat : str) (t : Z) :
  (forall c, is_ascii_letter c = true -> isalnum ext c = true) ->
  isalnum ext 128512 = false ->
  Forall starts_outside_text (EMOJI_DATA ext) ->
  In grinning (EMOJI_DATA ext) ->
  single_folder.clean_messages ext (hello_dir chat t (mojibake hello_emoji_world))
  = inr (mkFrame (Some chat) false true [hello_row ext None t]) /\
  all_folders.clean_messages ext
    [Folder (hello_dir chat t (mojibake hello_emoji_world))]
  = inr (mkFrame None true true [hello_row ext (Some chat) t]).
Proof.
  intros Hletters Hemoji Hout Hin.
  pose proof (word_count_hello_general (isalnum ext) Hletters Hemoji) as Hwc.
  pose proof (emoji_count_hello (EMOJI_DATA ext) Hout Hin) as Hec.
  split.
  - unfold single_folder.clean_messages, hello_dir. simpl.
    unfold convert_Message. simpl. rewrite converter_repairs_hello. simpl.
    unfold add_Word_Count, add_Emoji_Count, zero_Word_Count. simpl.
    rewrite Hwc, Hec. reflexivity.
  - unfold all_folders.clean_messages, hello_dir. simpl.
    unfold convert_Message. simpl. rewrite converter_repairs_hello. simpl.
    unfold add_Word_Count, add_Emoji_Count, zero_Word_Count. simpl.
    rewrite Hwc, Hec. reflexivity.
Qed.

Local Transparent word_count emoji_count unicode_emoji_converter mojibake.

(** With the text itself in the record, the emoji has no Latin-1 byte
    and the run ends in [UnicodeEncodeError]. *)
Lemma C4_counterexample :
  single_folder.clean_messages ext0 (hello_dir (py "Chat") call_T hello_emoji_world)
  = inl UnicodeEncodeError /\
  ~ (exists row,
        single_folder.clean_messages ext0
          (hello_dir (py "Chat") call_T hello_emoji_world)
        = inr (mkFrame (Some (py "Chat")) false true [row]) /\
        Message row = hello_emoji_world /\
        Word_Count row = 2 /\ Emoji_Count row = 1).
Proof.
  split; [vm_compute; reflexivity |].
  intros (row & H & _). vm_compute in H. discriminate.
Qed.

Lemma ext0_letters : forall c, is_ascii_letter c = true -> isalnum ext0 c = true.
Proof. intros c H. simpl. unfold ascii_isalnum. now rewrite H. Qed.

Lemma ext0_outside : Forall starts_outside_text (EMOJI_DATA ext0).
Proof. repeat constructor; discriminate. Qed.

Lemma C4_witness :
  single_folder.clean_messages ext0
    (hello_dir (py "Chat") call_T (mojibake hello_emoji_world))
  = inr (mkFrame (Some (py "Chat")) false true [hello_row ext0 None call_T]) /\
  all_folders.clean_messages ext0
    [Folder (hello_dir (py "Chat") call_T (mojibake hello_emoji_world))]
  = inr (mkFrame None true true [hello_row ext0 (Some (py "Chat")) call_T]).
Proof.
  apply (C4_hello_scenario ext0 (py "Chat") call_T).
  - exact ext0_letters.
  - reflexivity.
  - exact ext0_outside.
  - simpl. auto.
Defined.

(** ** The call-duration column *)

Lemma all_messages_rows (directory : list ExportFile) name df raw :
  single_folder.all_messages directory = inr (mkRawFrame name df) -> In raw df ->
  exists f m, In f directory /\ In m (messages f) /\ raw = mkRawRow None m.
Proof.
  intros H Hin. apply all_messages_inr in H as [_ H]. injection H as _ ->.
  apply in_map_iff in Hin as (r & <- & Hr).
  apply raw_rows_In in Hr as (f & m & Hf & Hm & ->). exists f, m. auto.
Qed.

Lemma no_call_records_column (directory : list ExportFile) name df :
  no_call_records directory ->
  single_folder.all_messages directory = inr (mkRawFrame name df) ->
  column_call_duration df = false.
Proof.
  intros Hno Hdf. unfold column_call_duration.
  destruct (existsb _ df) eqn:E; [| reflexivity].
  apply existsb_exists in E as (raw & Hin & Hraw).
  destruct (all_messages_rows _ _ _ _ Hdf Hin) as (f & m & Hf & Hm & ->).
  simpl in Hraw. now rewrite (Hno f m Hf Hm) in Hraw.
Qed.

(** Single-conversation mode omits the column. *)
Lemma single_omits_call_column ext directory out :
  no_call_records directory ->
  single_folder.clean_messages ext directory = inr out ->
  has_Call_Duration out = false.
Proof.
  intros Hno H.
  apply single_clean_messages_inr in H as (name & df & repaired & Hdf & _ & _ & ->).
  simpl. now apply (no_call_records_column directory name).
Qed.

(** Multi-conversation mode asks for the column by name. *)
Lemma all_folders_need_call_column ext root df :
  all_folders.all_folder root = inr df ->
  column_call_duration df = false ->
  exists missing,
    all_folders.clean_messages ext root = inl (KeyError missing) /\
    In "Call Duration (Sec)"%string missing.
Proof.
  intros Hdf Hc. unfold all_folders.clean_messages. rewrite Hdf. simpl.
  rewrite Hc. destruct (column_content df); simpl; eexists; split;
    try reflexivity; simpl; auto.
Qed.

(** C8. A conversation of two text messages and no call record: the
    single-conversation pipeline returns its two rows in a frame without
    the call-duration column, and the multi-conversation pipeline raises
    [KeyError] on ["Call Duration (Sec)"] for the root that holds the
    same conversation. *)
Theorem C8_all_folders_raise_without_calls :
  single_folder.clean_messages ext0 no_call_dir = inr no_call_frame /\
  has_Call_Duration no_call_frame = false /\
  length (rows no_call_frame) = 2%nat /\
  all_folders.clean_messages ext0 [Folder no_call_dir]
  = inl (KeyError ["Call Duration (Sec)"%string]).
Proof. repeat split; vm_compute; reflexivity. Qed.

(** C9. On every frame without the call-duration column [top_words]
    raises [KeyError] for ["Call Duration (Sec)"], where [message_stats]
    returns its statistics; the cleaned frame of a conversation without
    call records is such a frame. *)
Theorem C9_top_words_KeyError (ext : External) :
  (forall df,
      has_Call_Duration df = false ->
      top_words ext df = inl (KeyError ["Call Duration (Sec)"%string]) /\
      message_stats ext df
      = inr (agg_count_sum
               (map (fun r => set_Message r
                       (join_space (prep_text (isalnum ext) (Message r) false)))
                    (filter (fun r => negb (mask_url r)) (rows df)))
             ++ [total_row false (sender_stats ext df)])) /\
  (forall directory out,
      no_call_records directory ->
      single_folder.clean_messages ext directory = inr out ->
      top_words ext out = inl (KeyError ["Call Duration (Sec)"%string]) /\
      exists stats, message_stats ext out = inr stats).
Proof.
  assert (Hframe : forall df, has_Call_Duration df = false ->
            top_words ext df = inl (KeyError ["Call Duration (Sec)"%string]) /\
            message_stats ext df
            = inr (agg_count_sum
                     (map (fun r => set_Message r
                             (join_space (prep_text (isalnum ext) (Message r) false)))
                          (filter (fun r => negb (mask_url r)) (rows df)))
                   ++ [total_row false (sender_stats ext df)])).
  { intros df H. unfold top_words, message_stats, sender_stats.
    rewrite H. split; reflexivity. }
  split; [exact Hframe |].
  intros directory out Hno H.
  destruct (Hframe out (single_omits_call_column ext directory out Hno H))
    as [Htop Hstats].
  split; [exact Htop | eauto].
Qed.

Lemma no_call_dir_no_calls : no_call_records no_call_dir.
Proof.
  intros f m [<- | []] [<- | [<- | []]]; reflexivity.
Qed.

Lemma C9_witness :
  top_words ext0 no_call_frame = inl (KeyError ["Call Duration (Sec)"%string]) /\
  exists stats, message_stats ext0 no_call_frame = inr stats.
Proof.
  apply (proj2 (C9_top_words_KeyError ext0) no_call_dir no_call_frame).
  - exact no_call_dir_no_calls.
  - vm_compute. reflexivity.
Defined.

(** ** Grouping by sender *)

Lemma str_ltb_irrefl (a : str) : str_ltb a a = false.
Proof.
  induction a as [| x a IH]; simpl; [reflexivity |].
  rewrite Z.ltb_irrefl, Z.eqb_refl, IH. reflexivity.
Qed.

Lemma str_ltb_cons (x y : Z) (a b : str) :
  str_ltb (x :: a) (y :: b) = true <-> x < y \/ (x = y /\ str_ltb a b = true).
Proof.
  simpl. rewrite orb_true_iff, andb_true_iff, Z.ltb_lt, Z.eqb_eq. tauto.
Qed.

Lemma str_ltb_trans (a b c : str) :
  str_ltb a b = true -> str_ltb b c = true -> str_ltb a c = true.
Proof.
  revert b c. induction a as [| x a IH]; intros [| y b] [| z c];
    try discriminate; try reflexivity.
  rewrite !str_ltb_cons. intros [H1 | [-> H1]] [H2 | [-> H2]].
  - left; lia.
  - now left.
  - now left.
  - right. split; [reflexivity |]. now apply (IH b).
Qed.

Lemma str_ltb_total (a b : str) :
  a <> b -> str_ltb a b = false -> str_ltb b a = true.
Proof.
  revert b. induction a as [| x a IH]; intros [| y b] Hne Hlt;
    try congruence; try reflexivity; try discriminate.
  apply str_ltb_cons.
  assert (~ (x < y \/ (x = y /\ str_ltb a b = true))) as Hn
    by (rewrite <- str_ltb_cons; congruence).
  destruct (Z.lt_trichotomy x y) as [H | [H | H]]; [tauto | | left; lia].
  subst y. right. split; [reflexivity |]. apply IH.
  - congruence.
  - destruct (str_ltb a b); [tauto | reflexivity].
Qed.

Lemma insert_key_In (k x : str) (keys : list str) :
  In x (insert_key k keys) <-> x = k \/ In x keys.
Proof.
  induction keys as [| k' keys IH]; simpl; [intuition congruence |].
  destruct (str_eqb k k') eqn:E.
  - apply str_eqb_eq in E. subst k'. simpl. intuition congruence.
  - destruct (str_ltb k k'); simpl; rewrite ?IH; intuition congruence.
Qed.

Lemma insert_key_sorted (k : str) (keys : list str) :
  StronglySorted str_lt keys -> StronglySorted str_lt (insert_key k keys).
Proof.
  induction 1 as [| k' keys Hs IH Hk']; simpl; [repeat constructor |].
  destruct (str_eqb k k') eqn:E; [now constructor |].
  destruct (str_ltb k k') eqn:L.
  - constructor; [now constructor |]. constructor; [exact L |].
    eapply Forall_impl; [| exact Hk']. intros x Hx. exact (str_ltb_trans _ _ _ L Hx).
  - constructor; [exact IH |]. apply Forall_forall. intros x Hx.
    apply insert_key_In in Hx as [-> | Hx].
    + apply str_ltb_total; [| exact L]. intros ->.
      now rewrite str_eqb_refl in E.
    + rewrite Forall_forall in Hk'. now apply Hk'.
Qed.

(** The group keys are the senders of the frame, each once, in Python's
    order on strings. *)
Lemma group_keys_sorted (df : list CanonRow) : StronglySorted str_lt (group_keys df).
Proof.
  unfold group_keys. induction (map Sender df); simpl;
    [constructor | now apply insert_key_sorted].
Qed.

Lemma group_keys_In (k : str) (df : list CanonRow) :
  In k (group_keys df) <-> exists r, In r df /\ Sender r = k.
Proof.
  unfold group_keys. induction df as [| r df IH]; simpl.
  - split; [easy | now intros (r & [] & _)].
  - rewrite insert_key_In, IH. split.
    + intros [-> | (r' & Hr' & <-)]; eauto.
    + intros (r' & [<- | Hr'] & <-); eauto.
Qed.

Lemma StronglySorted_NoDup (keys : list str) :
  StronglySorted str_lt keys -> NoDup keys.
Proof.
  induction 1 as [| k keys _ IH Hk]; constructor; [| exact IH].
  intros Hin. rewrite Forall_forall in Hk. apply Hk in Hin.
  unfold str_lt in Hin. now rewrite str_ltb_irrefl in Hin.
Qed.

Lemma group_keys_NoDup (df : list CanonRow) : NoDup (group_keys df).
Proof. apply StronglySorted_NoDup, group_keys_sorted. Qed.

Lemma sumZ_map_add {A} (f g : A -> Z) (l : list A) :
  sumZ (map (fun a => f a + g a) l) = sumZ (map f l) + sumZ (map g l).
Proof. induction l; simpl; lia. Qed.

Lemma sumZ_indicator (s : str) (v : Z) (keys : list str) :
  NoDup keys -> In s keys ->
  sumZ (map (fun k => if str_eqb s k then v else 0) keys) = v.
Proof.
  induction 1 as [| k keys Hk _ IH]; simpl; [easy |].
  intros [-> | Hin].
  - rewrite str_eqb_refl.
    assert (sumZ (map (fun k => if str_eqb s k then v else 0) keys) = 0) as ->; [| lia].
    clear IH. induction keys as [| k keys IH]; simpl; [reflexivity |].
    destruct (str_eqb s k) eqn:E.
    + apply str_eqb_eq in E. subst k. exfalso. apply Hk. now left.
    + rewrite IH; [reflexivity |]. intros H. apply Hk. now right.
  - destruct (str_eqb s k) eqn:E.
    + apply str_eqb_eq in E. subst k. contradiction.
    + rewrite (IH Hin). lia.
Qed.

(** A sum taken group by group is the sum over the frame. *)
Lemma sum_by_group (g : CanonRow -> Z) (keys : list str) (df : list CanonRow) :
  NoDup keys -> (forall r, In r df -> In (Sender r) keys) ->
  sumZ (map (fun k => sumZ (map g (group k df))) keys) = sumZ (map g df).
Proof.
  intros Hnd. induction df as [| r df IH]; intros Hcover.
  - simpl. clear. induction keys as [| k keys IHk]; simpl; [reflexivity | exact IHk].
  - assert (Hstep : forall k,
              sumZ (map g (group k (r :: df)))
              = (if str_eqb (Sender r) k then g r else 0)
                + sumZ (map g (group k df))).
    { intros k. unfold group. simpl.
      destruct (str_eqb (Sender r) k); reflexivity. }
    rewrite (map_ext _ _ Hstep), sumZ_map_add.
    rewrite sumZ_indicator; [| exact Hnd | apply Hcover; now left].
    rewrite IH by (intros; apply Hcover; now right). reflexivity.
Qed.

Lemma length_as_sum {A} (l : list A) :
  Z.of_nat (length l) = sumZ (map (fun _ => 1) l).
Proof.
  induction l as [| a l IH]; [reflexivity |].
  cbn [length map sumZ fold_right]. fold (sumZ (map (fun _ : A => 1) l)). lia.
Qed.

Lemma agg_count_sum_total (df : list CanonRow) :
  sumZ (map stat_Message (agg_count_sum df)) = Z.of_nat (length df) /\
  sumZ (map stat_Word_Count (agg_count_sum df)) = sumZ (map Word_Count df).
Proof.
  unfold agg_count_sum. rewrite !map_map. simpl. split.
  - rewrite length_as_sum.
    rewrite <- (sum_by_group (fun _ => 1) (group_keys df) df (group_keys_NoDup df)).
    + f_equal. apply map_ext. intros k. apply length_as_sum.
    + intros r Hr. apply group_keys_In. eauto.
  - apply (sum_by_group Word_Count); [apply group_keys_NoDup |].
    intros r Hr. apply group_keys_In. eauto.
Qed.

(** ** [message_stats] *)

Lemma sender_stats_eq ext df :
  sender_stats ext df
  = if has_Call_Duration df
    then assign_call_sum
           (agg_count_sum (filter (fun r => negb (positive_call r)) (stats_rows ext df)))
           (agg_call_sum (stats_rows ext df))
    else agg_count_sum (stats_rows ext df).
Proof. reflexivity. Qed.




Lemma assign_call_sum_columns stats call_sum :
  map stat_Message (assign_call_sum stats call_sum) = map stat_Message stats /\
  map stat_Word_Count (assign_call_sum stats call_sum) = map stat_Word_Count stats /\
  map stat_label (assign_call_sum stats call_sum) = map stat_label stats.
Proof. unfold assign_call_sum. rewrite !map_map. repeat split. Qed.

(** The first half of the statistic on totals: the [Total] row counts
    the rows without URL and without positive call duration. *)
Lemma message_stats_total_count ext df :
  exists stats total,
    message_stats ext df = inr (stats ++ [total]) /\
    stat_label total = Total /\
    stat_Message total
    = Z.of_nat (length (filter (counted_as_message df) (rows df))).
Proof.
  exists (sender_stats ext df),
         (total_row (has_Call_Duration df) (sender_stats ext df)).
  split; [reflexivity |]. split; [reflexivity |].
  unfold total_row. simpl. rewrite sender_stats_eq.
  unfold counted_as_message, stats_rows.
  destruct (has_Call_Duration df); simpl.
  - rewrite (proj1 (assign_call_sum_columns _ _)).
    rewrite (proj1 (agg_count_sum_total _)). f_equal.
    induction (rows df) as [| r l IH]; simpl; [reflexivity |].
    destruct (mask_url r); simpl; [exact IH |].
    change (positive_call (set_Message r _)) with (positive_call r).
    destruct (positive_call r); simpl; [exact IH | now rewrite IH].
  - rewrite (proj1 (agg_count_sum_total _)). f_equal. rewrite length_map.
    f_equal. apply filter_ext. intros r. now rewrite andb_true_r.
Qed.

(** C7. On the cleaned frame of a conversation in which Bob's only row
    is a call of 60 seconds, [message_stats] returns a row for Alice and
    the [Total] row; the total of the call column is 0, while the call
    durations of the frame add up to 60. The message count of [Total], 1,
    is the number of rows without URL and without positive call
    duration. *)
Theorem C7_total_misses_call_seconds :
  single_folder.clean_messages ext0 only_calls_dir = inr only_calls_frame /\
  message_stats ext0 only_calls_frame
  = inr [mkStat alice 1 2 (Some 0); mkStat Total 1 2 (Some 0)] /\
  nansum (map Call_Duration (rows only_calls_frame)) = 60 /\
  length (filter (counted_as_message only_calls_frame) (rows only_calls_frame))
  = 1%nat.
Proof. repeat split; vm_compute; reflexivity. Qed.




(** The frames of the pipelines are well formed. *)
Lemma clean_frames_well_formed (ext : External) :
  (forall directory out,
      single_folder.clean_messages ext directory = inr out -> well_formed out) /\
  (forall root out,
      all_folders.clean_messages ext root = inr out -> well_formed out).
Proof.
  split.
  - intros directory out H r d Hin Hd.
    apply single_clean_messages_inr in H as (name & df & repaired & _ & _ & Hr & ->).
    simpl in *. destruct (column_call_duration df) eqn:Hc; [reflexivity |].
    apply finish_single_In in Hin as (r0 & Hin & (_&_&_&_&_&Hcd) & _).
    rewrite (single_no_call_column ext df repaired r0 Hc Hr Hin) in Hcd.
    congruence.
  - intros root out H r d _ _.
    now apply all_clean_messages_inr in H as (df & repaired & _ & _ & _ & _ & ->).
Qed.



(** * Further properties *)

(** ** Bytes and bits *)

Lemma land_disjoint (hi lo n : Z) :
  0 <= n -> 0 <= lo < 2 ^ n -> Z.land (hi * 2 ^ n) lo = 0.
Proof.
  intros Hn Hlo. apply Z.bits_inj'. intros m Hm.
  rewrite Z.land_spec, Z.bits_0.
  destruct (Z.lt_ge_cases m n) as [Hlt | Hge].
  - rewrite Z.mul_pow2_bits_low by lia. reflexivity.
  - destruct (Z.eq_dec lo 0) as [-> | Hne];
      [rewrite Z.bits_0; apply andb_false_r |].
    rewrite (Z.bits_above_log2 lo m); [apply andb_false_r | lia |].
    apply Z.log2_lt_pow2; [lia |].
    apply Z.lt_le_trans with (2 ^ n); [lia |].
    apply Z.pow_le_mono_r; lia.
Qed.

Lemma lor_add (hi lo n : Z) :
  0 <= n -> 0 <= lo < 2 ^ n -> Z.lor (hi * 2 ^ n) lo = hi * 2 ^ n + lo.
Proof.
  intros Hn Hlo. pose proof (land_disjoint hi lo n Hn Hlo) as H.
  rewrite <- (Z.lxor_lor _ _ H). symmetry. now apply Z.add_nocarry_lxor.
Qed.

Lemma lor_shiftl (hi lo n : Z) :
  0 <= n -> 0 <= lo < 2 ^ n -> Z.lor (Z.shiftl hi n) lo = hi * 2 ^ n + lo.
Proof. intros Hn Hlo. rewrite Z.shiftl_mul_pow2 by lia. now apply lor_add. Qed.

Lemma lor_lead (lead x n : Z) :
  0 <= n -> 0 <= x < 2 ^ n -> Z.lor (lead * 2 ^ n) x = lead * 2 ^ n + x.
Proof. apply lor_add. Qed.

Lemma land_low (x n : Z) : 0 <= n -> Z.land x (Z.ones n) = x mod 2 ^ n.
Proof. apply Z.land_ones. Qed.

Lemma lor_192 (x : Z) : 0 <= x < 64 -> Z.lor 192 x = 192 + x.
Proof. intros H. apply (lor_add 3 x 6); simpl; lia. Qed.

Lemma lor_128 (x : Z) : 0 <= x < 64 -> Z.lor 128 x = 128 + x.
Proof. intros H. apply (lor_add 2 x 6); simpl; lia. Qed.

Lemma lor_224 (x : Z) : 0 <= x < 16 -> Z.lor 224 x = 224 + x.
Proof. intros H. apply (lor_add 14 x 4); simpl; lia. Qed.

Lemma lor_240 (x : Z) : 0 <= x < 8 -> Z.lor 240 x = 240 + x.
Proof. intros H. apply (lor_add 30 x 3); simpl; lia. Qed.

Lemma land_63 (x : Z) : Z.land x 63 = x mod 64.
Proof. apply (Z.land_ones x 6). lia. Qed.

Lemma land_31 (x : Z) : Z.land x 31 = x mod 32.
Proof. apply (Z.land_ones x 5). lia. Qed.

Lemma land_15 (x : Z) : Z.land x 15 = x mod 16.
Proof. apply (Z.land_ones x 4). lia. Qed.

Lemma land_7 (x : Z) : Z.land x 7 = x mod 8.
Proof. apply (Z.land_ones x 3). lia. Qed.

Lemma shiftr_6 (x : Z) : Z.shiftr x 6 = x / 64.
Proof. apply (Z.shiftr_div_pow2 x 6). lia. Qed.

Lemma shiftr_12 (x : Z) : Z.shiftr x 12 = x / 4096.
Proof. apply (Z.shiftr_div_pow2 x 12). lia. Qed.

Lemma shiftr_18 (x : Z) : Z.shiftr x 18 = x / 262144.
Proof. apply (Z.shiftr_div_pow2 x 18). lia. Qed.

Lemma shiftl_lor (hi lo n : Z) (p : Z) :
  0 <= n -> p = 2 ^ n -> 0 <= lo < p -> Z.lor (Z.shiftl hi n) lo = hi * p + lo.
Proof. intros Hn -> Hlo. now apply lor_shiftl. Qed.

(** The four shapes of [utf8_bytes], as sums. *)
Lemma utf8_bytes_1 (c : Z) : c < 128 -> utf8_bytes c = [c].
Proof. intros H. unfold utf8_bytes. destruct (Z.ltb_spec c 128); [reflexivity | lia]. Qed.

Lemma utf8_bytes_2 (c : Z) :
  128 <= c < 2048 -> utf8_bytes c = [192 + c / 64; 128 + c mod 64].
Proof.
  intros H. unfold utf8_bytes.
  destruct (Z.ltb_spec c 128); [lia |]. destruct (Z.ltb_spec c 2048); [| lia].
  rewrite land_63, shiftr_6, lor_192, lor_128 by arith. reflexivity.
Qed.

Lemma utf8_bytes_3 (c : Z) :
  2048 <= c < 65536 ->
  utf8_bytes c = [224 + c / 4096; 128 + (c / 64) mod 64; 128 + c mod 64].
Proof.
  intros H. unfold utf8_bytes.
  destruct (Z.ltb_spec c 128); [lia |]. destruct (Z.ltb_spec c 2048); [lia |].
  destruct (Z.ltb_spec c 65536); [| lia].
  rewrite !land_63, shiftr_6, shiftr_12, lor_224, !lor_128 by arith. reflexivity.
Qed.

Lemma utf8_bytes_4 (c : Z) :
  65536 <= c < 2097152 ->
  utf8_bytes c = [240 + c / 262144; 128 + (c / 4096) mod 64;
                  128 + (c / 64) mod 64; 128 + c mod 64].
Proof.
  intros H. unfold utf8_bytes.
  destruct (Z.ltb_spec c 128); [lia |]. destruct (Z.ltb_spec c 2048); [lia |].
  destruct (Z.ltb_spec c 65536); [lia |].
  rewrite !land_63, shiftr_6, shiftr_12, shiftr_18, lor_240, !lor_128 by arith.
  reflexivity.
Qed.

(** One step of [decode_utf8] for each length of sequence. *)
Lemma decode_1 (b0 : Z) (t : list Z) :
  b0 < 128 -> decode_utf8 (b0 :: t) = option_map (cons b0) (decode_utf8 t).
Proof. intros H. simpl. destruct (Z.ltb_spec b0 128); [reflexivity | lia]. Qed.

Lemma decode_2 (b0 b1 : Z) (t : list Z) :
  194 <= b0 < 224 -> 128 <= b1 < 192 ->
  decode_utf8 (b0 :: b1 :: t)
  = option_map (cons ((b0 - 192) * 64 + (b1 - 128))) (decode_utf8 t).
Proof.
  intros H0 H1. cbn [decode_utf8]. unfold is_cont, cont_bits.
  destruct (Z.ltb_spec b0 128); [lia |]. destruct (Z.ltb_spec b0 194); [lia |].
  destruct (Z.ltb_spec b0 224); [| lia].
  destruct (Z.leb_spec 128 b1); [| lia]. destruct (Z.leb_spec b1 191); [| lia].
  cbn [andb]. rewrite land_31, land_63.
  rewrite (shiftl_lor _ _ 6 64) by (try reflexivity; arith).
  f_equal. f_equal. arith.
Qed.

Lemma decode_3 (b0 b1 b2 : Z) (t : list Z) :
  224 <= b0 < 240 -> 128 <= b1 < 192 -> 128 <= b2 < 192 ->
  (b0 = 224 -> 160 <= b1) -> (b0 = 237 -> b1 <= 159) ->
  decode_utf8 (b0 :: b1 :: b2 :: t)
  = option_map (cons ((b0 - 224) * 4096 + (b1 - 128) * 64 + (b2 - 128)))
               (decode_utf8 t).
Proof.
  intros H0 H1 H2 Hlow Hsur. cbn [decode_utf8]. unfold is_cont, cont_bits.
  destruct (Z.ltb_spec b0 128); [lia |]. destruct (Z.ltb_spec b0 194); [lia |].
  destruct (Z.ltb_spec b0 224); [lia |]. destruct (Z.ltb_spec b0 240); [| lia].
  destruct (Z.leb_spec 128 b1); [| lia]. destruct (Z.leb_spec b1 191); [| lia].
  destruct (Z.leb_spec 128 b2); [| lia]. destruct (Z.leb_spec b2 191); [| lia].
  cbn [andb].
  replace (if b0 =? 224 then 160 <=? b1 else true) with true
    by (destruct (Z.eqb_spec b0 224); [symmetry; apply Z.leb_le; auto | reflexivity]).
  replace (if b0 =? 237 then b1 <=? 159 else true) with true
    by (destruct (Z.eqb_spec b0 237); [symmetry; apply Z.leb_le; auto | reflexivity]).
  cbn [andb]. rewrite land_15, !land_63.
  rewrite (shiftl_lor _ _ 6 64) by (try reflexivity; arith).
  rewrite (shiftl_lor _ _ 12 4096) by (try reflexivity; arith).
  f_equal. f_equal. arith.
Qed.

Lemma decode_4 (b0 b1 b2 b3 : Z) (t : list Z) :
  240 <= b0 < 245 -> 128 <= b1 < 192 -> 128 <= b2 < 192 -> 128 <= b3 < 192 ->
  (b0 = 240 -> 144 <= b1) -> (b0 = 244 -> b1 <= 143) ->
  decode_utf8 (b0 :: b1 :: b2 :: b3 :: t)
  = option_map (cons ((b0 - 240) * 262144 + (b1 - 128) * 4096
                      + (b2 - 128) * 64 + (b3 - 128)))
               (decode_utf8 t).
Proof.
  intros H0 H1 H2 H3 Hlow Hmax. cbn [decode_utf8]. unfold is_cont, cont_bits.
  destruct (Z.ltb_spec b0 128); [lia |]. destruct (Z.ltb_spec b0 194); [lia |].
  destruct (Z.ltb_spec b0 224); [lia |]. destruct (Z.ltb_spec b0 240); [lia |].
  destruct (Z.ltb_spec b0 245); [| lia].
  destruct (Z.leb_spec 128 b1); [| lia]. destruct (Z.leb_spec b1 191); [| lia].
  destruct (Z.leb_spec 128 b2); [| lia]. destruct (Z.leb_spec b2 191); [| lia].
  destruct (Z.leb_spec 128 b3); [| lia]. destruct (Z.leb_spec b3 191); [| lia].
  cbn [andb].
  replace (if b0 =? 240 then 144 <=? b1 else true) with true
    by (destruct (Z.eqb_spec b0 240); [symmetry; apply Z.leb_le; auto | reflexivity]).
  replace (if b0 =? 244 then b1 <=? 143 else true) with true
    by (destruct (Z.eqb_spec b0 244); [symmetry; apply Z.leb_le; auto | reflexivity]).
  cbn [andb]. rewrite land_7, !land_63.
  rewrite (shiftl_lor _ _ 6 64) by (try reflexivity; arith).
  rewrite (shiftl_lor _ _ 12 4096) by (try reflexivity; arith).
  rewrite (shiftl_lor _ _ 18 262144) by (try reflexivity; arith).
  f_equal. f_equal. arith.
Qed.

Lemma encode_latin1_ok (s : str) :
  Forall is_latin1 s -> encode_latin1 s = Some s.
Proof.
  induction 1 as [| c s Hc _ IH]; simpl; [reflexivity |].
  unfold is_latin1 in Hc.
  destruct (Z.leb_spec 0 c); [| lia]. destruct (Z.leb_spec c 255); [| lia].
  simpl. now rewrite IH.
Qed.

Lemma encode_latin1_Some (s bs : str) :
  encode_latin1 s = Some bs -> bs = s /\ Forall is_latin1 s.
Proof.
  revert bs. induction s as [| c s IH]; simpl; intros bs H.
  - injection H as <-. split; constructor.
  - destruct (Z.leb_spec 0 c); [| discriminate].
    destruct (Z.leb_spec c 255); [| discriminate]. simpl in H.
    destruct (encode_latin1 s) as [bs' |]; [| discriminate].
    injection H as <-. destruct (IH bs' eq_refl) as [-> Hs].
    split; [reflexivity |]. constructor; [unfold is_latin1; lia | exact Hs].
Qed.

Lemma encode_latin1_None (s : str) :
  encode_latin1 s = None <-> Exists (fun c => ~ is_latin1 c) s.
Proof.
  split.
  - induction s as [| c s IH]; simpl; [discriminate |].
    destruct (Z.leb_spec 0 c); [| intros _; left; unfold is_latin1; lia].
    destruct (Z.leb_spec c 255); [| intros _; left; unfold is_latin1; lia].
    simpl. destruct (encode_latin1 s); [discriminate |]. intros _. right. auto.
  - intros H. destruct (encode_latin1 s) as [bs |] eqn:E; [| reflexivity].
    apply encode_latin1_Some in E as [_ Hs].
    apply Exists_exists in H as (c & Hin & Hc).
    rewrite Forall_forall in Hs. now apply Hs in Hin.
Qed.

Lemma utf8_bytes_latin1 (c : Z) : is_scalar c -> Forall is_latin1 (utf8_bytes c).
Proof.
  intros Hc. unfold is_scalar in Hc.
  destruct (Z.lt_ge_cases c 128); [rewrite utf8_bytes_1 by lia |
  destruct (Z.lt_ge_cases c 2048); [rewrite utf8_bytes_2 by lia |
  destruct (Z.lt_ge_cases c 65536); [rewrite utf8_bytes_3 by lia |
                                     rewrite utf8_bytes_4 by lia]]];
    repeat constructor; unfold is_latin1; arith.
Qed.

Lemma decode_utf8_bytes (c : Z) (t : list Z) :
  is_scalar c ->
  decode_utf8 (utf8_bytes c ++ t) = option_map (cons c) (decode_utf8 t).
Proof.
  intros Hc. unfold is_scalar in Hc.
  destruct (Z.lt_ge_cases c 128);
    [| destruct (Z.lt_ge_cases c 2048); [| destruct (Z.lt_ge_cases c 65536)]].
  - rewrite utf8_bytes_1 by lia. apply decode_1. lia.
  - rewrite utf8_bytes_2 by lia. cbn [app].
    rewrite decode_2 by arith. f_equal. f_equal. arith.
  - rewrite utf8_bytes_3 by lia. cbn [app].
    rewrite decode_3 by arith. f_equal. f_equal. arith.
  - rewrite utf8_bytes_4 by lia. cbn [app].
    rewrite decode_4 by arith. f_equal. f_equal. arith.
Qed.

Lemma decode_mojibake (s : str) :
  Forall is_scalar s -> decode_utf8 (mojibake s) = Some s.
Proof.
  induction 1 as [| c s Hc _ IH]; [reflexivity |].
  unfold mojibake in *. cbn [flat_map].
  rewrite decode_utf8_bytes by exact Hc. now rewrite IH.
Qed.

Lemma mojibake_latin1 (s : str) :
  Forall is_scalar s -> Forall is_latin1 (mojibake s).
Proof.
  induction 1 as [| c s Hc _ IH]; [constructor |].
  unfold mojibake in *. cbn [flat_map]. apply Forall_app. split; [| exact IH].
  now apply utf8_bytes_latin1.
Qed.

(** X1. Round trip of the repair. For every text made of Unicode scalar
    values, the form an export holds for it (its UTF-8 bytes, one
    character per byte) is repaired to the text itself. *)
Theorem converter_repairs_mojibake (s : str) :
  Forall is_scalar s -> unicode_emoji_converter (mojibake s) = inr s.
Proof.
  intros Hs. unfold unicode_emoji_converter.
  rewrite (encode_latin1_ok _ (mojibake_latin1 s Hs)).
  now rewrite (decode_mojibake s Hs).
Qed.

Lemma decode_utf8_head (bs t : list Z) :
  decode_utf8 bs = Some t -> bs <> [] -> exists rest, utf8_head bs rest.
Proof.
  intros H Hne. destruct bs as [| b0 t0]; [congruence |].
  cbn [decode_utf8] in H. unfold is_cont in H.
  destruct (Z.ltb_spec b0 128); [eexists; now apply head_1 |].
  destruct (Z.ltb_spec b0 194); [discriminate |].
  destruct (Z.ltb_spec b0 224).
  { destruct t0 as [| b1 t1]; [discriminate |]. split_tests H.
    eexists. apply head_2; lia. }
  destruct (Z.ltb_spec b0 240).
  { destruct t0 as [| b1 [| b2 t2]]; try discriminate. split_tests H;
    eexists; apply head_3; lia. }
  destruct (Z.ltb_spec b0 245); [| discriminate].
  destruct t0 as [| b1 [| b2 [| b3 t3]]]; try discriminate. split_tests H;
    eexists; apply head_4; lia.
Qed.

Lemma option_map_Some {A B} (f : A -> B) (o : option A) (b : B) :
  option_map f o = Some b -> exists a, o = Some a /\ b = f a.
Proof. destruct o; simpl; intros H; [injection H as <-; eauto | discriminate]. Qed.

Lemma decode_utf8_inverse_bounded (n : nat) (bs t : list Z) :
  (length bs <= n)%nat -> Forall is_latin1 bs -> decode_utf8 bs = Some t ->
  mojibake t = bs /\ Forall is_scalar t.
Proof.
  revert bs t. induction n as [| n IH]; intros bs t Hlen Hlat H.
  - destruct bs; [| simpl in Hlen; lia]. injection H as <-. split; constructor.
  - destruct bs as [| b t0] eqn:Ebs.
    { injection H as <-. split; constructor. }
    rewrite <- Ebs in *.
    destruct (decode_utf8_head bs t H) as (rest & Hhead); [congruence |].
    destruct Hhead as [b0 r Hb0 | b0 b1 r Hb0 Hb1 | b0 b1 b2 r Hb0 Hb1 Hb2 Hl Hs
                       | b0 b1 b2 b3 r Hb0 Hb1 Hb2 Hb3 Hl Hmax].
    + rewrite decode_1 in H by exact Hb0.
      apply option_map_Some in H as (t' & Ht' & ->).
      inversion Hlat as [| ? ? Hlat0 Hlatr]; subst.
      destruct (IH r t') as [Hm Hsc]; [simpl in Hlen; lia | exact Hlatr | exact Ht' |].
      unfold mojibake in *. cbn [flat_map]. rewrite Hm, utf8_bytes_1 by exact Hb0.
      split; [reflexivity |]. constructor; [| exact Hsc].
      unfold is_latin1 in Hlat0. unfold is_scalar. lia.
    + rewrite decode_2 in H by assumption.
      apply option_map_Some in H as (t' & Ht' & ->).
      assert (Hlatr : Forall is_latin1 r) by (now inversion Hlat as [| ? ? _ X]; inversion X).
      destruct (IH r t') as [Hm Hsc]; [simpl in Hlen; lia | exact Hlatr | exact Ht' |].
      unfold mojibake in *. cbn [flat_map]. rewrite Hm, utf8_bytes_2 by lia.
      split; [cbn [app]; f_equal; [| f_equal]; arith |].
      constructor; [unfold is_scalar; lia | exact Hsc].
    + rewrite decode_3 in H by assumption.
      apply option_map_Some in H as (t' & Ht' & ->).
      assert (Hlatr : Forall is_latin1 r)
        by (now inversion Hlat as [| ? ? _ X]; inversion X as [| ? ? _ Y]; inversion Y).
      destruct (IH r t') as [Hm Hsc]; [simpl in Hlen; lia | exact Hlatr | exact Ht' |].
      unfold mojibake in *. cbn [flat_map]. rewrite Hm, utf8_bytes_3 by lia.
      split; [cbn [app]; f_equal; [| f_equal; [| f_equal]]; arith |].
      constructor; [unfold is_scalar; lia | exact Hsc].
    + rewrite decode_4 in H by assumption.
      apply option_map_Some in H as (t' & Ht' & ->).
      assert (Hlatr : Forall is_latin1 r)
        by (now inversion Hlat as [| ? ? _ X]; inversion X as [| ? ? _ Y];
            inversion Y as [| ? ? _ W]; inversion W).
      destruct (IH r t') as [Hm Hsc]; [simpl in Hlen; lia | exact Hlatr | exact Ht' |].
      unfold mojibake in *. cbn [flat_map]. rewrite Hm, utf8_bytes_4 by lia.
      split; [cbn [app]; f_equal; [| f_equal; [| f_equal; [| f_equal]]]; arith |].
      constructor; [unfold is_scalar; lia | exact Hsc].
Qed.

(** X2. A repair that succeeds loses nothing: the text it returns is made of
    Unicode scalar values and its UTF-8 bytes, one character per byte,
    are the input; so two inputs with the same repaired text are equal. *)
Theorem converter_lossless (s t : str) :
  unicode_emoji_converter s = inr t -> mojibake t = s /\ Forall is_scalar t.
Proof.
  unfold unicode_emoji_converter. intros H.
  destruct (encode_latin1 s) as [bs |] eqn:E; [| discriminate].
  apply encode_latin1_Some in E as [-> Hlat].
  destruct (decode_utf8 s) as [t' |] eqn:D; [| discriminate].
  injection H as <-. now apply (decode_utf8_inverse_bounded (length s)).
Qed.

Lemma converter_lossless_witness :
  mojibake hello_emoji_world = mojibake hello_emoji_world /\
  Forall is_scalar hello_emoji_world.
Proof.
  apply (converter_lossless (mojibake hello_emoji_world) hello_emoji_world).
  vm_compute. reflexivity.
Defined.

Lemma hello_scalar : Forall is_scalar hello_emoji_world.
Proof. repeat constructor; unfold is_scalar; lia. Qed.

Lemma converter_repairs_mojibake_witness :
  unicode_emoji_converter (mojibake hello_emoji_world) = inr hello_emoji_world.
Proof. apply (converter_repairs_mojibake hello_emoji_world hello_scalar). Defined.

Lemma mojibake_ascii (s : str) : Forall is_ascii s -> mojibake s = s.
Proof.
  induction 1 as [| c s Hc _ IH]; [reflexivity |].
  unfold mojibake in *. cbn [flat_map]. rewrite IH.
  unfold is_ascii in Hc. now rewrite utf8_bytes_1 by lia.
Qed.

(** X3. How the repair fails or passes. It raises [UnicodeEncodeError]
    exactly when the text has a character outside Latin-1; any other
    failure is a [UnicodeDecodeError]; a text of ASCII characters only is
    returned as it is. *)
Theorem converter_errors (s : str) :
  (unicode_emoji_converter s = inl UnicodeEncodeError
   <-> Exists (fun c => ~ is_latin1 c) s) /\
  (forall e, unicode_emoji_converter s = inl e ->
             e = UnicodeEncodeError \/ e = UnicodeDecodeError) /\
  (Forall is_ascii s -> unicode_emoji_converter s = inr s).
Proof.
  split; [| split].
  - rewrite <- encode_latin1_None. unfold unicode_emoji_converter. split.
    + destruct (encode_latin1 s); [| reflexivity].
      destruct (decode_utf8 l); discriminate.
    + now intros ->.
  - intros e. unfold unicode_emoji_converter.
    destruct (encode_latin1 s); [destruct (decode_utf8 l) |];
      intros H; inversion H; auto.
  - intros H.
    assert (Hs : Forall is_scalar s)
      by (eapply Forall_impl; [| exact H]; unfold is_ascii, is_scalar; lia).
    rewrite <- (mojibake_ascii s H) at 1. unfold unicode_emoji_converter.
    rewrite (encode_latin1_ok _ (mojibake_latin1 s Hs)).
    now rewrite (decode_mojibake s Hs).
Qed.

Lemma converter_errors_witness :
  unicode_emoji_converter hello_emoji_world = inl UnicodeEncodeError /\
  (UnicodeDecodeError = UnicodeEncodeError \/ UnicodeDecodeError = UnicodeDecodeError) /\
  unicode_emoji_converter url_message = inr url_message.
Proof.
  split; [| split].
  - apply (proj1 (converter_errors hello_emoji_world)).
    apply Exists_exists. exists 128512. split; [simpl; auto 10 |].
    unfold is_latin1. lia.
  - apply (proj1 (proj2 (converter_errors cafe)) UnicodeDecodeError).
    vm_compute. reflexivity.
  - apply (proj2 (proj2 (converter_errors url_message))).
    repeat constructor; unfold is_ascii; lia.
Defined.

(** ** Loading, in full *)

Lemma unanimous_name_agree (files : list ExportFile) (t : str) :
  files <> [] -> (forall f, In f files -> title f = t) ->
  unanimous_name (map (fun f => Some (title f)) files) = Some t.
Proof.
  destruct files as [| f0 rest]; [congruence |]. intros _ H. cbn [map unanimous_name].
  rewrite (H f0) by now left.
  assert (E : forallb (name_eqb (Some t)) (map (fun f => Some (title f)) rest) = true).
  { apply forallb_forall. intros n Hn. apply in_map_iff in Hn as (f & <- & Hf).
    rewrite (H f) by now right. apply str_eqb_refl. }
  now rewrite E.
Qed.

Lemma unanimous_name_disagree (files : list ExportFile) (f g : ExportFile) :
  In f files -> In g files -> title f <> title g ->
  unanimous_name (map (fun f => Some (title f)) files) = None.
Proof.
  destruct files as [| f0 rest]; [contradiction |]. intros Hf Hg Hne.
  cbn [map unanimous_name].
  destruct (forallb _ _) eqn:E; [exfalso | reflexivity].
  assert (Hall : forall h, In h (f0 :: rest) -> title h = title f0).
  { intros h [<- | Hh]; [reflexivity |].
    rewrite forallb_forall in E.
    specialize (E (Some (title h)) (in_map (fun f => Some (title f)) rest h Hh)).
    cbn [name_eqb] in E. apply str_eqb_eq in E. congruence. }
  apply Hne. now rewrite (Hall f Hf), (Hall g Hg).
Qed.

(** X4. What [all_messages] of single-conversation mode returns. An
    empty folder ends in [ValueError], a file without messages in
    [KeyError] on [timestamp_ms]; otherwise the frame holds the messages
    of all files, file after file, with no column [Title], and its index
    bears the title of the files when they all have the same, and no
    name as soon as two of them differ. *)
Theorem all_messages_spec (directory : list ExportFile) :
  (directory = [] -> single_folder.all_messages directory = inl ValueError) /\
  (Exists (fun f => messages f = []) directory ->
   single_folder.all_messages directory = inl (KeyError ["timestamp_ms"%string])) /\
  (loadable directory ->
   exists df,
     single_folder.all_messages directory = inr df /\
     map row_message (raw_body df) = flat_map messages directory /\
     Forall (fun r => row_title r = None) (raw_body df) /\
     (forall t, (forall f, In f directory -> title f = t) -> raw_name df = Some t) /\
     (forall f g, In f directory -> In g directory -> title f <> title g ->
                  raw_name df = None)) /\
  (forall df, single_folder.all_messages directory = inr df -> loadable directory).
Proof.
  split; [now intros -> | split; [apply all_messages_empty_file | split]].
  - intros Hl. exists (single_frame directory).
    split; [now apply all_messages_loadable |]. cbn [single_frame raw_name raw_body].
    split; [| split; [| split]].
    + rewrite map_map. unfold raw_rows. clear.
      induction directory as [| f files IH]; [reflexivity |].
      cbn [flat_map]. rewrite map_app, map_map, IH. cbn [untitled row_message].
      now rewrite map_id.
    + apply Forall_forall. intros r Hr.
      now apply in_map_iff in Hr as (r0 & <- & _).
    + intros t. apply unanimous_name_agree. exact (proj1 Hl).
    + apply unanimous_name_disagree.
  - intros df H. now apply all_messages_inr in H.
Qed.

Lemma all_messages_witness_loadable : loadable mixed_dir.
Proof. split; [discriminate | repeat constructor; discriminate]. Qed.

Lemma all_messages_spec_witness :
  single_folder.all_messages [] = inl ValueError /\
  single_folder.all_messages [mkFile (py "Chat") []]
  = inl (KeyError ["timestamp_ms"%string]) /\
  (exists df,
     single_folder.all_messages mixed_dir = inr df /\
     map row_message (raw_body df) = flat_map messages mixed_dir /\
     raw_name df = None) /\
  loadable media_only.
Proof.
  split; [| split; [| split]].
  - now apply (proj1 (all_messages_spec [])).
  - apply (proj1 (proj2 (all_messages_spec [mkFile (py "Chat") []]))).
    now left.
  - destruct (proj1 (proj2 (proj2 (all_messages_spec mixed_dir)))
                all_messages_witness_loadable)
      as (df & Hdf & Hbody & _ & _ & Hname).
    exists df. split; [exact Hdf | split; [exact Hbody |]].
    apply (Hname (nth 0 mixed_dir (mkFile [] [])) (nth 1 mixed_dir (mkFile [] [])));
      [now left | right; now left | discriminate].
  - apply (proj2 (proj2 (proj2 (all_messages_spec media_only)))
             (mkRawFrame (Some (py "Chat")) media_only_raw)).
    vm_compute. reflexivity.
Defined.

(** X5. What [all_folder] returns. It succeeds exactly when the root has a
    folder and every folder of it can be loaded, and then the frame holds
    the conversations folder after folder, each row with the title of
    its file; stray files play no part; a folder without export files
    makes the whole load fail; and a root with one folder gives the
    messages, or the exception, that single-conversation mode gives for
    that folder. *)
Theorem all_folder_spec (root : list DirEntry) :
  (forall df,
      all_folders.all_folder root = inr df <->
      all_folders.subdirectories root <> [] /\
      Forall loadable (all_folders.subdirectories root) /\
      df = flat_map raw_rows (all_folders.subdirectories root)) /\
  (In (Folder []) root -> raises (all_folders.all_folder root)) /\
  (forall files,
      (df <- all_folders.all_folder [Folder files] ;; ret (map row_message df))
      = (df <- single_folder.all_messages files ;;
         ret (map row_message (raw_body df)))).
Proof.
  pose proof (all_folder_inr root) as Hiff.
  split; [exact Hiff | split].
  - intros Hin.
    assert (Hno : forall df, all_folders.all_folder root <> inr df).
    { intros df E. apply Hiff in E as (_ & Hall & _). rewrite Forall_forall in Hall.
      destruct (Hall [] (subdirectories_In root [] Hin)) as [Hne _]. congruence. }
    destruct (all_folders.all_folder root) as [e | df]; [now exists e |].
    now destruct (Hno df).
  - intros files. unfold all_folders.all_folder.
    cbn [all_folders.subdirectories flat_map app apply_rows].
    destruct files as [| f0 rest]; [reflexivity |].
    destruct (all_empty_or_not (f0 :: rest)) as [Hall | Hex].
    + assert (Hl : loadable (f0 :: rest)) by (split; [discriminate | exact Hall]).
      rewrite (multi_all_messages_loadable _ Hl), (all_messages_loadable _ Hl).
      cbn [bind ret concat_frames List.concat single_frame raw_body].
      rewrite app_nil_r, map_map. reflexivity.
    + rewrite (multi_all_messages_empty_file _ Hex), (all_messages_empty_file _ Hex).
      reflexivity.
Qed.

Lemma two_chats_loadable : Forall loadable (all_folders.subdirectories two_chats).
Proof.
  repeat constructor; try discriminate.
Qed.

Lemma all_folder_spec_witness :
  all_folders.all_folder two_chats
  = inr (flat_map raw_rows (all_folders.subdirectories two_chats)) /\
  raises (all_folders.all_folder [Folder call_dir; Folder []]).
Proof.
  split.
  - apply (proj1 (all_folder_spec two_chats)).
    split; [discriminate | split; [exact two_chats_loadable | reflexivity]].
  - apply (proj1 (proj2 (all_folder_spec [Folder call_dir; Folder []]))).
    simpl. auto.
Defined.

(** ** The rows of the cleaned frame *)

Lemma finish_single_rows ext has_call repaired :
  finish_single ext has_call repaired
  = map (final_row ext has_call)
        (if has_call then filter nonzero_call repaired else repaired).
Proof.
  unfold finish_single, final_row. destruct has_call.
  - rewrite !map_map. induction repaired as [| r l IH]; [reflexivity |].
    simpl. change (nonzero_call (add_Word_Count ext r)) with (nonzero_call r).
    destruct (nonzero_call r); simpl; now rewrite IH.
  - now rewrite !map_map.
Qed.

Lemma final_row_fields ext has_call r :
  same_keys r (final_row ext has_call r) /\
  Message (final_row ext has_call r) = Message r /\
  Emoji_Count (final_row ext has_call r) = emoji_count (EMOJI_DATA ext) (Message r) /\
  Word_Count (final_row ext has_call r)
  = if (has_call && mask_call_duration r) || mask_url r then 0
    else word_count (isalnum ext) (Message r).
Proof.
  unfold final_row, zero_Word_Count, mask_url, mask_call_duration.
  destruct has_call; simpl;
    destruct (Call_Duration r) as [d |]; simpl;
    try destruct (0 <=? d); simpl;
    destruct (contains http (Message r)); simpl; repeat split.
Qed.

Lemma sort_values_perm {A} (leb : A -> A -> bool) (l : list A) :
  Permutation (sort_values leb l) l.
Proof.
  induction l as [| x l IH]; simpl; [constructor |].
  transitivity (x :: sort_values leb l); [| now constructor].
  clear IH. induction (sort_values leb l) as [| y s IH]; simpl; [reflexivity |].
  destruct (leb x y); [reflexivity |].
  transitivity (y :: x :: s); [now constructor | constructor].
Qed.

Lemma filter_length_perm {A} (p : A -> bool) (l l' : list A) :
  Permutation l l' -> length (filter p l) = length (filter p l').
Proof.
  induction 1 as [| x l l' _ IH | x y l | l l' l'' _ IH1 _ IH2]; simpl.
  - reflexivity.
  - destruct (p x); simpl; now rewrite IH.
  - destruct (p x), (p y); reflexivity.
  - congruence.
Qed.

Lemma filter_length_Forall2 {A B} (Q : A -> B -> Prop) (p : A -> bool)
    (q : B -> bool) (l : list A) (l' : list B) :
  (forall a b, Q a b -> q b = p a) -> Forall2 Q l l' ->
  length (filter q l') = length (filter p l).
Proof.
  intros Hpq. induction 1 as [| a b l l' Hab _ IH]; [reflexivity |]. simpl.
  rewrite (Hpq a b Hab). destruct (p a); simpl; now rewrite IH.
Qed.

Lemma nonzero_call_keys a b : same_keys a b -> nonzero_call b = nonzero_call a.
Proof. intros (_&_&_&_&_&H). unfold nonzero_call. now rewrite H. Qed.

Lemma dropna_eligible_length ext with_title (df : list RawRow) :
  length (filter nonzero_call
            (dropna_Message ext with_title (filter all_purge_columns_nan df)))
  = length (filter eligible df).
Proof.
  induction df as [| r df IH]; [reflexivity |]. simpl.
  change (eligible r) with
    (all_purge_columns_nan r
     && match content (row_message r) with Some _ => true | None => false end
     && match call_duration (row_message r) with
        | Some d => negb (d =? 0)
        | None => true
        end).
  destruct (all_purge_columns_nan r); simpl; [| exact IH].
  destruct (content (row_message r)); simpl; [| exact IH].
  unfold nonzero_call at 1. simpl.
  destruct (call_duration (row_message r)) as [d |]; simpl;
    [destruct (d =? 0); simpl |]; now rewrite IH.
Qed.

Lemma repaired_length_nonzero leb ext with_title (df : list RawRow) repaired :
  apply_rows convert_Message
    (sort_values leb (dropna_Message ext with_title (filter all_purge_columns_nan df)))
  = inr repaired ->
  length (filter nonzero_call repaired) = length (filter eligible df).
Proof.
  intros H. apply apply_rows_inr in H.
  rewrite (filter_length_Forall2 _ nonzero_call nonzero_call _ _
             (fun a b Hab => nonzero_call_keys a b (proj1 (convert_Message_inr a b Hab)))
             H).
  rewrite (filter_length_perm _ _ _ (sort_values_perm leb _)).
  apply dropna_eligible_length.
Qed.

Lemma filter_all_true {A} (p : A -> bool) (l : list A) :
  (forall a, In a l -> p a = true) -> filter p l = l.
Proof.
  induction l as [| a l IH]; intros H; [reflexivity |]. simpl.
  rewrite (H a) by now left. f_equal. apply IH. intros; apply H; now right.
Qed.

(** ** Empty inputs *)

Lemma apply_rows_total {A B} (f : A -> result B) (l : list A) :
  (forall a, In a l -> exists b, f a = inr b) ->
  exists bs, apply_rows f l = inr bs.
Proof.
  induction l as [| a l IH]; intros H; [now exists [] |].
  destruct (H a (or_introl eq_refl)) as [b Hb].
  destruct IH as [bs Hbs]; [intros; apply H; now right |].
  exists (b :: bs). simpl. rewrite Hb. simpl. now rewrite Hbs.
Qed.

(** The repair goes through when every text that reaches it can be
    repaired. *)
Lemma repair_total ext with_title leb (df : list RawRow) :
  (forall r text, In r df -> all_purge_columns_nan r = true ->
                  content (row_message r) = Some text ->
                  exists t, unicode_emoji_converter text = inr t) ->
  exists repaired,
    apply_rows convert_Message
      (sort_values leb
         (dropna_Message ext with_title (filter all_purge_columns_nan df)))
    = inr repaired.
Proof.
  intros H. apply apply_rows_total. intros a Ha.
  apply sort_values_In in Ha.
  apply dropna_Message_In in Ha as (raw & text & Hraw & Hc & ->).
  apply filter_In in Hraw as [Hin Hp].
  destruct (H raw text Hin Hp Hc) as [t Ht].
  eexists. unfold convert_Message. cbn [Message]. rewrite Ht. reflexivity.
Qed.

Lemma none_eligible_nil leb ext with_title (df : list RawRow) repaired :
  apply_rows convert_Message
    (sort_values leb (dropna_Message ext with_title (filter all_purge_columns_nan df)))
  = inr repaired ->
  (forall r, In r df -> eligible r = false) ->
  filter nonzero_call repaired = [].
Proof.
  intros Hr Hnone. apply length_zero_iff_nil.
  rewrite (repaired_length_nonzero leb ext with_title df repaired Hr).
  now rewrite (filter_none eligible df Hnone).
Qed.

(** C3 (as the code has it). A root without a usable subdirectory makes
    [pd.concat] raise [ValueError]: [all_folder] and [clean_messages]
    return no frame. When the load succeeds with the columns [content]
    and [call_duration] present, every text that reaches the repair can
    be repaired, and cleaning leaves no message (each record has another
    field, or no content, or a call duration of 0), the cleaned frame is
    the empty one; likewise in single-conversation mode, which only needs
    [content]. *)
Theorem C3_empty_inputs (ext : External) :
  (forall root,
      all_folders.subdirectories root = [] ->
      all_folders.all_folder root = inl ValueError /\
      all_folders.clean_messages ext root = inl ValueError) /\
  (forall root df,
      all_folders.all_folder root = inr df ->
      column_content df = true -> column_call_duration df = true ->
      (forall r text, In r df -> all_purge_columns_nan r = true ->
                      content (row_message r) = Some text ->
                      exists t, unicode_emoji_converter text = inr t) ->
      (forall r, In r df -> eligible r = false) ->
      all_folders.clean_messages ext root = inr (mkFrame None true true [])) /\
  (forall directory name df,
      single_folder.all_messages directory = inr (mkRawFrame name df) ->
      column_content df = true ->
      (forall r text, In r df -> all_purge_columns_nan r = true ->
                      content (row_message r) = Some text ->
                      exists t, unicode_emoji_converter text = inr t) ->
      (forall r, In r df -> eligible r = false) ->
      single_folder.clean_messages ext directory
      = inr (mkFrame name false (column_call_duration df) [])).
Proof.
  split; [| split].
  - intros root H. unfold all_folders.clean_messages, all_folders.all_folder.
    rewrite H. split; reflexivity.
  - intros root df Hdf Hc Hd Hrep Hnone.
    destruct (repair_total ext true all_folders.by_date_time df Hrep)
      as [repaired Hr].
    rewrite (all_clean_messages_eq ext root df repaired Hdf Hc Hd Hr).
    rewrite finish_all_eq, finish_single_rows.
    now rewrite (none_eligible_nil _ _ _ _ _ Hr Hnone).
  - intros directory name df Hdf Hc Hrep Hnone.
    destruct (repair_total ext false single_folder.by_timestamp df Hrep)
      as [repaired Hr].
    rewrite (single_clean_messages_eq ext directory name df repaired Hdf Hc Hr).
    rewrite finish_single_rows.
    pose proof (none_eligible_nil _ _ _ _ _ Hr Hnone) as Hnil.
    destruct (column_call_duration df) eqn:Hcall; [now rewrite Hnil |].
    rewrite <- (filter_all_true nonzero_call repaired), Hnil; [reflexivity |].
    intros r Hin. unfold nonzero_call.
    now rewrite (single_no_call_column ext df repaired r Hcall Hr Hin).
Qed.

(** A root with no entry, and a root with stray files only. *)
Lemma C3_counterexample :
  all_folders.all_folder [] = inl ValueError /\
  all_folders.clean_messages ext0 [] = inl ValueError /\
  all_folders.clean_messages ext0 [StrayFile; StrayFile] = inl ValueError /\
  ~ (exists out, all_folders.clean_messages ext0 [] = inr out /\ rows out = []).
Proof.
  repeat (split; [reflexivity |]).
  intros (out & H & _). discriminate.
Qed.

Lemma C3_witness :
  all_folders.clean_messages ext0 [StrayFile] = inl ValueError /\
  all_folders.clean_messages ext0 [Folder media_only]
  = inr (mkFrame None true true []) /\
  all_folders.clean_messages ext0 [Folder missed_call_dir]
  = inr (mkFrame None true true []) /\
  single_folder.clean_messages ext0 missed_call_dir
  = inr (mkFrame (Some (py "Chat")) false true []).
Proof.
  destruct (C3_empty_inputs ext0) as (Hroot & Hall & Hsingle).
  split; [| split; [| split]].
  - apply (Hroot [StrayFile]). reflexivity.
  - apply (Hall [Folder media_only] (raw_rows media_only)); try reflexivity.
    + intros r text [<- | [<- | []]] Hp Hc; discriminate.
    + intros r [<- | [<- | []]]; reflexivity.
  - apply (Hall [Folder missed_call_dir] (raw_rows missed_call_dir));
      try reflexivity.
    + intros r text [<- | []] _ Hc. injection Hc as <-.
      eexists. vm_compute. reflexivity.
    + intros r [<- | []]. reflexivity.
  - apply (Hsingle missed_call_dir (Some (py "Chat"))
                   (map untitled (raw_rows missed_call_dir))); try reflexivity.
    + intros r text [<- | []] _ Hc. injection Hc as <-.
      eexists. vm_compute. reflexivity.
    + intros r [<- | []]. reflexivity.
Defined.

Lemma eligible_untitled (l : list RawRow) :
  length (filter eligible (map untitled l)) = length (filter eligible l).
Proof.
  induction l as [| r l IH]; [reflexivity |]. cbn [map filter].
  change (eligible (untitled r)) with (eligible r).
  destruct (eligible r); simpl; now rewrite IH.
Qed.

(** X6. Cleaning neither drops nor invents messages: the cleaned frame has
    one row for each raw message that has a content, no other field and
    a call duration other than 0, in single- and in multi-conversation
    mode. *)
Theorem clean_messages_row_count (ext : External) :
  (forall directory out,
      single_folder.clean_messages ext directory = inr out ->
      length (rows out) = length (filter eligible (raw_rows directory))) /\
  (forall root out,
      all_folders.clean_messages ext root = inr out ->
      length (rows out)
      = length (filter eligible
                  (flat_map raw_rows (all_folders.subdirectories root)))).
Proof.
  split.
  - intros directory out H.
    apply single_clean_messages_inr in H as (name & df & repaired & Hdf & _ & Hr & ->).
    apply all_messages_inr in Hdf as [_ Hdf]. injection Hdf as _ ->.
    cbn [rows]. rewrite finish_single_rows, length_map.
    rewrite <- eligible_untitled.
    rewrite <- (repaired_length_nonzero _ ext false _ repaired Hr).
    destruct (column_call_duration (map untitled (raw_rows directory))) eqn:Hc;
      [reflexivity |].
    rewrite filter_all_true; [reflexivity |]. intros r Hin.
    unfold nonzero_call.
    now rewrite (single_no_call_column ext _ repaired r Hc Hr Hin).
  - intros root out H.
    apply all_clean_messages_inr in H as (df & repaired & Hdf & _ & _ & Hr & ->).
    apply all_folder_inr in Hdf as (_ & _ & ->). simpl.
    rewrite finish_all_eq, finish_single_rows, length_map.
    apply (repaired_length_nonzero _ ext true _ repaired Hr).
Qed.

Lemma clean_messages_row_count_witness :
  length (rows call_frame) = length (filter eligible (raw_rows call_dir)) /\
  length (rows two_chats_frame)
  = length (filter eligible
              (flat_map raw_rows (all_folders.subdirectories two_chats))).
Proof.
  split.
  - apply (proj1 (clean_messages_row_count ext0) call_dir call_frame).
    vm_compute. reflexivity.
  - apply (proj2 (clean_messages_row_count ext0) two_chats two_chats_frame).
    vm_compute. reflexivity.
Defined.

Lemma repaired_rows_origin leb ext with_title (df : list RawRow) repaired r0 :
  apply_rows convert_Message
    (sort_values leb (dropna_Message ext with_title (filter all_purge_columns_nan df)))
  = inr repaired ->
  In r0 repaired ->
  exists raw text,
    In raw df /\ all_purge_columns_nan raw = true /\
    content (row_message raw) = Some text /\
    unicode_emoji_converter text = inr (Message r0) /\
    r0 = repaired_row ext with_title raw (Message r0).
Proof.
  intros H Hin. apply apply_rows_inr in H.
  destruct (Forall2_In_right _ _ _ _ H Hin) as (a & Ha & Hq).
  apply sort_values_In in Ha.
  apply dropna_Message_In in Ha as (raw & text & Hraw & Hc & ->).
  apply filter_In in Hraw as [Hraw Hp].
  unfold convert_Message in Hq. apply bind_inr in Hq as (m & Hm & Hq).
  injection Hq as <-. simpl in *. exists raw, text. repeat split; auto.
Qed.

Lemma repaired_rows_complete leb ext with_title (df : list RawRow) repaired raw text :
  apply_rows convert_Message
    (sort_values leb (dropna_Message ext with_title (filter all_purge_columns_nan df)))
  = inr repaired ->
  In raw df -> all_purge_columns_nan raw = true ->
  content (row_message raw) = Some text ->
  exists fixed,
    unicode_emoji_converter text = inr fixed /\
    In (repaired_row ext with_title raw fixed) repaired.
Proof.
  intros H Hin Hp Hc. apply apply_rows_inr in H.
  assert (Ha : In (repaired_row ext with_title raw text)
                  (sort_values leb
                     (dropna_Message ext with_title
                        (filter all_purge_columns_nan df)))).
  { apply sort_values_In. unfold dropna_Message. apply in_flat_map.
    exists raw. split; [apply filter_In; auto |]. rewrite Hc. now left. }
  destruct (Forall2_In_left _ _ _ _ H Ha) as (b & Hb & Hq).
  unfold convert_Message in Hq. apply bind_inr in Hq as (m & Hm & Hq).
  injection Hq as <-. simpl in Hm. exists m. split; [exact Hm | exact Hb].
Qed.

Lemma eligible_parts (raw : RawRow) :
  eligible raw = true <->
  all_purge_columns_nan raw = true /\
  (exists text, content (row_message raw) = Some text) /\
  call_duration (row_message raw) <> Some 0.
Proof.
  unfold eligible. rewrite !andb_true_iff. split.
  - intros [[Hp Hc] Hd]. split; [exact Hp | split].
    + destruct (content (row_message raw)); [eauto | discriminate].
    + destruct (call_duration (row_message raw)) as [d |]; [| discriminate].
      intros E. injection E as ->. discriminate.
  - intros (Hp & (text & Hc) & Hd). rewrite Hc. repeat split; auto.
    destruct (call_duration (row_message raw)) as [d |]; [| reflexivity].
    destruct (Z.eqb_spec d 0); [subst; congruence | reflexivity].
Qed.

Lemma nonzero_call_repaired ext with_title raw text :
  nonzero_call (repaired_row ext with_title raw text) = true <->
  call_duration (row_message raw) <> Some 0.
Proof.
  unfold nonzero_call, repaired_row. simpl.
  destruct (call_duration (row_message raw)) as [d |]; [| split; congruence].
  destruct (Z.eqb_spec d 0); simpl; split; congruence.
Qed.

(** The rows of a cleaned frame and the raw messages they come from,
    for a load [df], a flag [has_call] for the call column and a title
    column or none. *)
Lemma cleaned_rows_origin leb ext with_title has_call (df : list RawRow) repaired :
  apply_rows convert_Message
    (sort_values leb (dropna_Message ext with_title (filter all_purge_columns_nan df)))
  = inr repaired ->
  (has_call = false -> column_call_duration df = false) ->
  (forall row, In row (finish_single ext has_call repaired) ->
     exists raw, In raw df /\ eligible raw = true /\
       (exists text, content (row_message raw) = Some text /\
                     unicode_emoji_converter text = inr (Message row)) /\
       row = final_row ext has_call (repaired_row ext with_title raw (Message row))) /\
  (forall raw, In raw df -> eligible raw = true ->
     exists text fixed,
       content (row_message raw) = Some text /\
       unicode_emoji_converter text = inr fixed /\
       In (final_row ext has_call (repaired_row ext with_title raw fixed))
          (finish_single ext has_call repaired)).
Proof.
  intros H Hcol. rewrite finish_single_rows. split.
  - intros row Hin. apply in_map_iff in Hin as (r0 & <- & Hin).
    assert (Hin0 : In r0 repaired /\ nonzero_call r0 = true).
    { destruct has_call; [now apply filter_In in Hin |]. split; [exact Hin |].
      destruct (repaired_rows_origin _ _ _ _ _ _ H Hin)
        as (raw & text & Hraw & _ & _ & _ & ->).
      apply nonzero_call_repaired.
      now rewrite (column_call_duration_false df raw (Hcol eq_refl) Hraw). }
    destruct Hin0 as [Hin0 Hnz].
    destruct (repaired_rows_origin _ _ _ _ _ _ H Hin0)
      as (raw & text & Hraw & Hp & Hc & Hfix & Hr0).
    rewrite (proj1 (proj2 (final_row_fields ext has_call r0))).
    exists raw. split; [exact Hraw | split; [| split; [eauto |]]].
    + apply eligible_parts. split; [exact Hp | split; [eauto |]].
      rewrite Hr0 in Hnz. now apply nonzero_call_repaired in Hnz.
    + now rewrite <- Hr0.
  - intros raw Hraw He. apply eligible_parts in He as (Hp & (text & Hc) & Hd).
    destruct (repaired_rows_complete _ _ _ _ _ _ _ H Hraw Hp Hc)
      as (fixed & Hfix & Hin).
    exists text, fixed. split; [exact Hc | split; [exact Hfix |]].
    apply in_map. destruct has_call; [| exact Hin].
    apply filter_In. split; [exact Hin | now apply nonzero_call_repaired].
Qed.

Lemma final_row_stands_for ext with_title has_call raw text fixed :
  content (row_message raw) = Some text ->
  unicode_emoji_converter text = inr fixed ->
  stands_for with_title
    (final_row ext has_call (repaired_row ext with_title raw fixed)) raw.
Proof.
  intros Hc Hfix.
  destruct (final_row_fields ext has_call (repaired_row ext with_title raw fixed))
    as ((Hs & Ht & Hts & _ & _ & Hcd) & Hm & _).
  unfold stands_for. rewrite <- Hs, <- Hts, <- Hcd, <- Ht, Hm.
  repeat split. exists text. split; assumption.
Qed.

Lemma final_row_derived ext with_title has_call raw fixed :
  (has_call = false -> call_duration (row_message raw) = None) ->
  call_duration (row_message raw) <> Some 0 ->
  derived_fields ext (final_row ext has_call (repaired_row ext with_title raw fixed)).
Proof.
  intros Hcol Hnz.
  set (r0 := repaired_row ext with_title raw fixed).
  destruct (final_row_fields ext has_call r0)
    as ((_ & _ & Hts & Hd & Ht & Hcd) & Hm & He & Hw).
  unfold derived_fields. rewrite Hw, Hm, <- Hts, <- Hd, <- Ht, <- Hcd.
  unfold mask_url at 2. rewrite Hm.
  unfold mask_call_duration at 2. rewrite <- Hcd.
  fold (mask_call_duration r0). fold (mask_url r0).
  assert (Hmask : has_call && mask_call_duration r0 = mask_call_duration r0).
  { destruct has_call; [reflexivity |]. unfold mask_call_duration, r0. simpl.
    now rewrite (Hcol eq_refl). }
  rewrite Hmask. split; [reflexivity |].
  unfold r0, repaired_row, local_date, local_time, ms_per_day. simpl.
  split; [| split; [apply Z.mod_pos_bound; lia | exact Hnz]].
  Z.div_mod_to_equations. lia.
Qed.

(** X7. Where the rows of the cleaned frame come from. Every row stands for
    a raw message that has a content, no other field and a call duration
    other than 0 (never for a media record), with the sender, timestamp
    and call duration of that message and its content repaired; every
    such raw message has its row. In multi-conversation mode the row
    carries the title of the message's file. *)
Theorem clean_messages_provenance (ext : External) :
  (forall directory out,
      single_folder.clean_messages ext directory = inr out ->
      (forall row, In row (rows out) ->
         exists raw, In raw (raw_rows directory) /\ eligible raw = true /\
                     stands_for false row raw) /\
      (forall raw, In raw (raw_rows directory) -> eligible raw = true ->
         exists row, In row (rows out) /\ stands_for false row raw)) /\
  (forall root out,
      all_folders.clean_messages ext root = inr out ->
      (forall row, In row (rows out) ->
         exists raw, In raw (flat_map raw_rows (all_folders.subdirectories root)) /\
                     eligible raw = true /\ stands_for true row raw) /\
      (forall raw, In raw (flat_map raw_rows (all_folders.subdirectories root)) ->
         eligible raw = true ->
         exists row, In row (rows out) /\ stands_for true row raw)).
Proof.
  assert (Hgen : forall leb with_title has_call df repaired,
    apply_rows convert_Message
      (sort_values leb (dropna_Message ext with_title
                          (filter all_purge_columns_nan df))) = inr repaired ->
    (has_call = false -> column_call_duration df = false) ->
    (forall row, In row (finish_single ext has_call repaired) ->
       exists raw, In raw df /\ eligible raw = true /\
                   stands_for with_title row raw) /\
    (forall raw, In raw df -> eligible raw = true ->
       exists row, In row (finish_single ext has_call repaired) /\
                   stands_for with_title row raw)).
  { intros leb with_title has_call df repaired Hr Hcol.
    destruct (cleaned_rows_origin leb ext with_title has_call df repaired Hr Hcol)
      as [Hfrom Hto].
    split.
    - intros row Hin.
      destruct (Hfrom row Hin) as (raw & Hraw & He & (text & Hc & Hfix) & Hrow).
      exists raw. split; [exact Hraw | split; [exact He |]].
      rewrite Hrow. now apply final_row_stands_for with text.
    - intros raw Hraw He.
      destruct (Hto raw Hraw He) as (text & fixed & Hc & Hfix & Hin).
      eexists. split; [exact Hin |]. now apply final_row_stands_for with text. }
  split.
  - intros directory out H.
    apply single_clean_messages_inr in H as (name & df & repaired & Hdf & _ & Hr & ->).
    apply all_messages_inr in Hdf as [_ Hdf]. injection Hdf as _ ->. cbn [rows].
    destruct (Hgen _ false (column_call_duration (map untitled (raw_rows directory)))
                _ _ Hr (fun E => E)) as [Hfrom Hto].
    split.
    + intros row Hin. destruct (Hfrom row Hin) as (raw' & Hraw & He & Hst).
      apply in_map_iff in Hraw as (raw & <- & Hraw).
      exists raw. split; [exact Hraw | split; [exact He | exact Hst]].
    + intros raw Hraw He.
      apply (Hto (untitled raw) (in_map untitled _ raw Hraw) He).
  - intros root out H.
    apply all_clean_messages_inr in H as (df & repaired & Hdf & _ & _ & Hr & ->).
    apply all_folder_inr in Hdf as (_ & _ & ->). simpl. rewrite finish_all_eq.
    apply (Hgen _ true _ _ _ Hr). discriminate.
Qed.

(** X8. The derived columns of every cleaned row, in either mode: the word
    count is 0 for a call or a link and the number of words of the
    message otherwise; [Date] and [Time] put together are the timestamp
    moved to the zone, the time within one day; and no call duration
    is 0. *)
Theorem clean_messages_derived (ext : External) :
  (forall directory out row,
      single_folder.clean_messages ext directory = inr out ->
      In row (rows out) -> derived_fields ext row) /\
  (forall root out row,
      all_folders.clean_messages ext root = inr out ->
      In row (rows out) -> derived_fields ext row).
Proof.
  assert (Hgen : forall leb with_title has_call df repaired row,
    apply_rows convert_Message
      (sort_values leb (dropna_Message ext with_title
                          (filter all_purge_columns_nan df))) = inr repaired ->
    (has_call = false -> column_call_duration df = false) ->
    In row (finish_single ext has_call repaired) -> derived_fields ext row).
  { intros leb with_title has_call df repaired row Hr Hcol Hin.
    destruct (cleaned_rows_origin leb ext with_title has_call df repaired Hr Hcol)
      as [Hfrom _].
    destruct (Hfrom row Hin) as (raw & Hraw & He & _ & ->).
    apply eligible_parts in He as (_ & _ & Hnz).
    apply final_row_derived; [| exact Hnz].
    intros E. apply (column_call_duration_false df raw (Hcol E) Hraw). }
  split.
  - intros directory out row H Hin.
    apply single_clean_messages_inr in H as (name & df & repaired & _ & _ & Hr & ->).
    simpl in Hin.
    apply (Hgen single_folder.by_timestamp false (column_call_duration df)
                df repaired row Hr); auto.
  - intros root out row H Hin.
    apply all_clean_messages_inr in H as (df & repaired & _ & _ & _ & Hr & ->).
    simpl in Hin. rewrite finish_all_eq in Hin.
    apply (Hgen all_folders.by_date_time true true df repaired row Hr);
      [discriminate | exact Hin].
Qed.

Lemma clean_messages_provenance_witness :
  (forall row, In row (rows call_frame) ->
     exists raw, In raw (raw_rows call_dir) /\ eligible raw = true /\
                 stands_for false row raw) /\
  (forall row, In row (rows two_chats_frame) ->
     exists raw, In raw (flat_map raw_rows (all_folders.subdirectories two_chats)) /\
                 eligible raw = true /\ stands_for true row raw).
Proof.
  split.
  - apply (proj1 (clean_messages_provenance ext0) call_dir call_frame).
    vm_compute. reflexivity.
  - apply (proj2 (clean_messages_provenance ext0) two_chats two_chats_frame).
    vm_compute. reflexivity.
Defined.

Lemma clean_messages_derived_witness :
  (forall row, In row (rows call_frame) -> derived_fields ext0 row) /\
  (forall row, In row (rows two_chats_frame) -> derived_fields ext0 row).
Proof.
  split; intros row.
  - apply (proj1 (clean_messages_derived ext0) call_dir call_frame row).
    vm_compute. reflexivity.
  - apply (proj2 (clean_messages_derived ext0) two_chats two_chats_frame row).
    vm_compute. reflexivity.
Defined.

(** ** Words *)

Lemma split_from_spec (cur s : str) :
  Forall (fun c => isspace c = false) cur ->
  Forall (fun w => w <> [] /\ Forall (fun c => isspace c = false) w)
         (split_from cur s) /\
  List.concat (split_from cur s)
  = rev cur ++ filter (fun c => negb (isspace c)) s.
Proof.
  revert cur. induction s as [| c s IH]; intros cur Hcur.
  - simpl. rewrite app_nil_r. destruct cur as [| a cur]; [split; constructor |].
    split; [| simpl; now rewrite app_nil_r].
    constructor; [| constructor]. split.
    + simpl. intros E. apply app_eq_nil in E as [_ E]. discriminate.
    + apply Forall_rev. exact Hcur.
  - simpl. destruct (isspace c) eqn:Hc; simpl.
    + destruct (IH [] (Forall_nil _)) as [Hw Hcat]. simpl in Hcat.
      destruct cur as [| a cur]; [rewrite app_nil_l; split; assumption |].
      split.
      * constructor; [| exact Hw]. split.
        -- simpl. intros E. apply app_eq_nil in E as [_ E]. discriminate.
        -- apply Forall_rev. exact Hcur.
      * simpl. now rewrite Hcat.
    + destruct (IH (c :: cur)) as [Hw Hcat]; [now constructor |].
      split; [exact Hw |]. rewrite Hcat. simpl. now rewrite <- app_assoc.
Qed.

Lemma split_spec (s : str) :
  Forall (fun w => w <> [] /\ Forall (fun c => isspace c = false) w) (split s) /\
  List.concat (split s) = filter (fun c => negb (isspace c)) s.
Proof. apply (split_from_spec [] s). constructor. Qed.


Lemma prep_text_word_chars (alnum : Z -> bool) (s : str) (cap : bool) (w : str) :
  In w (prep_text alnum s cap) ->
  w <> [] /\
  forall c, In c w ->
    isspace c = false /\ (is_word_char alnum c = true \/ c = apostrophe).
Proof.
  unfold prep_text.
  set (text := if cap then _ else _). clearbody text. intros Hw.
  destruct (split_spec (filter (kept_by_prep alnum) text)) as [Hall Hcat].
  rewrite Forall_forall in Hall. destruct (Hall w Hw) as [Hne Hsp].
  split; [exact Hne |]. intros c Hc. rewrite Forall_forall in Hsp.
  split; [now apply Hsp |].
  assert (Hin : In c (List.concat (split (filter (kept_by_prep alnum) text))))
    by (apply in_concat; eauto).
  rewrite Hcat in Hin. apply filter_In in Hin as [Hin Hns].
  apply filter_In in Hin as [_ Hk]. unfold kept_by_prep in Hk.
  destruct (isspace c); [discriminate |]. rewrite orb_false_r in Hk.
  apply orb_true_iff in Hk as [Hk | Hk]; [now left | right].
  now apply Z.eqb_eq.
Qed.

(** X9. The words [prep_text] returns, with or without capitalisation: none
    is empty, none holds whitespace, and each of their characters is a
    word character or an apostrophe; put together they are the kept
    characters of the text that are not whitespace. So a text without
    word characters and apostrophes, such as one of emoji and
    punctuation only, has word count 0. *)
Theorem prep_text_words (alnum : Z -> bool) (s : str) (cap : bool) :
  (forall w, In w (prep_text alnum s cap) ->
     w <> [] /\
     forall c, In c w ->
       isspace c = false /\ (is_word_char alnum c = true \/ c = apostrophe)) /\
  (0 <= word_count alnum s <= Z.of_nat (length s)) /\
  ((forall c, In c s -> is_word_char alnum c = false /\ c <> apostrophe) ->
   word_count alnum s = 0).
Proof.
  split; [| split].
  - intros w. apply prep_text_word_chars.
  - unfold word_count, prep_text. split; [lia |].
    destruct (split_spec (filter (kept_by_prep alnum) s)) as [Hall Hcat].
    assert (Hlen : (length (split (filter (kept_by_prep alnum) s))
                    <= length (List.concat (split (filter (kept_by_prep alnum) s))))%nat).
    { clear Hcat. induction Hall as [| w l [Hne _] _ IH]; [simpl; lia |].
      simpl. rewrite length_app. destruct w; [congruence | simpl; lia]. }
    rewrite Hcat in Hlen.
    pose proof (filter_length_le (fun c => negb (isspace c))
                  (filter (kept_by_prep alnum) s)).
    pose proof (filter_length_le (kept_by_prep alnum) s). lia.
  - intros Hnone. unfold word_count, prep_text.
    destruct (split (filter (kept_by_prep alnum) s)) as [| w l] eqn:E;
      [reflexivity |].
    destruct (prep_text_word_chars alnum s false w) as [Hne Hchars].
    { change (In w (split (filter (kept_by_prep alnum) s))).
      rewrite E. now left. }
    destruct w as [| c w]; [congruence |].
    destruct (Hchars c (or_introl eq_refl)) as [_ Hc].
    assert (Hin : In c s).
    { destruct (split_spec (filter (kept_by_prep alnum) s)) as [_ Hcat].
      rewrite E in Hcat. simpl in Hcat.
      assert (Hin : In c (filter (fun c => negb (isspace c))
                            (filter (kept_by_prep alnum) s)))
        by (rewrite <- Hcat; now left).
      apply filter_In in Hin as [Hin _]. now apply filter_In in Hin as [Hin _]. }
    destruct (Hnone c Hin) as [Hw Ha]. destruct Hc; congruence.
Qed.

Lemma prep_text_words_witness :
  word_count ascii_isalnum (grinning ++ py " ... " ++ thumbs_up) = 0.
Proof.
  apply (proj2 (proj2 (prep_text_words ascii_isalnum
                         (grinning ++ py " ... " ++ thumbs_up) false))).
  intros c Hc. simpl in Hc.
  repeat (destruct Hc as [<- | Hc]; [split; [reflexivity | discriminate] |]).
  contradiction.
Defined.

(** ** Emoji tokens *)

Lemma contains_cons (p : str) (c : Z) (t : str) :
  contains p (c :: t) = startswith p (c :: t) || contains p t.
Proof. reflexivity. Qed.

Lemma contains_startswith (p text : str) :
  startswith p text = true -> contains p text = true.
Proof. intros H. destruct text; simpl in *; now rewrite H. Qed.

Lemma contains_skipn (p : str) (n : nat) (text : str) :
  contains p (skipn n text) = true -> contains p text = true.
Proof.
  revert text. induction n as [| n IH]; intros text H; [exact H |].
  destruct text as [| c t]; [exact H |]. simpl skipn in H.
  rewrite contains_cons. rewrite (IH t H). apply orb_true_r.
Qed.

Lemma contains_nil_text (p : str) : p <> [] -> contains p [] = false.
Proof. destruct p; [congruence | reflexivity]. Qed.

Section Tokens.

Variable E : list str.
Hypothesis E_nonempty : Forall (fun e => e <> []) E.

Lemma munch_tokens (text : str) (r : list str) :
  maximal_munch E text r ->
  Forall (fun tok => In tok E /\ contains tok text = true) r /\
  (r = [] <-> forall e, In e E -> contains e text = false) /\
  (length (List.concat r) <= length text)%nat.
Proof.
  induction 1 as [| c t r Hno _ (IHt & IHe & IHl)
                  | e text r Hin Hs Hmax _ (IHt & IHe & IHl)].
  - split; [constructor | split; [| simpl; lia]].
    split; [| reflexivity]. intros _ e He. apply contains_nil_text.
    rewrite Forall_forall in E_nonempty. now apply E_nonempty.
  - split; [| split; [| simpl; lia]].
    + eapply Forall_impl; [| exact IHt]. intros tok [Ht Hc]. split; [exact Ht |].
      rewrite contains_cons, Hc. apply orb_true_r.
    + rewrite IHe. split; intros H e He.
      * rewrite contains_cons, (Hno e He), (H e He). reflexivity.
      * specialize (H e He). rewrite contains_cons in H.
        now apply orb_false_iff in H.
  - split; [| split].
    + constructor; [split; [exact Hin | now apply contains_startswith] |].
      eapply Forall_impl; [| exact IHt]. intros tok [Ht Hc]. split; [exact Ht |].
      now apply contains_skipn in Hc.
    + split; [discriminate |]. intros H.
      specialize (H e Hin). rewrite (contains_startswith _ _ Hs) in H.
      discriminate.
    + simpl. rewrite length_app. rewrite length_skipn in IHl.
      apply startswith_length in Hs. lia.
Qed.

End Tokens.

(** X10. What [keep_only_emojis] returns, for a table without empty key.
    Every token is an emoji of the table that occurs in the text; the
    list is empty exactly when no emoji of the table occurs in the text;
    and the tokens together are not longer than the text. *)
Theorem keep_only_emojis_tokens (E : list str) (text : str) :
  Forall (fun e => e <> []) E ->
  (forall tok, In tok (keep_only_emojis E text) ->
               In tok E /\ contains tok text = true) /\
  (keep_only_emojis E text = [] <-> forall e, In e E -> contains e text = false) /\
  (length (List.concat (keep_only_emojis E text)) <= length text)%nat.
Proof.
  intros HE.
  destruct (munch_tokens E HE text (keep_only_emojis E text)
              (findall_munch E HE text)) as (Ht & He & Hl).
  split; [| split; assumption]. now apply Forall_forall.
Qed.

Lemma keep_only_emojis_tokens_witness :
  (forall tok, In tok (keep_only_emojis emoji_excerpt hello_emoji_world) ->
               In tok emoji_excerpt /\ contains tok hello_emoji_world = true) /\
  (keep_only_emojis emoji_excerpt hello_emoji_world = [] <->
   forall e, In e emoji_excerpt -> contains e hello_emoji_world = false) /\
  (length (List.concat (keep_only_emojis emoji_excerpt hello_emoji_world))
   <= length hello_emoji_world)%nat.
Proof.
  apply (keep_only_emojis_tokens emoji_excerpt hello_emoji_world
           emoji_excerpt_nonempty).
Defined.

(** ** Counters *)

Lemma count_of_add (w w' : str) (c : Counter) :
  count_of (counter_add w c) w'
  = count_of c w' + (if str_eqb w w' then 1 else 0).
Proof.
  unfold count_of. induction c as [| [k n] c IH]; simpl.
  - destruct (str_eqb w w'); reflexivity.
  - destruct (str_eqb k w) eqn:Ekw; simpl.
    + apply str_eqb_eq in Ekw. subst k.
      destruct (str_eqb w w'); simpl; lia.
    + destruct (str_eqb k w') eqn:Ekw'; simpl; [| exact IH].
      apply str_eqb_eq in Ekw'. subst w'.
      destruct (str_eqb w k) eqn:Ewk; [| lia].
      apply str_eqb_eq in Ewk. subst w. now rewrite str_eqb_refl in Ekw.
Qed.

Lemma counter_add_keys (w k : str) (c : Counter) :
  In k (map fst (counter_add w c)) <-> k = w \/ In k (map fst c).
Proof.
  induction c as [| [k' n] c IH]; simpl; [intuition congruence |].
  destruct (str_eqb k' w) eqn:E; simpl.
  - apply str_eqb_eq in E. subst k'. intuition congruence.
  - rewrite IH. intuition congruence.
Qed.

Lemma counter_add_ok (w : str) (c : Counter) :
  counter_ok c -> counter_ok (counter_add w c).
Proof.
  intros [Hnd Hpos]. induction c as [| [k n] c IH]; simpl.
  - split; repeat constructor; simpl; auto.
  - inversion Hnd as [| ? ? Hk Hnd']; subst. inversion Hpos as [| ? ? Hn Hpos']; subst.
    simpl in Hn. destruct (str_eqb k w) eqn:E; simpl.
    + split; [now constructor | constructor; [simpl; lia | exact Hpos']].
    + destruct (IH Hnd' Hpos') as [IH1 IH2]. split.
      * simpl. constructor; [| exact IH1]. intros Hin.
        apply counter_add_keys in Hin as [-> | Hin]; [| contradiction].
        now rewrite str_eqb_refl in E.
      * now constructor.
Qed.

Lemma count_of_update (words : list str) (c : Counter) (w : str) :
  count_of (counter_update c words) w = count_of c w + occurrences w words.
Proof.
  unfold counter_update, occurrences. revert c.
  induction words as [| x words IH]; intros c; simpl; [lia |].
  rewrite IH, count_of_add.
  destruct (list_eq_dec Z.eq_dec x w) as [-> | Hne].
  - rewrite str_eqb_refl. lia.
  - destruct (str_eqb x w) eqn:E; [apply str_eqb_eq in E; contradiction | lia].
Qed.

Lemma counter_update_ok (words : list str) (c : Counter) :
  counter_ok c -> counter_ok (counter_update c words).
Proof.
  unfold counter_update. revert c.
  induction words as [| x words IH]; intros c Hc; [exact Hc |].
  simpl. apply IH. now apply counter_add_ok.
Qed.

(** In a counter, an entry is the count of its key. *)
Lemma counter_ok_In (c : Counter) (w : str) (n : Z) :
  counter_ok c -> (In (w, n) c <-> count_of c w = n /\ 0 < n).
Proof.
  intros [Hnd Hpos]. unfold count_of.
  induction c as [| [k m] c IH]; simpl.
  - split; [easy | lia].
  - inversion Hnd as [| ? ? Hk Hnd']; subst. inversion Hpos as [| ? ? Hm Hpos']; subst.
    simpl in Hm. destruct (str_eqb k w) eqn:E; simpl.
    + apply str_eqb_eq in E. subst k. split.
      * intros [H | H]; [injection H as <-; split; [reflexivity | exact Hm] |].
        exfalso. apply Hk. now apply (in_map fst) in H.
      * intros [<- _]. now left.
    + rewrite <- (IH Hnd' Hpos'). split; [| now right].
      intros [H | H]; [| exact H]. injection H as -> _.
      now rewrite str_eqb_refl in E.
Qed.

Lemma count_of_pop (stop w : str) (c : Counter) :
  count_of (counter_pop stop c) w
  = if str_eqb stop w then 0 else count_of c w.
Proof.
  unfold count_of, counter_pop. induction c as [| [k n] c IH]; simpl.
  - now destruct (str_eqb stop w).
  - destruct (str_eqb k stop) eqn:Eks; simpl.
    + apply str_eqb_eq in Eks. subst k. rewrite IH.
      now destruct (str_eqb stop w).
    + destruct (str_eqb k w) eqn:Ekw; simpl; [| exact IH].
      apply str_eqb_eq in Ekw. subst k.
      destruct (str_eqb stop w) eqn:Esw; [| reflexivity].
      apply str_eqb_eq in Esw. subst w. now rewrite str_eqb_refl in Eks.
Qed.

Lemma counter_pop_ok (stop : str) (c : Counter) :
  counter_ok c -> counter_ok (counter_pop stop c).
Proof.
  intros [Hnd Hpos]. unfold counter_pop. split.
  - clear Hpos. induction c as [| [k n] c IH]; simpl; [constructor |].
    inversion Hnd as [| ? ? Hk Hnd']; subst.
    destruct (str_eqb k stop); simpl; [now apply IH |].
    constructor; [| now apply IH]. intros Hin. apply Hk.
    apply in_map_iff in Hin as (p & <- & Hp). apply filter_In in Hp as [Hp _].
    now apply in_map.
  - apply Forall_forall. intros p Hp. apply filter_In in Hp as [Hp _].
    rewrite Forall_forall in Hpos. now apply Hpos.
Qed.

Lemma count_of_pop_all (stops : list str) (c : Counter) (w : str) :
  count_of (fold_left (fun v stop => counter_pop stop v) stops c) w
  = if existsb (fun stop => str_eqb stop w) stops then 0 else count_of c w.
Proof.
  revert c. induction stops as [| stop stops IH]; intros c; simpl; [reflexivity |].
  rewrite IH, count_of_pop. destruct (str_eqb stop w); simpl; [| reflexivity].
  now destruct (existsb _ stops).
Qed.

Lemma counter_pop_all_ok (stops : list str) (c : Counter) :
  counter_ok c ->
  counter_ok (fold_left (fun v stop => counter_pop stop v) stops c).
Proof.
  revert c. induction stops as [| stop stops IH]; intros c Hc; [exact Hc |].
  simpl. apply IH. now apply counter_pop_ok.
Qed.

Lemma tokens_of_cons (s : str) (row : str * list str) tokens :
  tokens_of s (row :: tokens)
  = (if str_eqb (fst row) s then snd row else []) ++ tokens_of s tokens.
Proof. reflexivity. Qed.

Lemma sender_counter (s : str) (tokens : list (str * list str)) (c : Counter) (w : str) :
  counter_ok c ->
  let c' := fold_left (fun c row => if str_eqb (fst row) s
                                    then counter_update c (snd row) else c)
                      tokens c in
  counter_ok c' /\ count_of c' w = count_of c w + occurrences w (tokens_of s tokens).
Proof.
  revert c. induction tokens as [| row tokens IH]; intros c Hc.
  - simpl. split; [exact Hc |]. unfold occurrences. simpl. lia.
  - rewrite tokens_of_cons. cbn [fold_left].
    destruct (str_eqb (fst row) s) eqn:E.
    + destruct (IH (counter_update c (snd row)) (counter_update_ok _ _ Hc))
        as [Hok Hcount].
      split; [exact Hok |]. rewrite Hcount, count_of_update.
      unfold occurrences. rewrite count_occ_app, Nat2Z.inj_add, Z.add_assoc.
      reflexivity.
    + destruct (IH c Hc) as [Hok Hcount]. split; [exact Hok |].
      rewrite Hcount. reflexivity.
Qed.

Lemma unique_In (x : str) (l : list str) : In x (unique l) <-> In x l.
Proof.
  induction l as [| y l IH]; simpl; [tauto |]. rewrite filter_In, IH. split.
  - intros [-> | [H _]]; auto.
  - intros [-> | H]; [now left |].
    destruct (str_eqb y x) eqn:E; [apply str_eqb_eq in E; now left |].
    right. split; [exact H | reflexivity].
Qed.

Lemma unique_NoDup (l : list str) : NoDup (unique l).
Proof.
  induction l as [| y l IH]; simpl; [constructor |]. constructor.
  - intros H. apply filter_In in H as [_ H]. now rewrite str_eqb_refl in H.
  - now apply NoDup_filter.
Qed.

(** ** Rankings *)

Lemma count_per_sender_In (tokens : list (str * list str)) (s : str) (c : Counter) :
  In (s, c) (count_per_sender tokens) ->
  In s (map fst tokens) /\ counter_ok c /\
  forall w, count_of c w = occurrences w (tokens_of s tokens).
Proof.
  unfold count_per_sender. intros H. apply in_map_iff in H as (s' & H & Hs).
  injection H as -> <-. apply (proj1 (unique_In _ _)) in Hs. split; [exact Hs |].
  assert (Hempty : counter_ok []) by (split; constructor).
  split.
  - apply (sender_counter s tokens [] [] Hempty).
  - intros w. now destruct (sender_counter s tokens [] w Hempty) as [_ ->].
Qed.

Lemma In_count_per_sender (tokens : list (str * list str)) (s : str) :
  In s (map fst tokens) -> exists c, In (s, c) (count_per_sender tokens).
Proof.
  intros H. eexists. unfold count_per_sender.
  apply in_map_iff. exists s. split; [reflexivity | now apply unique_In].
Qed.

Lemma melt_sorted_In (counters : list (str * Counter)) (row : TopRow) :
  In row (melt_sorted counters) <->
  exists c, In (top_Sender row, c) counters /\ In (top_item row, top_Count row) c.
Proof.
  unfold melt_sorted. rewrite sort_values_In, in_flat_map. split.
  - intros ([s c] & Hsc & H). apply in_map_iff in H as ([w n] & <- & Hwn).
    simpl in *. eauto.
  - intros (c & Hsc & Hwn). exists (top_Sender row, c). split; [exact Hsc |].
    apply in_map_iff. exists (top_item row, top_Count row).
    split; [now destruct row | exact Hwn].
Qed.

Lemma melt_sorted_sorted (counters : list (str * Counter)) :
  StronglySorted count_ge (melt_sorted counters).
Proof.
  unfold melt_sorted.
  eapply StronglySorted_impl;
    [| apply (sort_values_sorted (fun a b => top_Count b <=? top_Count a))].
  - intros a b. unfold count_ge. apply Z.leb_le.
  - intros a b. rewrite Z.leb_gt, Z.leb_le. lia.
  - intros a b c. rewrite !Z.leb_le. lia.
Qed.

Lemma occurrences_positive (w : str) (tokens : list str) :
  0 < occurrences w tokens <-> In w tokens.
Proof.
  unfold occurrences. rewrite (count_occ_In (list_eq_dec Z.eq_dec)). lia.
Qed.

Lemma tokens_of_In (s w : str) (tokens : list (str * list str)) :
  In w (tokens_of s tokens) <-> exists words, In (s, words) tokens /\ In w words.
Proof.
  unfold tokens_of. rewrite in_flat_map. split.
  - intros ([s' words] & Hrow & Hw). simpl in Hw.
    destruct (str_eqb s' s) eqn:E; [| contradiction].
    apply str_eqb_eq in E. subst s'. eauto.
  - intros (words & Hrow & Hw). exists (s, words). split; [exact Hrow |].
    simpl. now rewrite str_eqb_refl.
Qed.

(** The rows of a ranking, for the counters of the senders of [tokens]
    from which the keys in [stops] are removed. *)
Lemma ranking_rows (tokens : list (str * list str)) (stops : list str) (row : TopRow) :
  In row (melt_sorted
            (map (fun sc => (fst sc, fold_left (fun v stop => counter_pop stop v)
                                               stops (snd sc)))
                 (count_per_sender tokens))) <->
  0 < top_Count row /\
  top_Count row = occurrences (top_item row) (tokens_of (top_Sender row) tokens) /\
  ~ In (top_item row) stops.
Proof.
  rewrite melt_sorted_In. split.
  - intros (c & Hc & Hw). apply in_map_iff in Hc as ([s c0] & Hsc & Hin).
    simpl in Hsc. injection Hsc as <- <-.
    destruct (count_per_sender_In tokens _ c0 Hin) as (_ & Hok & Hcount).
    apply (counter_ok_In _ _ _ (counter_pop_all_ok stops c0 Hok)) in Hw
      as [Hn Hpos].
    rewrite count_of_pop_all in Hn.
    destruct (existsb (fun stop => str_eqb stop (top_item row)) stops) eqn:E;
      [lia |].
    split; [exact Hpos | split; [now rewrite <- Hn, Hcount |]].
    intros Hstop.
    assert (existsb (fun stop => str_eqb stop (top_item row)) stops = true)
      by (apply existsb_exists; exists (top_item row); split;
          [exact Hstop | apply str_eqb_refl]).
    congruence.
  - intros (Hpos & Hn & Hstop).
    assert (Hin : In (top_item row) (tokens_of (top_Sender row) tokens))
      by (apply occurrences_positive; lia).
    apply tokens_of_In in Hin as (words & Hrow & _).
    destruct (In_count_per_sender tokens (top_Sender row)) as (c0 & Hc0);
      [now apply (in_map fst) in Hrow |].
    destruct (count_per_sender_In tokens _ c0 Hc0) as (_ & Hok & Hcount).
    exists (fold_left (fun v stop => counter_pop stop v) stops c0). split.
    + apply in_map_iff. exists (top_Sender row, c0). split; [reflexivity | exact Hc0].
    + apply (counter_ok_In _ _ _ (counter_pop_all_ok stops c0 Hok)).
      split; [| exact Hpos]. rewrite count_of_pop_all.
      destruct (existsb (fun stop => str_eqb stop (top_item row)) stops) eqn:E.
      * apply existsb_exists in E as (stop & Hs & E).
        apply str_eqb_eq in E. subst stop. contradiction.
      * now rewrite Hcount.
Qed.

(** X11. What [top_emojis] returns: one row for each sender and each emoji
    that occurs among the tokens of that sender's messages with an emoji
    count above 0, with the number of its occurrences, highest count
    first. *)
Theorem top_emojis_counts (ext : External) (df : DataFrame) :
  exists out,
    top_emojis ext df = inr out /\
    (forall row,
       In row out <->
       0 < top_Count row /\
       top_Count row
       = occurrences (top_item row)
                     (tokens_of (top_Sender row) (emoji_tokens ext df))) /\
    StronglySorted count_ge out.
Proof.
  eexists. split; [reflexivity |]. split; [| apply melt_sorted_sorted].
  intros row.
  pose proof (ranking_rows (emoji_tokens ext df) [] row) as H.
  simpl in H. rewrite map_ext with (g := fun sc => sc) in H
    by (now intros [s c]).
  rewrite map_id in H. unfold emoji_tokens in *. rewrite H. tauto.
Qed.

Lemma top_emojis_counts_witness :
  exists out,
    top_emojis ext0 emoji_frame = inr out /\
    (forall row,
       In row out <->
       0 < top_Count row /\
       top_Count row
       = occurrences (top_item row)
                     (tokens_of (top_Sender row) (emoji_tokens ext0 emoji_frame))) /\
    StronglySorted count_ge out.
Proof. exact (top_emojis_counts ext0 emoji_frame). Defined.

Lemma capitalize_from_cons (st : cap_state) (c : Z) (t : str) :
  exists c' st',
    capitalize_from st (c :: t) = c' :: capitalize_from st' t /\
    (c' = c \/ (is_ascii_letter c = true /\ (c' = upper c \/ c' = lower c))).
Proof.
  simpl. destruct (is_ascii_letter c) eqn:Hl.
  - destruct st; eauto 10.
  - destruct st; try (eexists; eexists; split; [reflexivity | now left]).
    destruct t as [| c' t']; [eexists; eexists; split; [reflexivity | now left] |].
    destruct ((c =? apostrophe) && is_ascii_letter c');
      eexists; eexists; split; try reflexivity; now left.
Qed.

Lemma is_ascii_letter_range (c : Z) :
  is_ascii_letter c = true <-> 65 <= c <= 90 \/ 97 <= c <= 122.
Proof.
  unfold is_ascii_letter, is_upper, is_lower.
  rewrite orb_true_iff, !andb_true_iff, !Z.leb_le. tauto.
Qed.

Lemma letter_not_punctuation (c : Z) :
  is_ascii_letter c = true -> is_punctuation c = false.
Proof.
  intros H. apply is_ascii_letter_range in H. unfold is_punctuation.
  repeat match goal with
         | |- context [Z.leb ?a ?b] => destruct (Z.leb_spec a b); try lia
         end; reflexivity.
Qed.

Lemma letter_case_letter (c : Z) :
  is_ascii_letter c = true ->
  is_ascii_letter (upper c) = true /\ is_ascii_letter (lower c) = true.
Proof.
  intros H. apply is_ascii_letter_range in H.
  rewrite !is_ascii_letter_range. unfold upper, lower, is_upper, is_lower.
  destruct (Z.leb_spec 97 c), (Z.leb_spec c 122), (Z.leb_spec 65 c),
    (Z.leb_spec c 90); simpl; lia.
Qed.

Lemma letter_case_not_punctuation (c : Z) :
  is_ascii_letter c = true ->
  is_punctuation (upper c) = false /\ is_punctuation (lower c) = false.
Proof.
  intros H. destruct (letter_case_letter c H).
  split; now apply letter_not_punctuation.
Qed.

Lemma capitalize_no_punctuation (st : cap_state) (s : str) :
  Forall (fun c => is_punctuation c = false) s ->
  Forall (fun c => is_punctuation c = false) (capitalize_from st s).
Proof.
  intros H. revert st. induction H as [| c t Hc _ IH]; intros st; [constructor |].
  destruct (capitalize_from_cons st c t) as (c' & st' & -> & Hc').
  constructor; [| apply IH].
  destruct Hc' as [-> | [Hl [-> | ->]]]; [exact Hc | |];
    now apply letter_case_not_punctuation.
Qed.

Lemma words_without_punctuation_clean (text : str) :
  Forall (fun c => is_punctuation c = false) (words_without_punctuation text).
Proof.
  apply Forall_forall. intros c Hc. apply filter_In in Hc as [_ Hc].
  now destruct (is_punctuation c).
Qed.

Lemma stop_words_In (w : str) (stops : list str) :
  existsb (fun stop => str_eqb stop w) stops = true <-> In w stops.
Proof.
  rewrite existsb_exists. split.
  - intros (stop & Hs & E). apply str_eqb_eq in E. now subst.
  - intros H. exists w. split; [exact H | apply str_eqb_refl].
Qed.

(** X12. What [top_words] returns on a frame with the call column: one row
    for each sender and each word of that sender's messages without link
    and without positive call duration, except the stop words, with the
    number of its occurrences, highest count first. A word of the ranking
    is never empty and holds neither whitespace nor ASCII punctuation
    (an apostrophe or an underscore of the message is gone). *)
Theorem top_words_counts (ext : External) (df : DataFrame) :
  has_Call_Duration df = true ->
  exists out,
    top_words ext df = inr out /\
    (forall row,
       In row out <->
       0 < top_Count row /\
       top_Count row
       = occurrences (top_item row)
                     (tokens_of (top_Sender row) (word_tokens ext df)) /\
       ~ In (top_item row) stop_words) /\
    StronglySorted count_ge out /\
    (forall row, In row out ->
       top_item row <> [] /\
       forall c, In c (top_item row) ->
                 is_punctuation c = false /\ isspace c = false).
Proof.
  intros Hcol. unfold top_words. rewrite Hcol. cbn [negb]. unfold ret.
  eexists. split; [reflexivity |].
  fold (word_tokens ext df).
  assert (Hrows : forall row,
    In row (melt_sorted
              (map (fun sc => (fst sc, fold_left (fun v stop => counter_pop stop v)
                                                 stop_words (snd sc)))
                   (count_per_sender (word_tokens ext df)))) <->
    0 < top_Count row /\
    top_Count row
    = occurrences (top_item row) (tokens_of (top_Sender row) (word_tokens ext df)) /\
    ~ In (top_item row) stop_words)
    by (intros row; apply ranking_rows).
  split; [exact Hrows | split; [apply melt_sorted_sorted |]].
  intros row Hin. apply Hrows in Hin as (Hpos & Hn & _).
  assert (Hw : In (top_item row)
                  (tokens_of (top_Sender row) (word_tokens ext df)))
    by (apply occurrences_positive; lia).
  apply tokens_of_In in Hw as (words & Hrow & Hw).
  unfold word_tokens in Hrow. apply in_map_iff in Hrow as (r & Hr & _).
  injection Hr as _ <-.
  destruct (prep_text_word_chars (isalnum ext)
              (words_without_punctuation (Message r)) true _ Hw) as [Hne Hchars].
  split; [exact Hne |]. intros c Hc. split; [| now apply Hchars].
  unfold prep_text in Hw.
  set (text := capitalize_from Outside (words_without_punctuation (Message r))) in *.
  destruct (split_spec (filter (kept_by_prep (isalnum ext)) text)) as [_ Hcat].
  assert (Hin : In c (List.concat (split (filter (kept_by_prep (isalnum ext)) text))))
    by (apply in_concat; eauto).
  rewrite Hcat in Hin. apply filter_In in Hin as [Hin _].
  apply filter_In in Hin as [Hin _].
  pose proof (capitalize_no_punctuation Outside _
                (words_without_punctuation_clean (Message r))) as Hclean.
  rewrite Forall_forall in Hclean. now apply Hclean.
Qed.

Lemma top_words_counts_witness :
  exists out,
    top_words ext0 words_frame = inr out /\
    (forall row,
       In row out <->
       0 < top_Count row /\
       top_Count row
       = occurrences (top_item row)
                     (tokens_of (top_Sender row) (word_tokens ext0 words_frame)) /\
       ~ In (top_item row) stop_words) /\
    StronglySorted count_ge out /\
    (forall row, In row out ->
       top_item row <> [] /\
       forall c, In c (top_item row) ->
                 is_punctuation c = false /\ isspace c = false).
Proof. apply (top_words_counts ext0 words_frame). reflexivity. Defined.

(** ** [plot_top] *)

Lemma In_firstn {A} (n : nat) (l : list A) (x : A) :
  In x (firstn n l) -> In x l.
Proof.
  revert l. induction n as [| n IH]; intros [| y l]; simpl; try easy.
  intros [-> | H]; [now left | right; now apply IH].
Qed.

Lemma slice_to_firstn {A} (n : Z) (l : list A) :
  0 <= n -> slice_to n l = firstn (Z.to_nat n) l.
Proof. intros H. unfold slice_to. destruct (Z.leb_spec 0 n); [reflexivity | lia]. Qed.

Lemma top_slices_In (n : Z) (ranked : list TopRow) (row : TopRow) :
  0 <= n ->
  (In row (List.concat (top_slices n ranked)) <->
   In row (firstn (Z.to_nat n)
             (filter (fun r => str_eqb (top_Sender r) (top_Sender row)) ranked))).
Proof.
  intros Hn. unfold top_slices. rewrite in_concat. split.
  - intros (slice & Hs & Hrow). apply in_map_iff in Hs as (name & <- & _).
    rewrite slice_to_firstn in Hrow by exact Hn.
    assert (Hname : top_Sender row = name).
    { apply In_firstn in Hrow. apply filter_In in Hrow as [_ E].
      now apply str_eqb_eq in E. }
    now subst name.
  - intros Hrow. eexists. split.
    + apply in_map_iff. exists (top_Sender row). split; [reflexivity |].
      apply unique_In, in_map. apply In_firstn in Hrow.
      now apply filter_In in Hrow as [Hrow _].
    + now rewrite slice_to_firstn.
Qed.

Lemma StronglySorted_app_cross {A} (R : A -> A -> Prop) (l1 l2 : list A) :
  StronglySorted R (l1 ++ l2) -> forall a b, In a l1 -> In b l2 -> R a b.
Proof.
  induction l1 as [| x l1 IH]; simpl; intros H a b Ha Hb; [easy |].
  inversion H as [| ? ? Hs Hx]; subst. destruct Ha as [<- | Ha].
  - rewrite Forall_forall in Hx. apply Hx, in_or_app. now right.
  - now apply IH.
Qed.

Lemma slices_filter_length (n : nat) (ranked : list TopRow) (s : str) (names : list str) :
  NoDup names ->
  (length (filter (fun r => str_eqb (top_Sender r) s)
             (List.concat
                (map (fun name =>
                        firstn n (filter (fun r => str_eqb (top_Sender r) name) ranked))
                     names)))
   <= n)%nat.
Proof.
  induction 1 as [| name names Hname _ IH]; simpl; [lia |].
  rewrite filter_app, length_app.
  destruct (list_eq_dec Z.eq_dec name s) as [-> | Hne].
  - assert (Hrest : filter (fun r => str_eqb (top_Sender r) s)
                      (List.concat
                         (map (fun name =>
                                 firstn n (filter (fun r => str_eqb (top_Sender r) name)
                                                  ranked)) names)) = []).
    { clear IH. induction names as [| name' names IH']; [reflexivity |].
      simpl. rewrite filter_app, IH', app_nil_r.
      - apply filter_none. intros r Hr. simpl in *.
        apply In_firstn, filter_In in Hr as [_ E]. apply str_eqb_eq in E.
        destruct (str_eqb (top_Sender r) s) eqn:E'; [| reflexivity].
        apply str_eqb_eq in E'. exfalso. apply Hname. left. congruence.
      - intros Hin. apply Hname. now right. }
    rewrite Hrest. simpl.
    pose proof (filter_length_le (fun r => str_eqb (top_Sender r) s)
                  (firstn n (filter (fun r => str_eqb (top_Sender r) s) ranked))).
    pose proof (firstn_le_length n
                  (filter (fun r => str_eqb (top_Sender r) s) ranked)).
    lia.
  - assert (Hhead : filter (fun r => str_eqb (top_Sender r) s)
                      (firstn n (filter (fun r => str_eqb (top_Sender r) name) ranked))
                    = []).
    { apply filter_none. intros r Hr.
      apply In_firstn, filter_In in Hr as [_ E]. apply str_eqb_eq in E.
      destruct (str_eqb (top_Sender r) s) eqn:E'; [| reflexivity].
      apply str_eqb_eq in E'. congruence. }
    rewrite Hhead. simpl. exact IH.
Qed.

Lemma top_slices_nil (n : Z) (ranked : list TopRow) :
  top_slices n ranked = [] <-> ranked = [].
Proof.
  unfold top_slices. split.
  - destruct ranked as [| r ranked]; [reflexivity | discriminate].
  - now intros ->.
Qed.

Lemma ret_inr {A} (a b : A) : @ret A a = inr b -> a = b.
Proof. intros H. now injection H. Qed.

Lemma ranking_sorted ext df ranked :
  top_emojis ext df = inr ranked \/ top_words ext df = inr ranked ->
  StronglySorted count_ge ranked.
Proof.
  intros [H | H].
  - unfold top_emojis in H. injection H as <-. apply melt_sorted_sorted.
  - unfold top_words in H. destruct (negb (has_Call_Duration df)); [discriminate |].
    apply ret_inr in H. subst ranked. apply melt_sorted_sorted.
Qed.

(** The frame of [plot_top] for a ranking [ranked] and a bound [n >= 0]. *)
Lemma plot_of_ranking (n : Z) (ranked res : list TopRow) :
  0 <= n -> StronglySorted count_ge ranked ->
  concat_frames (top_slices n ranked) = inr res ->
  let out := sort_values (fun a b => top_Count b <=? top_Count a) res in
  ranked <> [] /\
  (forall row, In row out <->
     In row (firstn (Z.to_nat n)
               (filter (fun r => str_eqb (top_Sender r) (top_Sender row)) ranked))) /\
  (forall s, Z.of_nat (length (filter (fun r => str_eqb (top_Sender r) s) out)) <= n) /\
  StronglySorted count_ge out /\
  (forall row kept, In row ranked -> ~ In row out -> In kept out ->
     top_Sender kept = top_Sender row -> top_Count row <= top_Count kept).
Proof.
  intros Hn Hsorted Hres out.
  apply concat_frames_inr in Hres as [-> Hne].
  assert (Hin : forall row, In row out <->
     In row (firstn (Z.to_nat n)
               (filter (fun r => str_eqb (top_Sender r) (top_Sender row)) ranked))).
  { intros row. unfold out. rewrite sort_values_In. now apply top_slices_In. }
  split; [| split; [exact Hin | split; [| split]]].
  - intros E. apply Hne. now apply top_slices_nil.
  - intros s. unfold out.
    rewrite (filter_length_perm _ _ _ (sort_values_perm _ _)).
    unfold top_slices.
    rewrite (map_ext _ (fun name =>
               firstn (Z.to_nat n)
                      (filter (fun r => str_eqb (top_Sender r) name) ranked)))
      by (intros; now apply slice_to_firstn).
    pose proof (slices_filter_length (Z.to_nat n) ranked s _
                  (unique_NoDup (map top_Sender ranked))).
    lia.
  - unfold out. eapply StronglySorted_impl;
      [| apply (sort_values_sorted (fun a b => top_Count b <=? top_Count a))].
    + intros a b. unfold count_ge. apply Z.leb_le.
    + intros a b. rewrite Z.leb_gt, Z.leb_le. lia.
    + intros a b c. rewrite !Z.leb_le. lia.
  - intros row kept Hrow Hnot Hkept Hs.
    set (F := filter (fun r => str_eqb (top_Sender r) (top_Sender row)) ranked).
    assert (HF : StronglySorted count_ge (firstn (Z.to_nat n) F ++ skipn (Z.to_nat n) F))
      by (rewrite firstn_skipn; now apply StronglySorted_filter).
    apply (StronglySorted_app_cross _ _ _ HF kept row).
    + apply Hin in Hkept. now rewrite Hs in Hkept.
    + assert (HrowF : In row F)
        by (apply filter_In; split; [exact Hrow | apply str_eqb_refl]).
      rewrite <- (firstn_skipn (Z.to_nat n) F) in HrowF.
      apply in_app_or in HrowF as [H | H]; [| exact H].
      exfalso. apply Hnot. now apply Hin.
Qed.

(** X13. What [plot_top] returns for a bound [top_num >= 0]: the ranking of
    emojis or of words cut, sender by sender, to its first [top_num]
    rows, and sorted again by count. So no sender has more than
    [top_num] rows, the frame is in descending order of count, and a row
    of the ranking that is left out has no higher count than the rows
    kept for its sender. *)
Theorem plot_top_spec (ext : External) (df : DataFrame) (top_type : string)
    (top_num : Z) (out : list TopRow) :
  0 <= top_num ->
  plot_top ext df top_type top_num = inr out ->
  exists ranked,
    ((top_type = "emojis"%string /\ top_emojis ext df = inr ranked) \/
     (top_type = "words"%string /\ top_words ext df = inr ranked)) /\
    ranked <> [] /\
    (forall row, In row out <->
       In row (firstn (Z.to_nat top_num)
                 (filter (fun r => str_eqb (top_Sender r) (top_Sender row)) ranked))) /\
    (forall s, Z.of_nat (length (filter (fun r => str_eqb (top_Sender r) s) out))
               <= top_num) /\
    StronglySorted count_ge out /\
    (forall row kept, In row ranked -> ~ In row out -> In kept out ->
       top_Sender kept = top_Sender row -> top_Count row <= top_Count kept).
Proof.
  intros Hn H. unfold plot_top in H.
  apply bind_inr in H as (holder & Hholder & H).
  apply bind_inr in H as (res & Hres & H). injection H as <-.
  assert (Hranked : exists ranked,
    ((top_type = "emojis"%string /\ top_emojis ext df = inr ranked) \/
     (top_type = "words"%string /\ top_words ext df = inr ranked)) /\
    holder = top_slices top_num ranked).
  { destruct (String.eqb_spec top_type "emojis") as [-> | _].
    - apply bind_inr in Hholder as (ranked & Hr & Hh). injection Hh as <-.
      exists ranked. split; [left; now split | reflexivity].
    - destruct (String.eqb_spec top_type "words") as [-> | _].
      + apply bind_inr in Hholder as (ranked & Hr & Hh). injection Hh as <-.
        exists ranked. split; [right; now split | reflexivity].
      + injection Hholder as <-. discriminate. }
  destruct Hranked as (ranked & Htype & ->). exists ranked.
  split; [exact Htype |].
  apply (plot_of_ranking top_num ranked res Hn); [| exact Hres].
  apply (ranking_sorted ext df). destruct Htype as [[_ Ht] | [_ Ht]]; auto.
Qed.

(** X14. When [plot_top] has nothing to concatenate it raises [ValueError]:
    for a [top_type] other than ['emojis'] and ['words'], and for the
    emojis of a frame in which no message has an emoji. For the words of
    a frame without the call column the [KeyError] of [top_words] comes
    through. *)
Theorem plot_top_errors (ext : External) (df : DataFrame) (top_num : Z) :
  (forall top_type, top_type <> "emojis"%string -> top_type <> "words"%string ->
                    plot_top ext df top_type top_num = inl ValueError) /\
  ((forall r, In r (rows df) -> Emoji_Count r <= 0) ->
   plot_top ext df "emojis" top_num = inl ValueError) /\
  (has_Call_Duration df = false ->
   plot_top ext df "words" top_num = inl (KeyError ["Call Duration (Sec)"%string])).
Proof.
  split; [| split].
  - intros top_type H1 H2. unfold plot_top.
    destruct (String.eqb_spec top_type "emojis"); [contradiction |].
    destruct (String.eqb_spec top_type "words"); [contradiction |]. reflexivity.
  - intros H. unfold plot_top, top_emojis. cbn [String.eqb Ascii.eqb Bool.eqb].
    rewrite (filter_none (fun r => 0 <? Emoji_Count r) (rows df)); [reflexivity |].
    intros r Hr. apply Z.ltb_ge. now apply H.
  - intros H. unfold plot_top, top_words. cbn [String.eqb Ascii.eqb Bool.eqb].
    now rewrite H.
Qed.

Lemma plot_top_spec_witness :
  exists ranked,
    (("words"%string = "emojis"%string /\ top_emojis ext0 words_frame = inr ranked) \/
     ("words"%string = "words"%string /\ top_words ext0 words_frame = inr ranked)) /\
    ranked <> [] /\
    (forall row, In row words_top1 <->
       In row (firstn (Z.to_nat 1)
                 (filter (fun r => str_eqb (top_Sender r) (top_Sender row)) ranked))) /\
    (forall s, Z.of_nat (length (filter (fun r => str_eqb (top_Sender r) s) words_top1))
               <= 1) /\
    StronglySorted count_ge words_top1 /\
    (forall row kept, In row ranked -> ~ In row words_top1 -> In kept words_top1 ->
       top_Sender kept = top_Sender row -> top_Count row <= top_Count kept).
Proof.
  apply (plot_top_spec ext0 words_frame "words" 1 words_top1); [lia |].
  vm_compute. reflexivity.
Defined.

Lemma plot_top_errors_witness :
  plot_top ext0 words_frame "emoji" 10 = inl ValueError /\
  plot_top ext0 words_frame "emojis" 10 = inl ValueError /\
  plot_top ext0 no_call_frame "words" 10
  = inl (KeyError ["Call Duration (Sec)"%string]).
Proof.
  destruct (plot_top_errors ext0 words_frame 10) as (Htype & Hnone & _).
  destruct (plot_top_errors ext0 no_call_frame 10) as (_ & _ & Hcol).
  split; [| split].
  - apply Htype; discriminate.
  - apply Hnone. intros r [<- | [<- | [<- | []]]]; simpl; lia.
  - apply Hcol. reflexivity.
Defined.

(** ** [message_stats], sender by sender *)


Lemma filter_filter {A} (p q : A -> bool) (l : list A) :
  filter p (filter q l) = filter (fun a => q a && p a) l.
Proof.
  induction l as [| a l IH]; [reflexivity |]. simpl.
  destruct (q a); simpl; [destruct (p a); simpl |]; now rewrite IH.
Qed.














(** ** The charts *)

Lemma group_counts_total (l : list CanonRow) :
  sumZ (map (fun k => Z.of_nat (length (group k l))) (group_keys l))
  = Z.of_nat (length l).
Proof.
  rewrite (length_as_sum l).
  rewrite <- (sum_by_group (fun _ => 1) (group_keys l) l (group_keys_NoDup l)).
  - f_equal. apply map_ext. intros k. apply length_as_sum.
  - intros r Hr. apply group_keys_In. eauto.
Qed.

(** X17. What the donut chart of [plot_message_distribution] shows, on a
    frame with the call column: for each sender with a row without
    positive call duration, in the order of the names, the number of
    those rows of the sender, and their total. Links are counted here, so the total
    is the message count of [Total] in [message_stats] plus the number of
    rows with a link and without positive call duration. *)
Theorem plot_message_distribution_total (ext : External) (df : DataFrame) :
  has_Call_Duration df = true ->
  exists sizes total,
    plot_message_distribution df = inr (sizes, total) /\
    StronglySorted str_lt (map fst sizes) /\
    (forall s n, In (s, n) sizes ->
       0 < n /\
       n = Z.of_nat (length (rows_of df (fun r => negb (positive_call r)) s))) /\
    total = Z.of_nat (length (filter (fun r => negb (positive_call r)) (rows df))) /\
    total
    = stat_Message (total_row true (sender_stats ext df))
      + Z.of_nat (length (filter (fun r => mask_url r && negb (positive_call r))
                                 (rows df))).
Proof.
  intros Hcol. unfold plot_message_distribution. rewrite Hcol. cbn [negb].
  set (L := filter (fun r => negb (positive_call r)) (rows df)).
  eexists. eexists. split; [reflexivity |].
  rewrite !map_map. cbn [fst snd]. rewrite map_id.
  split; [apply group_keys_sorted | split; [| split]].
  - intros s n Hin. apply in_map_iff in Hin as (k & Hk & Hin).
    injection Hk as -> <-.
    assert (Hg : group s L = rows_of df (fun r => negb (positive_call r)) s)
      by (unfold group, L, rows_of; now rewrite filter_filter).
    rewrite Hg. split; [| reflexivity].
    apply group_keys_In in Hin as (r & Hr & Hs).
    assert (Hin : In r (group s L))
      by (apply filter_In; split; [exact Hr | now apply str_eqb_eq]).
    rewrite Hg in Hin. destruct (rows_of df _ s); [contradiction | simpl; lia].
  - apply group_counts_total.
  - rewrite group_counts_total.
    destruct (message_stats_total_count ext df) as (stats & total & Hout & _ & Hcount).
    unfold message_stats in Hout. apply ret_inr in Hout.
    apply app_inj_tail in Hout as [_ <-]. rewrite Hcol in Hcount. rewrite Hcount.
    rewrite <- Nat2Z.inj_add. f_equal. unfold L, counted_as_message.
    rewrite Hcol. clear. induction (rows df) as [| r l IH]; [reflexivity |].
    simpl. destruct (mask_url r), (positive_call r); simpl in *; lia.
Qed.

Lemma plot_message_distribution_total_witness :
  exists sizes total,
    plot_message_distribution call_frame = inr (sizes, total) /\
    StronglySorted str_lt (map fst sizes) /\
    (forall s n, In (s, n) sizes ->
       0 < n /\
       n = Z.of_nat (length (rows_of call_frame (fun r => negb (positive_call r)) s))) /\
    total = Z.of_nat (length (filter (fun r => negb (positive_call r))
                                     (rows call_frame))) /\
    total
    = stat_Message (total_row true (sender_stats ext0 call_frame))
      + Z.of_nat (length (filter (fun r => mask_url r && negb (positive_call r))
                                 (rows call_frame))).
Proof. apply (plot_message_distribution_total ext0 call_frame). reflexivity. Defined.

Lemma distinct_pairs_In (p : Z * Z) (l : list (Z * Z)) :
  In p (distinct_pairs l) <-> In p l.
Proof.
  induction l as [| q l IH]; [reflexivity |]. cbn [distinct_pairs]. split.
  - intros [-> | H]; [now left |]. apply filter_In in H as [H _].
    right. now apply IH.
  - intros [-> | H]; [now left |].
    destruct ((fst q =? fst p) && (snd q =? snd p)) eqn:E.
    + left. apply andb_true_iff in E as [E1 E2].
      apply Z.eqb_eq in E1, E2. destruct p, q; simpl in *; congruence.
    + right. apply filter_In. split; [now apply IH | now rewrite E].
Qed.

Lemma distinct_pairs_NoDup (l : list (Z * Z)) : NoDup (distinct_pairs l).
Proof.
  induction l as [| q l IH]; [constructor |]. cbn [distinct_pairs].
  constructor.
  - intros H. apply filter_In in H as [_ H].
    now rewrite !Z.eqb_refl in H.
  - now apply NoDup_filter.
Qed.

Lemma insert_hour_In (h x : Z) (hours : list Z) :
  In x (insert_hour h hours) <-> x = h \/ In x hours.
Proof.
  induction hours as [| h' rest IH]; simpl; [intuition |].
  destruct (Z.eqb_spec h h') as [-> |]; [simpl; intuition |].
  destruct (h <? h'); simpl; [intuition |]. rewrite IH. intuition.
Qed.

Lemma insert_hour_sorted (h : Z) (hours : list Z) :
  StronglySorted Z.lt hours -> StronglySorted Z.lt (insert_hour h hours).
Proof.
  induction 1 as [| h' rest Hs IH Hall]; simpl; [repeat constructor |].
  destruct (Z.eqb_spec h h') as [-> | Hne]; [now constructor |].
  destruct (Z.ltb_spec h h') as [Hlt | Hge].
  - constructor; [now constructor |]. constructor; [exact Hlt |].
    eapply Forall_impl; [| exact Hall]. intros; lia.
  - constructor; [exact IH |]. apply Forall_forall. intros x Hx.
    apply insert_hour_In in Hx as [-> | Hx]; [lia |].
    now apply (proj1 (Forall_forall _ _) Hall).
Qed.

Lemma sorted_hours (l : list Z) :
  StronglySorted Z.lt (fold_right insert_hour [] l) /\
  forall x, In x (fold_right insert_hour [] l) <-> In x l.
Proof.
  induction l as [| h l [IHs IHin]]; simpl; [split; [constructor | reflexivity] |].
  split; [now apply insert_hour_sorted |].
  intros x. rewrite insert_hour_In, IHin. intuition.
Qed.

Lemma StronglySorted_lt_NoDup (l : list Z) : StronglySorted Z.lt l -> NoDup l.
Proof.
  induction 1 as [| x l Hs IH Hall]; constructor; [| exact IH].
  intros Hin. apply (proj1 (Forall_forall _ _) Hall) in Hin. lia.
Qed.

Lemma sumZ_indicator_Z (x : Z) (keys : list Z) :
  NoDup keys -> In x keys ->
  sumZ (map (fun k => if x =? k then 1 else 0) keys) = 1.
Proof.
  induction 1 as [| k keys Hk Hnd IH]; [contradiction |].
  cbn [map sumZ fold_right]. fold (sumZ (map (fun k => if x =? k then 1 else 0) keys)).
  intros [-> | Hin].
  - rewrite Z.eqb_refl.
    assert (H0 : sumZ (map (fun k0 => if x =? k0 then 1 else 0) keys) = 0).
    { clear IH Hnd. induction keys as [| k' keys IH]; [reflexivity |].
      cbn [map sumZ fold_right].
      fold (sumZ (map (fun k0 => if x =? k0 then 1 else 0) keys)).
      destruct (Z.eqb_spec x k') as [-> |]; [exfalso; apply Hk; now left |].
      rewrite IH; [reflexivity | intros H; apply Hk; now right]. }
    lia.
  - destruct (Z.eqb_spec x k) as [-> |]; [contradiction |]. now rewrite IH.
Qed.

(** Counting the rows key by key counts every row once. *)
Lemma count_by_key (f : CanonRow -> Z) (keys : list Z) (l : list CanonRow) :
  NoDup keys -> (forall r, In r l -> In (f r) keys) ->
  sumZ (map (fun k => Z.of_nat (length (filter (fun r => f r =? k) l))) keys)
  = Z.of_nat (length l).
Proof.
  intros Hnd. induction l as [| r l IH]; intros Hcover.
  - simpl. clear. induction keys as [| k keys IHk]; simpl; [reflexivity | exact IHk].
  - rewrite (map_ext _ (fun k => (if f r =? k then 1 else 0)
                                 + Z.of_nat (length (filter (fun r => f r =? k) l)))).
    + rewrite sumZ_map_add, IH by (intros; apply Hcover; now right).
      rewrite sumZ_indicator_Z; [simpl length; lia | exact Hnd |].
      apply Hcover. now left.
    + intros k. simpl. destruct (f r =? k); simpl length; lia.
Qed.

Lemma heat_cell (l : list CanonRow) (d h : Z) :
  match find (fun kc : Z * Z * Z => (fst (fst kc) =? d) && (snd (fst kc) =? h))
             (map (fun k => (k, Z.of_nat (length
                                   (filter (fun r => (weekday r =? fst k)
                                                     && (hour r =? snd k)) l))))
                  (distinct_pairs (map (fun r => (weekday r, hour r)) l))) with
  | Some kc => snd kc
  | None => 0
  end
  = Z.of_nat (length (filter (fun r => (weekday r =? d) && (hour r =? h)) l)).
Proof.
  destruct (find _ _) as [kc |] eqn:E.
  - apply find_some in E as [Hin Hp]. apply in_map_iff in Hin as (k & <- & _).
    cbn [fst snd] in *. apply andb_true_iff in Hp as [Hd Hh].
    apply Z.eqb_eq in Hd, Hh. now subst.
  - rewrite filter_none; [reflexivity |]. intros r Hr.
    destruct ((weekday r =? d) && (hour r =? h)) eqn:Hp; [| reflexivity].
    apply andb_true_iff in Hp as [Hd Hh]. apply Z.eqb_eq in Hd, Hh.
    assert (Hk : In (weekday r, hour r)
                    (distinct_pairs (map (fun r => (weekday r, hour r)) l)))
      by (apply distinct_pairs_In, in_map_iff; eauto).
    apply (in_map (fun k => (k, Z.of_nat (length
                                (filter (fun r => (weekday r =? fst k)
                                                  && (hour r =? snd k)) l))))) in Hk.
    apply (find_none _ _ E) in Hk. cbn [fst snd] in Hk.
    subst. now rewrite !Z.eqb_refl in Hk.
Qed.

Lemma heat_day (l : list CanonRow) (d : Z) :
  existsb (fun kc : Z * Z * Z => fst (fst kc) =? d)
          (map (fun k => (k, Z.of_nat (length
                                (filter (fun r => (weekday r =? fst k)
                                                  && (hour r =? snd k)) l))))
               (distinct_pairs (map (fun r => (weekday r, hour r)) l))) = true
  <-> exists r, In r l /\ weekday r = d.
Proof.
  rewrite existsb_exists. split.
  - intros (kc & Hin & Hd). apply in_map_iff in Hin as (k & <- & Hk).
    apply distinct_pairs_In, in_map_iff in Hk as (r & <- & Hr).
    cbn [fst snd] in Hd. apply Z.eqb_eq in Hd. eauto.
  - intros (r & Hr & <-). eexists. split.
    + apply in_map. apply distinct_pairs_In, in_map_iff.
      exists r. split; [reflexivity | exact Hr].
    + cbn [fst snd]. apply Z.eqb_refl.
Qed.

Lemma heat_columns (l : list CanonRow) :
  let columns :=
    fold_right insert_hour []
      (map (fun kc : Z * Z * Z => snd (fst kc))
           (map (fun k => (k, Z.of_nat (length
                                 (filter (fun r => (weekday r =? fst k)
                                                   && (hour r =? snd k)) l))))
                (distinct_pairs (map (fun r => (weekday r, hour r)) l)))) in
  StronglySorted Z.lt columns /\
  forall h, In h columns <-> exists r, In r l /\ hour r = h.
Proof.
  intros columns. destruct (sorted_hours
    (map (fun kc : Z * Z * Z => snd (fst kc))
       (map (fun k => (k, Z.of_nat (length
                             (filter (fun r => (weekday r =? fst k)
                                               && (hour r =? snd k)) l))))
            (distinct_pairs (map (fun r => (weekday r, hour r)) l))))) as [Hs Hin].
  split; [exact Hs |]. intros h. unfold columns. rewrite Hin, map_map.
  cbn [fst snd]. rewrite in_map_iff. split.
  - intros (k & <- & Hk).
    apply distinct_pairs_In, in_map_iff in Hk as (r & <- & Hr). eauto.
  - intros (r & Hr & <-). exists (weekday r, hour r). split; [reflexivity |].
    apply distinct_pairs_In, in_map_iff. eauto.
Qed.

Lemma weekday_range (r : CanonRow) : In (weekday r) desired_order.
Proof.
  unfold weekday, desired_order.
  pose proof (Z.mod_pos_bound (Date r + 3) 7 ltac:(lia)) as H.
  simpl. lia.
Qed.

Lemma nth_desired_order {A} (F : Z -> A) (d : Z) (a : A) :
  0 <= d < 7 -> nth (Z.to_nat d) (map F desired_order) a = F d.
Proof.
  intros H.
  assert (Hd : d = 0 \/ d = 1 \/ d = 2 \/ d = 3 \/ d = 4 \/ d = 5 \/ d = 6) by lia.
  destruct Hd as [-> | [-> | [-> | [-> | [-> | [-> | ->]]]]]]; reflexivity.
Qed.

(** X18. The table that [total_message_frequency] hands to the heat map, on a
    frame with the call column and at least one row without positive
    call duration. Its columns are the hours in which some
    row without positive call duration falls, ascending and each once. It
    has seven rows, Monday to Sunday: the row of a day on which no such
    row falls is the row of NaN of [reindex] (the [fill_value] does not
    reach it), and every other row holds, column by column, the number of
    such rows on that day and in that hour. The counts of the table add
    up to the total that [plot_message_distribution] shows. *)
Theorem total_message_frequency_table (df : DataFrame) :
  has_Call_Duration df = true ->
  (exists r, In r (rows df) /\ positive_call r = false) ->
  exists columns table,
    total_message_frequency df = inr (columns, table) /\
    StronglySorted Z.lt columns /\
    (forall h, In h columns <->
               exists r, In r (rows df) /\ positive_call r = false /\ hour r = h) /\
    length table = 7%nat /\
    (forall d, 0 <= d < 7 ->
       match nth (Z.to_nat d) table None with
       | None =>
           forall r, In r (rows df) -> positive_call r = false -> weekday r <> d
       | Some cells =>
           (exists r, In r (rows df) /\ positive_call r = false /\ weekday r = d) /\
           cells = map (messages_at df d) columns
       end) /\
    exists sizes, plot_message_distribution df = inr (sizes, table_total table).
Proof.
  intros Hcol _. unfold total_message_frequency, plot_message_distribution.
  rewrite Hcol. cbn [negb].
  set (l := filter (fun r => negb (positive_call r)) (rows df)).
  assert (Hl : forall r, In r l <-> In r (rows df) /\ positive_call r = false).
  { intros r. unfold l. rewrite filter_In, negb_true_iff. reflexivity. }
  assert (Hat : forall d h,
            Z.of_nat (length (filter (fun r => (weekday r =? d) && (hour r =? h)) l))
            = messages_at df d h).
  { intros d h. unfold messages_at, l. now rewrite filter_filter. }
  destruct (heat_columns l) as [Hsorted Hhours].
  eexists. eexists. split; [reflexivity |].
  set (columns := fold_right insert_hour [] _) in *.
  split; [exact Hsorted |]. split; [| split; [reflexivity | split]].
  - intros h. rewrite Hhours. split; intros (r & Hr & Hh); exists r.
    + apply Hl in Hr. tauto.
    + split; [apply Hl |]; tauto.
  - intros d Hd. rewrite nth_desired_order by exact Hd.
    destruct (existsb _ _) eqn:E.
    + apply heat_day in E as (r & Hr & Hw). apply Hl in Hr. split; [exists r; tauto |].
      apply map_ext. intros h. rewrite heat_cell. apply Hat.
    + intros r Hr Hp Hw.
      assert (Ht : existsb (fun kc : Z * Z * Z => fst (fst kc) =? d)
                     (map (fun k => (k, Z.of_nat (length
                                (filter (fun r => (weekday r =? fst k)
                                                  && (hour r =? snd k)) l))))
                        (distinct_pairs (map (fun r => (weekday r, hour r)) l)))
                   = true)
        by (apply heat_day; exists r; split; [apply Hl; tauto | exact Hw]).
      congruence.
  - eexists. unfold ret. apply f_equal. apply (f_equal (pair _)).
    rewrite !map_map. cbn [snd].
    rewrite group_counts_total. unfold table_total. rewrite map_map.
    rewrite <- (count_by_key weekday desired_order l);
      [| repeat constructor; simpl; lia | intros; apply weekday_range].
    f_equal. apply map_ext. intros d.
    destruct (existsb _ _) eqn:E.
    + rewrite <- (count_by_key hour columns (filter (fun r => weekday r =? d) l)).
      * cbv beta iota. f_equal. apply map_ext. intros h.
        rewrite heat_cell. now rewrite filter_filter.
      * now apply StronglySorted_lt_NoDup.
      * intros r Hr. apply filter_In in Hr as [Hr _]. apply Hhours. eauto.
    + rewrite filter_none; [reflexivity |]. intros r Hr.
      destruct (Z.eqb_spec (weekday r) d) as [Hw |]; [| reflexivity].
      assert (Ht : existsb (fun kc : Z * Z * Z => fst (fst kc) =? d)
                     (map (fun k => (k, Z.of_nat (length
                                (filter (fun r => (weekday r =? fst k)
                                                  && (hour r =? snd k)) l))))
                        (distinct_pairs (map (fun r => (weekday r, hour r)) l)))
                   = true)
        by (apply heat_day; eauto).
      congruence.
Qed.

Lemma total_message_frequency_table_witness :
  exists columns table,
    total_message_frequency call_frame = inr (columns, table) /\
    StronglySorted Z.lt columns /\
    (forall h, In h columns <->
               exists r, In r (rows call_frame) /\ positive_call r = false /\
                         hour r = h) /\
    length table = 7%nat /\
    (forall d, 0 <= d < 7 ->
       match nth (Z.to_nat d) table None with
       | None =>
           forall r, In r (rows call_frame) -> positive_call r = false ->
                     weekday r <> d
       | Some cells =>
           (exists r, In r (rows call_frame) /\ positive_call r = false /\
                      weekday r = d) /\
           cells = map (messages_at call_frame d) columns
       end) /\
    exists sizes,
      plot_message_distribution call_frame = inr (sizes, table_total table).
Proof.
  apply (total_message_frequency_table call_frame); [reflexivity |].
  eexists. split; [right; left; reflexivity | reflexivity].
Defined.

(** X19. Neither chart can be drawn for a single conversation without call
    records: the frame that [single_folder.clean_messages] returns for it
    has no call-duration column, and [plot_message_distribution] and
    [total_message_frequency] both start by reading that column, so both
    raise [KeyError] for ["Call Duration (Sec)"]. *)
Theorem charts_need_call_records (ext : External)
    (directory : list ExportFile) (out : DataFrame) :
  no_call_records directory ->
  single_folder.clean_messages ext directory = inr out ->
  plot_message_distribution out = inl (KeyError ["Call Duration (Sec)"%string]) /\
  total_message_frequency out = inl (KeyError ["Call Duration (Sec)"%string]).
Proof.
  intros Hno H.
  pose proof (single_omits_call_column ext directory out Hno H) as Hcol.
  unfold plot_message_distribution, total_message_frequency.
  rewrite Hcol. split; reflexivity.
Qed.

Lemma charts_need_call_records_witness :
  plot_message_distribution no_call_frame
  = inl (KeyError ["Call Duration (Sec)"%string]) /\
  total_message_frequency no_call_frame
  = inl (KeyError ["Call Duration (Sec)"%string]).
Proof.
  apply (charts_need_call_records ext0 no_call_dir no_call_frame).
  - exact no_call_dir_no_calls.
  - vm_compute. reflexivity.
Defined.

(** ** [rename_folders] *)

Lemma split_underscore_nonempty (s : str) : split_underscore s <> [].
Proof.
  destruct s as [| c s]; simpl; [discriminate |].
  destruct (c =? 95); [discriminate |].
  destruct (split_underscore s); discriminate.
Qed.

Lemma split_underscore_length (s : str) :
  length (split_underscore s) = S (count_occ Z.eq_dec s 95).
Proof.
  induction s as [| c s IH]; [reflexivity |]. simpl.
  destruct (Z.eqb_spec c 95) as [-> | Hc].
  - destruct (Z.eq_dec 95 95); [| contradiction]. simpl. now rewrite IH.
  - destruct (Z.eq_dec c 95); [contradiction |].
    destruct (split_underscore s); [discriminate | exact IH].
Qed.

Lemma split_underscore_parts (s : str) :
  Forall (fun part => ~ In 95 part) (split_underscore s).
Proof.
  induction s as [| c s IH]; simpl; [repeat constructor; auto |].
  destruct (Z.eqb_spec c 95) as [-> | Hc]; [constructor; auto |].
  destruct (split_underscore s) as [| p ps]; [repeat constructor; simpl; intuition |].
  inversion IH as [| ? ? Hp Hps]; subst. constructor; [| exact Hps].
  simpl. intuition.
Qed.

Lemma split_underscore_one (s part : str) :
  split_underscore s = [part] -> s = part.
Proof.
  revert part. induction s as [| c s IH]; intros part; simpl.
  - congruence.
  - destruct (c =? 95).
    + intros H. injection H as _ H. now apply split_underscore_nonempty in H.
    + destruct (split_underscore s) as [| p ps] eqn:E;
        [now apply split_underscore_nonempty in E |].
      intros H. injection H as <- ->. now rewrite (IH p).
Qed.

Lemma split_underscore_two (s base rest : str) :
  split_underscore s = [base; rest] -> s = base ++ 95 :: rest.
Proof.
  revert base. induction s as [| c s IH]; intros base; simpl; [discriminate |].
  destruct (Z.eqb_spec c 95) as [-> | Hc].
  - intros H. injection H as <- H. apply split_underscore_one in H. now subst.
  - destruct (split_underscore s) as [| p ps]; [discriminate |].
    intros H. injection H as <- ->. now rewrite (IH p).
Qed.

Lemma split_underscore_plain (s : str) :
  ~ In 95 s -> split_underscore s = [s].
Proof.
  induction s as [| c s IH]; [reflexivity |]. simpl. intros H.
  destruct (Z.eqb_spec c 95) as [-> | Hc]; [tauto |].
  rewrite IH by tauto. reflexivity.
Qed.

Lemma split_underscore_app (base rest : str) :
  ~ In 95 base ->
  split_underscore (base ++ 95 :: rest) = base :: split_underscore rest.
Proof.
  induction base as [| c base IH]; [reflexivity |]. simpl. intros H.
  destruct (Z.eqb_spec c 95) as [-> | Hc]; [tauto |].
  rewrite IH by tauto. reflexivity.
Qed.

Lemma rename_loop_step (previous_name item : str) (rest : list str) :
  (count_occ Z.eq_dec item 95 <> 1%nat /\
   rename_loop previous_name (item :: rest) = rename_loop previous_name rest) \/
  (count_occ Z.eq_dec item 95 = 1%nat /\
   exists base suffix new,
     item = base ++ 95 :: suffix /\ ~ In 95 base /\ ~ In 95 suffix /\
     (new = base \/ new = base ++ py "-") /\ new <> previous_name /\
     rename_loop previous_name (item :: rest)
     = (item, new) :: rename_loop new rest).
Proof.
  pose proof (split_underscore_length item) as Hlen.
  pose proof (split_underscore_parts item) as Hparts.
  cbn [rename_loop].
  destruct (split_underscore item) as [| base [| suffix [| third more]]] eqn:E;
    try (left; split; [simpl in Hlen; lia | reflexivity]).
  right. split; [simpl in Hlen; lia |].
  inversion Hparts as [| ? ? Hb Hrest]; subst.
  inversion Hrest as [| ? ? Hs _]; subst.
  apply split_underscore_two in E.
  destruct (str_eqb previous_name base) eqn:Heq; cbn [negb].
  - apply str_eqb_eq in Heq. subst previous_name.
    exists base, suffix, (base ++ py "-"). repeat split; auto.
    intros H. apply (f_equal (@length Z)) in H.
    rewrite length_app in H. simpl in H. lia.
  - exists base, suffix, base. repeat split; auto.
    intros ->. now rewrite str_eqb_refl in Heq.
Qed.

Lemma neighbours_differ_tail (a : str) (l : list str) :
  neighbours_differ (a :: l) -> neighbours_differ l.
Proof. destruct l as [| b l]; simpl; tauto. Qed.

Lemma hyphen_plain (base : str) : ~ In 95 base -> ~ In 95 (base ++ py "-").
Proof.
  intros H Hin. apply in_app_or in Hin as [Hin | Hin]; [tauto |].
  simpl in Hin. lia.
Qed.

Lemma rename_loop_spec (all_items : list str) (previous_name : str) :
  map fst (rename_loop previous_name all_items)
  = filter (fun item => Nat.eqb (count_occ Z.eq_dec item 95) 1) all_items /\
  (forall item new, In (item, new) (rename_loop previous_name all_items) ->
     exists base suffix,
       item = base ++ 95 :: suffix /\ ~ In 95 base /\ ~ In 95 suffix /\
       (new = base \/ new = base ++ py "-")) /\
  neighbours_differ (previous_name :: map snd (rename_loop previous_name all_items)) /\
  Forall (fun new => ~ In 95 new) (map snd (rename_loop previous_name all_items)).
Proof.
  revert previous_name.
  induction all_items as [| item rest IH]; intros previous_name.
  - simpl. repeat split; [intros ? ? [] | constructor].
  - destruct (rename_loop_step previous_name item rest)
      as [[Hn ->] | [H1 (base & suffix & new & Hitem & Hb & Hs & Hnew & Hne & ->)]].
    + cbn [filter]. destruct (Nat.eqb_spec (count_occ Z.eq_dec item 95) 1);
        [contradiction | apply IH].
    + destruct (IH new) as (Hfst & Hin & Hdiff & Hplain).
      cbn [filter map fst snd]. rewrite H1, Nat.eqb_refl.
      split; [now rewrite Hfst |]. split; [| split].
      * intros item' new' [Heq | H]; [| now apply Hin].
        injection Heq as <- <-. exists base, suffix. auto.
      * split; [congruence | exact Hdiff].
      * constructor; [| exact Hplain].
        destruct Hnew as [-> | ->]; [exact Hb | now apply hyphen_plain].
Qed.

Lemma rename_loop_plain (all_items : list str) (previous_name : str) :
  Forall (fun item => ~ In 95 item) all_items ->
  rename_loop previous_name all_items = [].
Proof.
  induction 1 as [| item rest Hitem _ IH]; [reflexivity |].
  cbn [rename_loop]. now rewrite (split_underscore_plain item Hitem).
Qed.

(** X20. The calls [os.rename(item, new)] that [rename_folders] makes over a
    listing: the items renamed are those with exactly one underscore, in
    the order of the listing; each is renamed to the part before its
    underscore, or to that part followed by a hyphen; two calls in a row
    never ask for the same name; and the new names hold no underscore, so
    a second run over them renames nothing. *)
Theorem rename_folders_calls (all_items : list str) :
  map fst (rename_folders all_items)
  = filter (fun item => Nat.eqb (count_occ Z.eq_dec item 95) 1) all_items /\
  (forall item new, In (item, new) (rename_folders all_items) ->
     exists base suffix,
       item = base ++ 95 :: suffix /\ ~ In 95 base /\ ~ In 95 suffix /\
       (new = base \/ new = base ++ py "-")) /\
  neighbours_differ (map snd (rename_folders all_items)) /\
  rename_folders (map snd (rename_folders all_items)) = [].
Proof.
  unfold rename_folders.
  destruct (rename_loop_spec all_items []) as (Hfst & Hin & Hdiff & Hplain).
  split; [exact Hfst |]. split; [exact Hin |]. split.
  - exact (neighbours_differ_tail _ _ Hdiff).
  - now apply rename_loop_plain.
Qed.

Lemma rename_folders_calls_witness :
  map fst (rename_folders [py "alice_1"; py "notes"; py "alice_2"; py "a_b_c"])
  = [py "alice_1"; py "alice_2"] /\
  neighbours_differ
    (map snd (rename_folders [py "alice_1"; py "notes"; py "alice_2"; py "a_b_c"])) /\
  rename_folders
    (map snd (rename_folders [py "alice_1"; py "notes"; py "alice_2"; py "a_b_c"]))
  = [].
Proof.
  destruct (rename_folders_calls
              [py "alice_1"; py "notes"; py "alice_2"; py "a_b_c"])
    as (Hfst & _ & Hdiff & Hagain).
  split; [exact Hfst | split; [exact Hdiff | exact Hagain]].
Defined.

(** X21. The hyphen keeps apart only neighbours. Of three items in a row with
    the same non-empty part before the underscore, the first is renamed
    to that part, the second to the part with a hyphen, and the third is
    again asked to take the name given to the first. *)
Theorem rename_folders_same_base (base s1 s2 s3 : str) :
  base <> [] -> ~ In 95 base -> ~ In 95 s1 -> ~ In 95 s2 -> ~ In 95 s3 ->
  rename_folders [base ++ 95 :: s1; base ++ 95 :: s2; base ++ 95 :: s3]
  = [(base ++ 95 :: s1, base);
     (base ++ 95 :: s2, base ++ py "-");
     (base ++ 95 :: s3, base)].
Proof.
  intros Hne Hb H1 H2 H3. unfold rename_folders. cbn [rename_loop].
  rewrite !split_underscore_app by exact Hb.
  rewrite !split_underscore_plain by assumption.
  assert (E1 : str_eqb [] base = false).
  { destruct (str_eqb [] base) eqn:E; [| reflexivity].
    apply str_eqb_eq in E. congruence. }
  assert (E2 : str_eqb (base ++ py "-") base = false).
  { destruct (str_eqb (base ++ py "-") base) eqn:E; [| reflexivity].
    apply str_eqb_eq in E. apply (f_equal (@length Z)) in E.
    rewrite length_app in E. simpl in E. lia. }
  rewrite E1. cbn [negb]. rewrite str_eqb_refl. cbn [negb].
  rewrite E2. reflexivity.
Qed.

Lemma rename_folders_same_base_witness :
  rename_folders [py "alice_1"; py "alice_2"; py "alice_3"]
  = [(py "alice_1", py "alice"); (py "alice_2", py "alice-");
     (py "alice_3", py "alice")].
Proof.
  apply (rename_folders_same_base (py "alice") (py "1") (py "2") (py "3"));
    vm_compute; [discriminate | | | |]; intuition discriminate.
Defined.
